(** * Descent texture GIF tools: frame grouping, tool probing and drivers

    A shallow embedding of the three Node.js scripts of the repository

      - [transparency-maker.js]      (black pixels to transparent PNGs),
      - [gifcreator.js]              (animated GIFs from texture sequences),
      - [transparent-gif-creator.js] (animated GIFs from transparent PNGs),

    together with the parts of the JavaScript runtime they rely on:
    numbers, [parseInt], [Array.prototype.sort], ordinary objects with
    their prototype and key order, [path.extname], and the regular
    expression [/^(.+)_(\d+)\.png$/].

    A [string] holds the UTF-8 encoding of a JavaScript string (a file
    name, a console line, a command): an ASCII character is one [ascii],
    any other character a run of two to four of them, each 128 or more.
    What the scripts do with a string (compare it with another, find an
    underscore, a digit, a dot or a slash in it, split it there, append
    to it) comes to the same on the encoding as on the code units of the
    JavaScript string; the one place where a character outside ASCII
    counts is the [.] of the regular expression, which refuses the line
    terminators U+2028 and U+2029.  The [path] module is the POSIX
    one. *)

From Stdlib Require Import List String Ascii ZArith Lia Bool Arith.
From Stdlib Require Import Sorting.Sorted Sorting.Permutation DecimalString.
Import ListNotations.

Open Scope string_scope.
Open Scope Z_scope.

(* ================================================================== *)
(** * JavaScript numbers                                               *)
(* ================================================================== *)

(** Only integral values occur in the scripts: frame indices read by
    [parseInt] and their differences.  A Number is therefore an integer
    representable as an IEEE-754 double, an infinity, or NaN. *)
Inductive number : Type :=
  | Fin (z : Z)
  | PosInf
  | NegInf
  | NaN.

(** Round a positive integer to the nearest integer with a 53-bit
    significand, ties to even. *)
Definition round_pos (z : Z) : Z :=
  if z <? 2 ^ 53 then z
  else
    let e := Z.log2 z - 52 in
    let q := Z.shiftr z e in
    let r := z mod 2 ^ e in
    let half := 2 ^ (e - 1) in
    let q' := if (half <? r) || ((r =? half) && Z.odd q) then q + 1 else q in
    Z.shiftl q' e.

(** The Number value of a mathematical integer. *)
Definition to_number (z : Z) : number :=
  let m := round_pos (Z.abs z) in
  if 2 ^ 1024 <=? m then (if z <? 0 then NegInf else PosInf)
  else Fin (Z.sgn z * m).

(** [a - b] *)
Definition num_sub (a b : number) : number :=
  match a, b with
  | NaN, _ | _, NaN => NaN
  | Fin x, Fin y => to_number (x - y)
  | PosInf, PosInf | NegInf, NegInf => NaN
  | PosInf, _ | _, NegInf => PosInf
  | NegInf, _ | _, PosInf => NegInf
  end.

(** [v < 0] *)
Definition num_neg (v : number) : bool :=
  match v with
  | Fin z => z <? 0
  | NegInf => true
  | PosInf | NaN => false
  end.

(** [a <= b] and [a < b] on Numbers (both false when NaN is involved). *)
Definition num_leb (a b : number) : bool :=
  match a, b with
  | NaN, _ | _, NaN => false
  | NegInf, _ | _, PosInf => true
  | Fin x, Fin y => x <=? y
  | _, _ => false
  end.

Definition num_ltb (a b : number) : bool :=
  match a, b with
  | NaN, _ | _, NaN => false
  | PosInf, _ | _, NegInf => false
  | Fin x, Fin y => x <? y
  | _, _ => true
  end.

Definition is_NaN (a : number) : bool :=
  match a with NaN => true | _ => false end.

(* ================================================================== *)
(** * Characters and strings                                           *)
(* ================================================================== *)

Definition is_digit (c : ascii) : bool :=
  let n := nat_of_ascii c in ((48 <=? n) && (n <=? 57))%nat.

Definition digit_value (c : ascii) : Z := Z.of_nat (nat_of_ascii c) - 48.

(** The line terminators, which [.] does not match, are LF, CR, U+2028
    and U+2029.  In the encoding of a string the first two are the
    bytes 10 and 13 and the last two the byte runs 226 128 168 and
    226 128 169; the encoding of no other character holds these bytes
    or overlaps these runs.  [line_terminator_at s] tells whether [s]
    starts with a line terminator. *)
Definition line_terminator_at (s : string) : bool :=
  match s with
  | EmptyString => false
  | String c r =>
      Ascii.eqb c "010" || Ascii.eqb c "013"
      || (Ascii.eqb c "226"
          && match r with
             | String c1 (String c2 _) =>
                 Ascii.eqb c1 "128" && (Ascii.eqb c2 "168" || Ascii.eqb c2 "169")
             | _ => false
             end)
  end.

Fixpoint all_chars (p : ascii -> bool) (s : string) : bool :=
  match s with
  | EmptyString => true
  | String c r => p c && all_chars p r
  end.

Definition nonempty (s : string) : bool :=
  match s with EmptyString => false | String _ _ => true end.

(** A non-empty run of decimal digits: what [\d+] matches as a whole. *)
Definition is_digits (s : string) : bool := nonempty s && all_chars is_digit s.

(** Longest prefix of digits, and the rest. *)
Fixpoint span_digits (s : string) : string * string :=
  match s with
  | EmptyString => (EmptyString, EmptyString)
  | String c r =>
      if is_digit c then let (ds, t) := span_digits r in (String c ds, t)
      else (EmptyString, s)
  end.

(** Mathematical value of a digit string, most significant digit first. *)
Fixpoint digits_value_from (acc : Z) (s : string) : Z :=
  match s with
  | EmptyString => acc
  | String c r => digits_value_from (10 * acc + digit_value c) r
  end.

(** [parseInt(s)] for a string that starts with neither white space, a
    sign, nor [0x] (the capture of [\d+] never does): the value of its
    longest prefix of decimal digits, NaN when that prefix is empty. *)
Definition parseInt (s : string) : number :=
  let (ds, _) := span_digits s in
  match ds with
  | EmptyString => NaN
  | _ => to_number (digits_value_from 0 ds)
  end.

(** The double quote and the line feed, as one-character strings. *)
Definition quote : string := String "034" EmptyString.
Definition LF : string := String "010" EmptyString.

(** Decimal rendering of a length in a template string. *)
Definition show_nat (n : nat) : string := NilZero.string_of_uint (Nat.to_uint n).

(* ------------------------------------------------------------------ *)
(** ** The regular expression [/^(.+)_(\d+)\.png$/]                    *)
(* ------------------------------------------------------------------ *)

(** [_(\d+)\.png$] at the start of [s]: the digit run is greedy, and a
    shorter run cannot be followed by the literal dot. *)
Definition match_tail (s : string) : option string :=
  match s with
  | String "_" r =>
      let (ds, t) := span_digits r in
      if nonempty ds && String.eqb t ".png" then Some ds else None
  | _ => None
  end.

(** [(.+)_(\d+)\.png$] at the start of [s].  The group [(.+)] is greedy:
    having taken one character it first tries to take more, and only
    when that fails gives the rest to [match_tail].  It takes no line
    terminator; the bytes of any other character it takes one after the
    other, and the underscore that must follow is never one of them. *)
Fixpoint match_groups (s : string) : option (string * string) :=
  match s with
  | EmptyString => None
  | String c r =>
      if line_terminator_at (String c r) then None
      else
        match match_groups r with
        | Some (b, d) => Some (String c b, d)
        | None =>
            match match_tail r with
            | Some d => Some (String c EmptyString, d)
            | None => None
            end
        end
  end.

(** [file.match(/^(.+)_(\d+)\.png$/)]: the captures [match[1]] and
    [match[2]], or [None] for [null]. *)
Definition regex_match (file : string) : option (string * string) :=
  match_groups file.

(* ------------------------------------------------------------------ *)
(** ** [path.extname] (POSIX)                                          *)
(* ------------------------------------------------------------------ *)

Record ExtState : Type := mkExtState {
  startDot : option nat;
  startPart : nat;
  endPos : option nat;
  matchedSlash : bool;
  preDotState : Z
}.

Definition ext_init : ExtState := mkExtState None 0 None true 0.

(** The scan of [extname] from the last character to the first; [rs] is
    the part of the path still to visit, last character first. *)
Fixpoint extname_scan (rs : list ascii) (st : ExtState) : ExtState :=
  match rs with
  | [] => st
  | code :: rs' =>
      let i := List.length rs' in
      if Ascii.eqb code "/" then
        if negb (matchedSlash st)
        then mkExtState (startDot st) (i + 1) (endPos st) (matchedSlash st) (preDotState st)
        else extname_scan rs' st
      else
        let st1 :=
          match endPos st with
          | None => mkExtState (startDot st) (startPart st) (Some (i + 1)%nat) false (preDotState st)
          | Some _ => st
          end in
        let st2 :=
          if Ascii.eqb code "." then
            match startDot st1 with
            | None => mkExtState (Some i) (startPart st1) (endPos st1) (matchedSlash st1) (preDotState st1)
            | Some _ =>
                if negb (preDotState st1 =? 1)
                then mkExtState (startDot st1) (startPart st1) (endPos st1) (matchedSlash st1) 1
                else st1
            end
          else
            match startDot st1 with
            | Some _ => mkExtState (startDot st1) (startPart st1) (endPos st1) (matchedSlash st1) (-1)
            | None => st1
            end in
        extname_scan rs' st2
  end.

Definition slice (cs : list ascii) (from to : nat) : string :=
  string_of_list_ascii (firstn (to - from) (skipn from cs)).

Definition extname (path : string) : string :=
  let cs := list_ascii_of_string path in
  let st := extname_scan (rev cs) ext_init in
  match startDot st, endPos st with
  | Some sd, Some e =>
      if (preDotState st =? 0)
         || ((preDotState st =? 1) && (sd =? e - 1)%nat && (sd =? startPart st + 1)%nat)
      then ""
      else slice cs sd e
  | _, _ => ""
  end.

(* ================================================================== *)
(** * Arrays and ordinary objects                                      *)
(* ================================================================== *)

Section Sort.
Context {A : Type}.

(** One insertion step: [x] goes before the first element it is
    strictly below, hence after every element it ties with. *)
Fixpoint insert_by (below : A -> A -> bool) (x : A) (l : list A) : list A :=
  match l with
  | [] => [x]
  | y :: l' => if below x y then x :: y :: l' else y :: insert_by below x l'
  end.

Definition sort_by (below : A -> A -> bool) (l : list A) : list A :=
  fold_left (fun acc x => insert_by below x acc) l [].

(** "Not the other way round": the order a sorted array is in. *)
Definition not_after (below : A -> A -> bool) (x y : A) : Prop := below y x = false.

(** [arr.sort(comparefn)].  ECMAScript asks for a stable sort and reads
    the comparator's answer [v] as: [v < 0] puts the first argument
    first, NaN counts as 0.  Stable insertion is the reference. *)
Definition js_sort (comparefn : A -> A -> number) (arr : list A) : list A :=
  sort_by (fun x y => num_neg (comparefn x y)) arr.
End Sort.

(** The element type of a group: [{ file, frame, path }]. *)
Record Frame : Type := mkFrame {
  file : string;
  frame : number;
  path : string
}.

(** [(a, b) => a.frame - b.frame] *)
Definition by_frame (a b : Frame) : number := num_sub (frame a) (frame b).

(** The own properties of the object [groups], in order of creation. *)
Definition Groups : Type := list (string * list Frame).

Fixpoint own (k : string) (g : Groups) : option (list Frame) :=
  match g with
  | [] => None
  | (k', v) :: g' => if String.eqb k k' then Some v else own k g'
  end.

(** Assignment to an own property: in place when it exists, else a new
    property after the existing ones. *)
Fixpoint set_own (k : string) (v : list Frame) (g : Groups) : Groups :=
  match g with
  | [] => [(k, v)]
  | (k', v') :: g' =>
      if String.eqb k k' then (k, v) :: g' else (k', v') :: set_own k v g'
  end.

(** [delete groups[k]] *)
Fixpoint delete (k : string) (g : Groups) : Groups :=
  match g with
  | [] => []
  | (k', v') :: g' =>
      if String.eqb k k' then g' else (k', v') :: delete k g'
  end.

Definition own_keys (g : Groups) : list string := map fst g.

(** The properties every object literal inherits from [Object.prototype].
    Each holds a function (or, for [__proto__], the prototype itself):
    truthy, and without a [push] method. *)
Definition object_prototype_keys : list string :=
  [ "constructor"; "__defineGetter__"; "__defineSetter__"; "hasOwnProperty";
    "__lookupGetter__"; "__lookupSetter__"; "isPrototypeOf";
    "propertyIsEnumerable"; "toString"; "valueOf"; "__proto__";
    "toLocaleString" ].

Definition inherited (k : string) : bool :=
  existsb (String.eqb k) object_prototype_keys.

(** Array indices are the canonical decimal strings of 0 .. 2^32 - 2. *)
Definition is_array_index (k : string) : bool :=
  match k with
  | EmptyString => false
  | String "0" EmptyString => true
  | String "0" _ => false
  | _ => all_chars is_digit k && (digits_value_from 0 k <=? 4294967294)
  end.

(** [Object.keys(groups)]: array indices in ascending numeric order,
    then the other keys in order of creation. *)
Definition Object_keys (g : Groups) : list string :=
  let ks := own_keys g in
  sort_by (fun a b => digits_value_from 0 a <? digits_value_from 0 b)
          (filter is_array_index ks)
  ++ filter (fun k => negb (is_array_index k)) ks.

(* ================================================================== *)
(** * Results of fallible code                                         *)
(* ================================================================== *)

(** A JavaScript error value, reduced to its message. *)
Definition Error : Type := string.

Inductive outcome (A : Type) : Type :=
  | Ok (a : A)
  | Thrown (e : Error).
Arguments Ok {A} a.
Arguments Thrown {A} e.

Definition obind {A B} (m : outcome A) (k : A -> outcome B) : outcome B :=
  match m with
  | Ok a => k a
  | Thrown e => Thrown e
  end.

(** [xs.forEach(x => ..)] over an accumulator, stopping at a throw. *)
Fixpoint forEach {A S} (f : S -> A -> outcome S) (xs : list A) (s : S) : outcome S :=
  match xs with
  | [] => Ok s
  | x :: xs' => obind (f s x) (forEach f xs')
  end.

(* ================================================================== *)
(** * Grouping frames by base name                                     *)
(* ================================================================== *)

Section Grouping.
(** [path.join] only shapes the strings handed to the external tools. *)
Variable path_join : string -> string -> string.

(** The directory scanned: [texturesDir] in gifcreator.js,
    [transparentDir] in transparent-gif-creator.js. *)
Variable dir : string.

(** [if (!groups[baseName]) groups[baseName] = [];
     groups[baseName].push(fr);]
    The read [groups[baseName]] sees inherited properties as well. *)
Definition push_frame (groups : Groups) (baseName : string) (fr : Frame)
  : outcome Groups :=
  match own baseName groups with
  | Some arr => Ok (set_own baseName (arr ++ [fr]) groups)
  | None =>
      if inherited baseName
      then Thrown "TypeError: groups[baseName].push is not a function"
      else Ok (set_own baseName [fr] groups)
  end.

(** The callback of [files.forEach]. *)
Definition visit_file (groups : Groups) (f : string) : outcome Groups :=
  if String.eqb (extname f) ".png" then
    match regex_match f with
    | Some (baseName, digits) =>
        let frameNumber := parseInt digits in
        push_frame groups baseName (mkFrame f frameNumber (path_join dir f))
    | None => Ok groups
    end
  else Ok groups.

(** The callback of [Object.keys(groups).forEach]. *)
Definition sort_and_filter (groups : Groups) (baseName : string) : outcome Groups :=
  match own baseName groups with
  | None => Thrown "TypeError: Cannot read properties of undefined (reading 'sort')"
  | Some arr =>
      let sorted := js_sort by_frame arr in
      let groups' := set_own baseName sorted groups in
      if (List.length sorted <? 2)%nat
      then Ok (delete baseName groups')
      else Ok groups'
  end.

(** [groupImagesByBaseName] / [groupTransparentImagesByBaseName], after
    [fs.readdirSync] has delivered [files]. *)
Definition group_files (files : list string) : outcome Groups :=
  obind (forEach visit_file files [])
        (fun groups => forEach sort_and_filter (Object_keys groups) groups).

End Grouping.

(* ================================================================== *)
(** * The process and the world around it                              *)
(* ================================================================== *)

(** Array.prototype.join *)
Fixpoint join (sep : string) (l : list string) : string :=
  match l with
  | [] => ""
  | [x] => x
  | x :: l' => x ++ sep ++ join sep l'
  end.

(** Truthiness of a value that is a string or [undefined]. *)
Definition truthy (v : option string) : bool :=
  match v with
  | Some s => nonempty s
  | None => false
  end.

(** [`${v}`] for such a value. *)
Definition show_opt (v : option string) : string :=
  match v with Some s => s | None => "undefined" end.

Definition show_bool (b : bool) : string := if b then "true" else "false".

(** The two backends a driver can call for a group. *)
Inductive Backend : Type := ImageMagick | FFmpeg.

(** What a run does, in order.  [EvCall] marks the entry into a backend
    function for a group and [EvSettled] the settling of the promise it
    returned ([true] for [resolve], [false] for a rejection); the others
    are calls into Node's library with their answers. *)
Inductive Event : Type :=
  | EvExec (command : string) (error : option Error)
  | EvExistsSync (p : string) (answer : bool)
  | EvMkdirSync (p : string) (error : option Error)
  | EvReaddirSync (p : string) (answer : outcome (list string))
  | EvWriteFileSync (p content : string) (error : option Error)
  | EvUnlinkSync (p : string) (error : option Error)
  | EvLog (msg : string)
  | EvError (msg : string)
  | EvCall (backend : Backend) (baseName : string)
  | EvSettled (backend : Backend) (baseName : string) (fulfilled : bool)
  | EvExit (code : Z).

(** The machine the script runs on.  [World] is whatever state the file
    system and the installed tools have; every call may change it. *)
Record Host (World : Type) : Type := mkHost {
  host_exec : string -> World -> option Error * World;
  host_existsSync : string -> World -> bool * World;
  host_mkdirSync : string -> World -> option Error * World;
  host_readdirSync : string -> World -> outcome (list string) * World;
  host_writeFileSync : string -> string -> World -> option Error * World;
  host_unlinkSync : string -> World -> option Error * World;
(** [process.env.MAGICK_PATH] *)
  env_MAGICK_PATH : option string;
  path_join : string -> string -> string;
  path_resolve : string -> string
}.
Arguments host_exec {World} h.
Arguments host_existsSync {World} h.
Arguments host_mkdirSync {World} h.
Arguments host_readdirSync {World} h.
Arguments host_writeFileSync {World} h.
Arguments host_unlinkSync {World} h.
Arguments env_MAGICK_PATH {World} h.
Arguments path_join {World} h.
Arguments path_resolve {World} h.

(** The state of the process: the world, and [global.imageMagickPath]. *)
Record Proc (World : Type) : Type := mkProc {
  world : World;
  imageMagickPath : option string
}.
Arguments mkProc {World}.
Arguments world {World} p.
Arguments imageMagickPath {World} p.

(** How a piece of code ends: with a value, with an exception (a rejected
    promise, for a promise-returning function), or in [process.exit]. *)
Inductive result (A : Type) : Type :=
  | Value (a : A)
  | Throw (e : Error)
  | Exit (code : Z).
Arguments Value {A} a.
Arguments Throw {A} e.
Arguments Exit {A} code.

Record Run (World A : Type) : Type := mkRun {
  events : list Event;
  final : Proc World;
  res : result A
}.
Arguments mkRun {World A}.
Arguments events {World A} r.
Arguments final {World A} r.
Arguments res {World A} r.

Definition M (World A : Type) : Type := Proc World -> Run World A.

Section Monad.
Context {World : Type}.

Definition ret {A} (a : A) : M World A :=
  fun s => mkRun [] s (Value a).

Definition bind {A B} (m : M World A) (k : A -> M World B) : M World B :=
  fun s =>
    let r := m s in
    match res r with
    | Value a =>
        let r' := k a (final r) in
        mkRun (events r ++ events r') (final r') (res r')
    | Throw e => mkRun (events r) (final r) (Throw e)
    | Exit c => mkRun (events r) (final r) (Exit c)
    end.

Definition emit (ev : Event) : M World unit :=
  fun s => mkRun [ev] s (Value tt).

Definition throw {A} (e : Error) : M World A :=
  fun s => mkRun [] s (Throw e).

(** [try { m } catch (e) { handler e }]; [process.exit] is not caught. *)
Definition try_catch {A} (m : M World A) (handler : Error -> M World A) : M World A :=
  fun s =>
    let r := m s in
    match res r with
    | Throw e =>
        let r' := handler e (final r) in
        mkRun (events r ++ events r') (final r') (res r')
    | _ => r
    end.

Definition process_exit {A} (code : Z) : M World A :=
  fun s => mkRun [EvExit code] s (Exit code).

Definition console_log (msg : string) : M World unit := emit (EvLog msg).
Definition console_error (msg : string) : M World unit := emit (EvError msg).

(** [new Promise((resolve, reject) => { executor })] as the body of a
    backend function: an exception in the executor rejects the promise
    just as a call of [reject] does. *)
Definition promise {A} (backend : Backend) (baseName : string) (executor : M World A)
  : M World A :=
  bind (emit (EvCall backend baseName)) (fun _ =>
  try_catch
    (bind executor (fun v =>
     bind (emit (EvSettled backend baseName true)) (fun _ => ret v)))
    (fun e => bind (emit (EvSettled backend baseName false)) (fun _ => throw e))).

Definition get_imageMagickPath : M World (option string) :=
  fun s => mkRun [] s (Value (imageMagickPath s)).

Definition set_imageMagickPath (v : string) : M World unit :=
  fun s => mkRun [] (mkProc (world s) (Some v)) (Value tt).

Definition lift_outcome {A} (o : outcome A) : M World A :=
  match o with
  | Ok a => ret a
  | Thrown e => throw e
  end.

Variable host : Host World.

(** [exec(command, callback)], up to the callback's [error] argument. *)
Definition exec (command : string) : M World (option Error) :=
  fun s =>
    let (err, w) := host_exec host command (world s) in
    mkRun [EvExec command err] (mkProc w (imageMagickPath s)) (Value err).

Definition existsSync (p : string) : M World bool :=
  fun s =>
    let (b, w) := host_existsSync host p (world s) in
    mkRun [EvExistsSync p b] (mkProc w (imageMagickPath s)) (Value b).

Definition or_throw (err : option Error) : result unit :=
  match err with
  | None => Value tt
  | Some e => Throw e
  end.

(** [fs.mkdirSync(p, { recursive: true })] *)
Definition mkdirSync (p : string) : M World unit :=
  fun s =>
    let (err, w) := host_mkdirSync host p (world s) in
    mkRun [EvMkdirSync p err] (mkProc w (imageMagickPath s)) (or_throw err).

Definition readdirSync (p : string) : M World (list string) :=
  fun s =>
    let (o, w) := host_readdirSync host p (world s) in
    mkRun [EvReaddirSync p o] (mkProc w (imageMagickPath s))
          (match o with Ok l => Value l | Thrown e => Throw e end).

Definition writeFileSync (p content : string) : M World unit :=
  fun s =>
    let (err, w) := host_writeFileSync host p content (world s) in
    mkRun [EvWriteFileSync p content err] (mkProc w (imageMagickPath s)) (or_throw err).

Definition unlinkSync (p : string) : M World unit :=
  fun s =>
    let (err, w) := host_unlinkSync host p (world s) in
    mkRun [EvUnlinkSync p err] (mkProc w (imageMagickPath s)) (or_throw err).

End Monad.

Declare Scope proc_scope.
Delimit Scope proc_scope with proc.
Notation "x <- m ;; k" := (bind m (fun x => k))
  (at level 100, m at next level, right associativity) : proc_scope.
Notation "m ;; k" := (bind m (fun _ => k))
  (at level 100, right associativity) : proc_scope.
Open Scope proc_scope.

(** The exit status of a script whose top-level code is [script]: the
    argument of [process.exit]; 1 for an exception nobody caught; 0 when
    the code runs to its end. *)
Definition exit_code {World A} (r : Run World A) : Z :=
  match res r with
  | Value _ => 0
  | Throw _ => 1
  | Exit c => c
  end.

(** The well-known installation paths, in the order they are tried. *)
Definition commonPaths : list string :=
  [ "C:\Program Files\ImageMagick-7.1.2-Q16-HDRI\magick.exe";
    "C:\Program Files\ImageMagick-7.1.1-Q16-HDRI\magick.exe";
    "C:\Program Files\ImageMagick-7.1.0-Q16-HDRI\magick.exe";
    "C:\Program Files\ImageMagick\magick.exe";
    "C:\ImageMagick\magick.exe" ].

(** [frames] of [groups[baseName]] for a [baseName] taken from
    [Object.keys(groups)], which is always an own property. *)
Definition frames_of (groups : Groups) (baseName : string) : list Frame :=
  match own baseName groups with
  | Some arr => arr
  | None => []
  end.

(** ["${s}"] inside a command line. *)
Definition quoted (s : string) : string := quote ++ s ++ quote.

(** [for (const x of xs) { acc = body x acc }] *)
Fixpoint for_of {World A S} (xs : list A) (body : A -> S -> M World S) (acc : S)
  : M World S :=
  match xs with
  | [] => ret acc
  | x :: xs' => acc' <- body x acc ;; for_of xs' body acc'
  end.

(** The counters [successCount] and [failCount] of a driver loop. *)
Record Tally : Type := mkTally { successCount : nat; failCount : nat }.

(** [${failCount > 0 ? `, ${failCount} failed` : ''}] *)
Definition failed_suffix (failCount : nat) : string :=
  if (0 <? failCount)%nat then ", " ++ show_nat failCount ++ " failed" else "".

(* ================================================================== *)
(** * transparency-maker.js                                            *)
(* ================================================================== *)

Module TransparencyMaker.

Definition texturesDir : string := "./converted/textures".
Definition outputDir : string := "./converted/transparent".

Section Script.
Context {World : Type} (host : Host World).

(** The [for] loop over [commonPaths]; [Some] when [resolve] was called
    (and [found] set), [None] when the loop ran to its end. *)
Fixpoint search_commonPaths (paths : list string) : M World (option string) :=
  match paths with
  | [] => ret None
  | imageMagickPath :: rest =>
      found <- existsSync host imageMagickPath ;;
      if found then
        console_log ("ImageMagick found at: " ++ imageMagickPath) ;;
        set_imageMagickPath (quoted imageMagickPath) ;;
        ret (Some "imagemagick-path")
      else search_commonPaths rest
  end.

(** The value the promise of [checkDependencies] resolves with: a tool
    name, or [None] for [null]. *)
Definition checkDependencies : M World (option string) :=
  error <- exec host "magick -version" ;;
  match error with
  | None =>
      console_log "ImageMagick detected" ;;
      ret (Some "imagemagick")
  | Some _ =>
      error <- exec host "convert -version" ;;
      match error with
      | None =>
          console_log "ImageMagick detected (convert)" ;;
          ret (Some "imagemagick-convert")
      | Some _ =>
          let magickPath := env_MAGICK_PATH host in
          viaEnv <-
            (if truthy magickPath then
               ok <- existsSync host (show_opt magickPath) ;;
               if ok then
                 console_log ("ImageMagick found via MAGICK_PATH: " ++ show_opt magickPath) ;;
                 set_imageMagickPath (quoted (show_opt magickPath)) ;;
                 ret (Some "imagemagick-path")
               else ret None
             else ret None) ;;
          match viaEnv with
          | Some tool => ret (Some tool)
          | None =>
              found <- search_commonPaths commonPaths ;;
              match found with
              | Some tool => ret (Some tool)
              | None =>
                  error <- exec host "ffmpeg -version" ;;
                  match error with
                  | None =>
                      console_log "FFmpeg detected" ;;
                      ret (Some "ffmpeg")
                  | Some _ =>
                      console_log "No image processing tools found" ;;
                      ret None
                  end
              end
          end
      end
  end.

Definition makeTransparentWithImageMagick (inputFile outputFile : string)
  : M World string :=
  promise ImageMagick inputFile (
  let inputPath := path_join host texturesDir inputFile in
  let outputPath := path_join host outputDir outputFile in
  global_imageMagickPath <- get_imageMagickPath ;;
  let command :=
    if truthy global_imageMagickPath
    then show_opt global_imageMagickPath ++ " " ++ quoted inputPath
         ++ " -fuzz 5% -transparent black " ++ quoted outputPath
    else "magick " ++ quoted inputPath
         ++ " -fuzz 5% -transparent black " ++ quoted outputPath in
  error <- exec host command ;;
  match error with
  | Some e =>
      console_error ("Error processing " ++ inputFile ++ ": " ++ e) ;;
      throw e
  | None =>
      console_log ("Processed: " ++ inputFile ++ " → " ++ outputFile) ;;
      ret outputPath
  end).

Definition getAllPngFiles : M World (list string) :=
  files <- readdirSync host texturesDir ;;
  ret (filter (fun file => String.eqb (extname file) ".png") files).

Definition makeTransparentWithFFmpeg (inputFile outputFile : string)
  : M World string :=
  promise FFmpeg inputFile (
  let inputPath := path_join host texturesDir inputFile in
  let outputPath := path_join host outputDir outputFile in
  let command :=
    "ffmpeg -i " ++ quoted inputPath
    ++ " -vf " ++ quoted "colorkey=0x000000:0.1:0.1"
    ++ " -y " ++ quoted outputPath in
  error <- exec host command ;;
  match error with
  | Some e =>
      console_error ("Error processing " ++ inputFile ++ ": " ++ e) ;;
      throw e
  | None =>
      console_log ("Processed: " ++ inputFile ++ " → " ++ outputFile) ;;
      ret outputPath
  end).

(** The body of the [for] loop of [processImages]. *)
Definition processImages_body (file : string) (t : Tally) : M World Tally :=
  try_catch
    (makeTransparentWithImageMagick file file ;;
     ret (mkTally (S (successCount t)) (failCount t)))
    (fun error =>
       try_catch
         (makeTransparentWithFFmpeg file file ;;
          ret (mkTally (S (successCount t)) (failCount t)))
         (fun ffmpegError =>
            console_error ("✗ Failed to process " ++ file) ;;
            ret (mkTally (successCount t) (S (failCount t))))).

Definition processImages_loop (files : list string) : M World Tally :=
  for_of files processImages_body (mkTally 0 0).

Definition processImages : M World unit :=
  files <- getAllPngFiles ;;
  console_log (LF ++ "Processing " ++ show_nat (List.length files)
               ++ " images for transparency...") ;;
  t <- processImages_loop files ;;
  console_log (LF ++ "Done! Processed " ++ show_nat (successCount t) ++ " images"
               ++ failed_suffix (failCount t)) ;;
  console_log "📁 Check the ./converted/transparent/ directory for your transparent textures.".

Definition main : M World unit :=
  console_log "Descent Texture Transparency Creator" ;;
  console_log "=======================================" ;;
  dirExists <- existsSync host texturesDir ;;
  (if negb dirExists then
     console_error ("Textures directory not found: " ++ texturesDir) ;;
     console_log "Please run the extractor first to generate textures." ;;
     process_exit 1
   else ret tt) ;;
  tool <- checkDependencies ;;
  (if negb (truthy tool) then
     console_error "No image processing tools found." ;;
     console_log "Please install ImageMagick or FFmpeg first." ;;
     console_log "You can use the gif creator script to install ImageMagick automatically." ;;
     process_exit 1
   else ret tt) ;;
  console_log "Scanning for PNG files..." ;;
  files <- getAllPngFiles ;;
  if (List.length files =? 0)%nat then
    console_log "No PNG files found."
  else
    console_log ("Found " ++ show_nat (List.length files) ++ " texture files to process") ;;
    processImages.

(** The top-level code of the script, run as [node transparency-maker.js]. *)
Definition script : M World unit :=
  outputExists <- existsSync host outputDir ;;
  (if negb outputExists then mkdirSync host outputDir else ret tt) ;;
  try_catch main (fun e => console_error e).

End Script.
End TransparencyMaker.

(* ================================================================== *)
(** * gifcreator.js                                                    *)
(* ================================================================== *)

Module GifCreator.

Definition texturesDir : string := "./converted/textures".
Definition outputDir : string := "./converted/gifs".

Section Script.
Context {World : Type} (host : Host World).

Definition groupImagesByBaseName : M World Groups :=
  files <- readdirSync host texturesDir ;;
  lift_outcome (group_files (path_join host) texturesDir files).

Definition createGifWithImageMagick (baseName : string) (frames : list Frame)
  : M World string :=
  promise ImageMagick baseName (
  let inputFiles := join " " (map (fun fr => quoted (path fr)) frames) in
  let outputPath := path_join host outputDir (baseName ++ ".gif") in
  global_imageMagickPath <- get_imageMagickPath ;;
  let command :=
    if truthy global_imageMagickPath
    then show_opt global_imageMagickPath
         ++ " -delay 10 -loop 0 -dispose previous " ++ inputFiles
         ++ " -coalesce -layers optimize " ++ quoted outputPath
    else "magick -delay 10 -loop 0 -dispose previous " ++ inputFiles
         ++ " -coalesce -layers optimize " ++ quoted outputPath in
  error <- exec host command ;;
  match error with
  | Some e =>
      console_error ("Error creating GIF for " ++ baseName ++ ": " ++ e) ;;
      throw e
  | None =>
      console_log ("✓ Created: " ++ baseName ++ ".gif ("
                   ++ show_nat (List.length frames) ++ " frames)") ;;
      ret outputPath
  end).

Definition createGifWithFFmpeg (baseName : string) (frames : list Frame)
  : M World string :=
  promise FFmpeg baseName (
  let listFile := path_join host outputDir (baseName ++ "_list.txt") in
  let listContent :=
    join LF (map (fun fr => "file '" ++ path_resolve host (path fr) ++ "'") frames) in
  writeFileSync host listFile listContent ;;
  let outputPath := path_join host outputDir (baseName ++ ".gif") in
  let paletteFile := path_join host outputDir (baseName ++ "_palette.png") in
  let command1 :=
    "ffmpeg -f concat -safe 0 -i " ++ quoted listFile
    ++ " -vf " ++ quoted "fps=10,scale=320:-1:flags=lanczos,palettegen"
    ++ " -y " ++ quoted paletteFile in
  let command2 :=
    "ffmpeg -f concat -safe 0 -i " ++ quoted listFile
    ++ " -i " ++ quoted paletteFile
    ++ " -lavfi " ++ quoted "fps=10,scale=320:-1:flags=lanczos[x];[x][1:v]paletteuse"
    ++ " -y " ++ quoted outputPath in
  error1 <- exec host command1 ;;
  match error1 with
  | Some e1 => throw e1
  | None =>
      error2 <- exec host command2 ;;
      try_catch (unlinkSync host listFile ;; unlinkSync host paletteFile)
                (fun _ => ret tt) ;;
      match error2 with
      | Some e2 =>
          console_error ("Error creating GIF for " ++ baseName ++ ": " ++ e2) ;;
          throw e2
      | None =>
          console_log ("✓ Created: " ++ baseName ++ ".gif ("
                       ++ show_nat (List.length frames) ++ " frames)") ;;
          ret outputPath
      end
  end).

(** The body of the [for] loop of [createGifs]. *)
Definition createGifs_body (groups : Groups) (baseName : string) (t : Tally)
  : M World Tally :=
  try_catch
    (createGifWithImageMagick baseName (frames_of groups baseName) ;;
     ret (mkTally (S (successCount t)) (failCount t)))
    (fun error =>
       try_catch
         (createGifWithFFmpeg baseName (frames_of groups baseName) ;;
          ret (mkTally (S (successCount t)) (failCount t)))
         (fun ffmpegError =>
            console_error ("✗ Failed to create GIF for " ++ baseName) ;;
            ret (mkTally (successCount t) (S (failCount t))))).

Definition createGifs_loop (groups : Groups) : M World Tally :=
  for_of (Object_keys groups) (createGifs_body groups) (mkTally 0 0).

Definition createGifs (groups : Groups) : M World unit :=
  let groupNames := Object_keys groups in
  console_log (LF ++ "Creating " ++ show_nat (List.length groupNames)
               ++ " animated GIFs...") ;;
  t <- createGifs_loop groups ;;
  console_log (LF ++ " Done! Created " ++ show_nat (successCount t) ++ " GIFs"
               ++ failed_suffix (failCount t)) ;;
  console_log "📁 Check the ./converted/gifs/ directory for your animated textures.".

Fixpoint search_commonPaths (paths : list string) : M World (option string) :=
  match paths with
  | [] => ret None
  | imageMagickPath :: rest =>
      console_log ("🔍 Checking: " ++ imageMagickPath) ;;
      found <- existsSync host imageMagickPath ;;
      if found then
        console_log ("✓ ImageMagick found at: " ++ imageMagickPath) ;;
        set_imageMagickPath (quoted imageMagickPath) ;;
        ret (Some "imagemagick-path")
      else search_commonPaths rest
  end.

Definition checkDependencies : M World (option string) :=
  error <- exec host "magick -version" ;;
  match error with
  | None =>
      console_log "ImageMagick detected" ;;
      ret (Some "imagemagick")
  | Some _ =>
      error <- exec host "convert -version" ;;
      match error with
      | None =>
          console_log "ImageMagick detected (convert)" ;;
          ret (Some "imagemagick-convert")
      | Some _ =>
          let magickPath := env_MAGICK_PATH host in
          console_log ("Checking MAGICK_PATH: " ++ show_opt magickPath) ;;
          viaEnv <-
            (if truthy magickPath then
               shown <- existsSync host (show_opt magickPath) ;;
               console_log (" MAGICK_PATH exists, checking if file exists: "
                            ++ show_bool shown) ;;
               ok <- existsSync host (show_opt magickPath) ;;
               if ok then
                 console_log ("ImageMagick found via MAGICK_PATH: " ++ show_opt magickPath) ;;
                 set_imageMagickPath (quoted (show_opt magickPath)) ;;
                 ret (Some "imagemagick-path")
               else
                 console_log ("MAGICK_PATH points to non-existent file: "
                              ++ show_opt magickPath) ;;
                 ret None
             else
               console_log "MAGICK_PATH environment variable not found" ;;
               ret None) ;;
          match viaEnv with
          | Some tool => ret (Some tool)
          | None =>
              console_log "🔍 Searching common installation paths..." ;;
              found <- search_commonPaths commonPaths ;;
              match found with
              | Some tool => ret (Some tool)
              | None =>
                  console_log "Trying FFmpeg..." ;;
                  error <- exec host "ffmpeg -version" ;;
                  match error with
                  | None =>
                      console_log "FFmpeg detected" ;;
                      ret (Some "ffmpeg")
                  | Some _ =>
                      console_log "No image processing tools found" ;;
                      ret None
                  end
              end
          end
      end
  end.

(** gifcreator.js calls [installImageMagick] without defining it: the
    reference itself throws, inside the [try] of [main]. *)
Definition installImageMagick : M World unit :=
  throw "ReferenceError: installImageMagick is not defined".

Definition main : M World unit :=
  console_log "Descent Texture GIF Creator" ;;
  console_log "===============================" ;;
  dirExists <- existsSync host texturesDir ;;
  (if negb dirExists then
     console_error ("Textures directory not found: " ++ texturesDir) ;;
     console_log "Please run the extractor first to generate textures." ;;
     process_exit 1
   else ret tt) ;;
  console_log "📂 Scanning for texture sequences..." ;;
  groups <- groupImagesByBaseName ;;
  let groupNames := Object_keys groups in
  if (List.length groupNames =? 0)%nat then
    console_log "No image sequences found."
  else
    console_log ("Found " ++ show_nat (List.length groupNames) ++ " texture sequences:") ;;
    for_of (firstn 10 groupNames)
           (fun name (_ : unit) =>
              console_log ("   • " ++ name ++ ": "
                           ++ show_nat (List.length (frames_of groups name)) ++ " frames"))
           tt ;;
    (if (10 <? List.length groupNames)%nat then
       console_log ("   ... and " ++ show_nat (List.length groupNames - 10) ++ " more")
     else ret tt) ;;
    tool <- checkDependencies ;;
    (if negb (truthy tool) then
       console_log "No image processing tools found. Attempting to install ImageMagick..." ;;
       try_catch
         (installImageMagick ;;
          console_log "ImageMagick installed successfully!" ;;
          console_log "Please restart your terminal/PowerShell and run the script again." ;;
          console_log "   Or run: refreshenv (if using chocolatey)" ;;
          process_exit 0)
         (fun error =>
            console_error "Failed to install ImageMagick automatically." ;;
            console_log (LF ++ "Please install manually:") ;;
            console_log "   • ImageMagick: https://imagemagick.org/script/download.php" ;;
            console_log "   • FFmpeg: https://ffmpeg.org/download.html" ;;
            console_log "   • Or use: winget install ImageMagick.ImageMagick" ;;
            process_exit 1)
     else ret tt) ;;
    createGifs groups.

(** The top-level code of the script, run as [node gifcreator.js]. *)
Definition script : M World unit :=
  outputExists <- existsSync host outputDir ;;
  (if negb outputExists then mkdirSync host outputDir else ret tt) ;;
  try_catch main (fun e => console_error e).

End Script.
End GifCreator.

(* ================================================================== *)
(** * transparent-gif-creator.js                                       *)
(* ================================================================== *)

Module TransparentGifCreator.

Definition transparentDir : string := "./converted/transparent".
Definition outputDir : string := "./converted/transparent-gifs".

Section Script.
Context {World : Type} (host : Host World).

Definition groupTransparentImagesByBaseName : M World Groups :=
  files <- readdirSync host transparentDir ;;
  lift_outcome (group_files (path_join host) transparentDir files).

Definition createTransparentGifWithImageMagick (baseName : string) (frames : list Frame)
  : M World string :=
  promise ImageMagick baseName (
  let inputFiles := join " " (map (fun fr => quoted (path fr)) frames) in
  let outputPath := path_join host outputDir (baseName ++ ".gif") in
  global_imageMagickPath <- get_imageMagickPath ;;
  let command :=
    if truthy global_imageMagickPath
    then show_opt global_imageMagickPath
         ++ " -delay 20 -loop 0 -dispose previous " ++ inputFiles
         ++ " " ++ quoted outputPath
    else "magick -delay 20 -loop 0 -dispose previous " ++ inputFiles
         ++ " " ++ quoted outputPath in
  error <- exec host command ;;
  match error with
  | Some e =>
      console_error ("Error creating transparent GIF for " ++ baseName ++ ": " ++ e) ;;
      throw e
  | None =>
      console_log ("Created: " ++ baseName ++ ".gif ("
                   ++ show_nat (List.length frames) ++ " frames with transparency)") ;;
      ret outputPath
  end).

Definition createTransparentGifWithFFmpeg (baseName : string) (frames : list Frame)
  : M World string :=
  promise FFmpeg baseName (
  let listFile := path_join host outputDir (baseName ++ "_list.txt") in
  let listContent :=
    join LF (map (fun fr => "file '" ++ path_resolve host (path fr) ++ "'") frames) in
  writeFileSync host listFile listContent ;;
  let outputPath := path_join host outputDir (baseName ++ ".gif") in
  let paletteCmd :=
    "ffmpeg -f concat -safe 0 -i " ++ quoted listFile
    ++ " -vf " ++ quoted "fps=5,scale=320:-1:flags=lanczos,palettegen=reserve_transparent=on:transparency_color=ffffff"
    ++ " -y " ++ quoted (listFile ++ ".palette.png") in
  let gifCmd :=
    "ffmpeg -f concat -safe 0 -i " ++ quoted listFile
    ++ " -i " ++ quoted (listFile ++ ".palette.png")
    ++ " -lavfi " ++ quoted "fps=5,scale=320:-1:flags=lanczos[x];[x][1:v]paletteuse=alpha_threshold=128"
    ++ " -y " ++ quoted outputPath in
  error <- exec host (paletteCmd ++ " && " ++ gifCmd) ;;
  try_catch (unlinkSync host listFile ;; unlinkSync host (listFile ++ ".palette.png"))
            (fun _ => ret tt) ;;
  match error with
  | Some e =>
      console_error ("Error creating transparent GIF for " ++ baseName ++ ": " ++ e) ;;
      throw e
  | None =>
      console_log ("Created: " ++ baseName ++ ".gif ("
                   ++ show_nat (List.length frames) ++ " frames with transparency)") ;;
      ret outputPath
  end).

(** The body of the [for] loop of [createTransparentGifs]. *)
Definition createTransparentGifs_body (groups : Groups) (baseName : string) (t : Tally)
  : M World Tally :=
  try_catch
    (createTransparentGifWithImageMagick baseName (frames_of groups baseName) ;;
     ret (mkTally (S (successCount t)) (failCount t)))
    (fun error =>
       console_log ("ImageMagick failed for " ++ baseName ++ ", trying FFmpeg...") ;;
       try_catch
         (createTransparentGifWithFFmpeg baseName (frames_of groups baseName) ;;
          ret (mkTally (S (successCount t)) (failCount t)))
         (fun ffmpegError =>
            console_error ("Both ImageMagick and FFmpeg failed for " ++ baseName) ;;
            ret (mkTally (successCount t) (S (failCount t))))).

Definition createTransparentGifs_loop (groups : Groups) : M World Tally :=
  for_of (Object_keys groups) (createTransparentGifs_body groups) (mkTally 0 0).

(** What [createTransparentGifs] does once the groups are built. *)
Definition createTransparentGifs_from (groups : Groups) : M World unit :=
  let groupNames := Object_keys groups in
  if (List.length groupNames =? 0)%nat then
    console_log "No transparent image sequences found." ;;
    console_log "Make sure to run transparency-maker.js first to create transparent textures."
  else
    console_log ("📊 Found " ++ show_nat (List.length groupNames)
                 ++ " transparent texture sequences:") ;;
    for_of groupNames
           (fun name (_ : unit) =>
              console_log ("  " ++ name ++ ": "
                           ++ show_nat (List.length (frames_of groups name)) ++ " frames"))
           tt ;;
    console_log (LF ++ "Creating transparent animated GIFs...") ;;
    t <- createTransparentGifs_loop groups ;;
    console_log (LF ++ "Done! Created " ++ show_nat (successCount t)
                 ++ " transparent animated GIFs" ++ failed_suffix (failCount t)) ;;
    console_log "📁 Check the ./converted/transparent-gifs/ directory for your transparent animated textures.".

Definition createTransparentGifs : M World unit :=
  console_log "Scanning for transparent texture sequences..." ;;
  groups <- groupTransparentImagesByBaseName ;;
  createTransparentGifs_from groups.

(** "reuse from transparency-maker": the same text in both files. *)
Definition checkDependencies : M World (option string) :=
  TransparencyMaker.checkDependencies host.

Definition main : M World unit :=
  console_log "Descent Transparent GIF Creator" ;;
  console_log "==================================" ;;
  dirExists <- existsSync host transparentDir ;;
  (if negb dirExists then
     console_error ("Transparent textures directory not found: " ++ transparentDir) ;;
     console_log "Please run transparency-maker.js first to create transparent textures." ;;
     process_exit 1
   else ret tt) ;;
  tool <- checkDependencies ;;
  (if negb (truthy tool) then
     console_error "No image processing tools found." ;;
     console_log "Please install ImageMagick or FFmpeg first." ;;
     console_log "ImageMagick: https://imagemagick.org/script/download.php" ;;
     console_log "FFmpeg: https://ffmpeg.org/download.html" ;;
     process_exit 1
   else ret tt) ;;
  createTransparentGifs.

(** The top-level code of the script, run as
    [node transparent-gif-creator.js]. *)
Definition script : M World unit :=
  outputExists <- existsSync host outputDir ;;
  (if negb outputExists then mkdirSync host outputDir else ret tt) ;;
  try_catch main (fun e => console_error e).

End Script.
End TransparentGifCreator.

(** A process starts with [global.imageMagickPath] undefined. *)
Definition start {World} (w : World) : Proc World := mkProc w None.

(* ================================================================== *)
(** * A concrete machine for examples                                  *)
(* ================================================================== *)

(** A small world: the paths that exist, the listing of every directory
    that can be read, and the commands that succeed. *)
Record Disk : Type := mkDisk {
  present : list string;
  listing : list string;
  working : list string
}.

Definition mem_string (x : string) (l : list string) : bool :=
  existsb (String.eqb x) l.

(** Commands succeed when their first word is in [working]; compound
    words are not needed for the examples. *)
Fixpoint first_word (s : string) : string :=
  match s with
  | EmptyString => EmptyString
  | String c r => if Ascii.eqb c " " then EmptyString else String c (first_word r)
  end.

Definition simple_host (magickPath : option string) : Host Disk :=
  mkHost Disk
    (fun command d =>
       (if mem_string (first_word command) (working d) then None
        else Some ("Command failed: " ++ command), d))
    (fun p d => (mem_string p (present d), d))
    (fun p d => (None, mkDisk (p :: present d) (listing d) (working d)))
    (fun p d =>
       (if mem_string p (present d) then Ok (listing d)
        else Thrown ("ENOENT: no such file or directory, scandir '" ++ p ++ "'"), d))
    (fun p _ d => (None, mkDisk (p :: present d) (listing d) (working d)))
    (fun p d =>
       if mem_string p (present d)
       then (None, mkDisk (filter (fun x => negb (String.eqb x p)) (present d))
                          (listing d) (working d))
       else (Some ("ENOENT: no such file or directory, unlink '" ++ p ++ "'"), d))
    magickPath
    (fun a b => a ++ "/" ++ b)
    (fun p => "/work/" ++ p).

(* ================================================================== *)
(** * Vocabulary of the statements                                     *)
(* ================================================================== *)

(** What [visit_file] makes of one file name: the base name it is filed
    under and the frame it adds, or [None] when the file is skipped. *)
Definition accept (path_join : string -> string -> string) (dir f : string)
  : option (string * Frame) :=
  if String.eqb (extname f) ".png" then
    match regex_match f with
    | Some (baseName, digits) =>
        Some (baseName, mkFrame f (parseInt digits) (path_join dir f))
    | None => None
    end
  else None.

(** The frames a listing holds for a base name, in listing order. *)
Definition members (path_join : string -> string -> string) (dir baseName : string)
  (files : list string) : list Frame :=
  flat_map (fun f =>
              match accept path_join dir f with
              | Some (b, fr) => if String.eqb b baseName then [fr] else []
              | None => []
              end) files.

(** Frames read by [parseInt] from a digit run are never NaN. *)
Definition frame_ok (fr : Frame) : Prop := is_NaN (frame fr) = false.

Definition frame_le (a b : Frame) : Prop := num_leb (frame a) (frame b) = true.
Definition frame_lt (a b : Frame) : Prop := num_ltb (frame a) (frame b) = true.

(** What the second loop leaves under a key it has visited. *)
Definition sorted_or_dropped (v : option (list Frame)) : option (list Frame) :=
  match v with
  | Some arr =>
      if (List.length arr <? 2)%nat then None else Some (js_sort by_frame arr)
  | None => None
  end.

(** No character of [s] is a line terminator (LF, CR, U+2028 or
    U+2029): at no place in [s] does one start. *)
Fixpoint one_line (s : string) : bool :=
  match s with
  | EmptyString => true
  | String c r => negb (line_terminator_at (String c r)) && one_line r
  end.

(** The characters that are no part of a line terminator's encoding. *)
Definition plain (c : ascii) : bool :=
  negb (Ascii.eqb c "010" || Ascii.eqb c "013" || Ascii.eqb c "226"
        || Ascii.eqb c "128" || Ascii.eqb c "168" || Ascii.eqb c "169").

(** A string that does not continue a line terminator begun before it. *)
Definition plain_start (s : string) : bool :=
  match s with
  | EmptyString => true
  | String c _ => plain c
  end.

Definition no_underscore (s : string) : bool :=
  all_chars (fun c => negb (Ascii.eqb c "_")) s.

(** Events that are console output. *)
Definition is_console (ev : Event) : bool :=
  match ev with
  | EvLog _ | EvError _ => true
  | _ => false
  end.

(** A run as seen from outside the console. *)
Definition silent (evs : list Event) : list Event :=
  filter (fun ev => negb (is_console ev)) evs.

(** The backend calls of a run and how they settled. *)
Definition is_backend_event (ev : Event) : bool :=
  match ev with
  | EvCall _ _ | EvSettled _ _ _ => true
  | _ => false
  end.

Definition backend_events (evs : list Event) : list Event :=
  filter is_backend_event evs.

(** The three ways a driver can deal with one group. *)
Inductive Attempt : Type :=
  | PrimaryDone      (** the primary backend succeeded *)
  | FallbackDone     (** the primary failed, the fallback succeeded *)
  | BothFailed.      (** both failed: the group is counted as failed *)

Definition attempt_events (baseName : string) (a : Attempt) : list Event :=
  match a with
  | PrimaryDone =>
      [EvCall ImageMagick baseName; EvSettled ImageMagick baseName true]
  | FallbackDone =>
      [EvCall ImageMagick baseName; EvSettled ImageMagick baseName false;
       EvCall FFmpeg baseName; EvSettled FFmpeg baseName true]
  | BothFailed =>
      [EvCall ImageMagick baseName; EvSettled ImageMagick baseName false;
       EvCall FFmpeg baseName; EvSettled FFmpeg baseName false]
  end.

Definition is_failed (a : Attempt) : bool :=
  match a with BothFailed => true | _ => false end.

Definition tally_of (l : list Attempt) : Tally :=
  mkTally (List.length (filter (fun a => negb (is_failed a)) l))
          (List.length (filter is_failed l)).

Fixpoint driver_events (names : list string) (l : list Attempt) : list Event :=
  match names, l with
  | b :: names', a :: l' => attempt_events b a ++ driver_events names' l'
  | _, _ => []
  end.

Definition starts_with (prefix s : string) : bool :=
  String.eqb (substring 0 (String.length prefix) s) prefix.

Definition is_unlink (ev : Event) : bool :=
  match ev with EvUnlinkSync _ _ => true | _ => false end.

Definition is_mkdir (ev : Event) : bool :=
  match ev with EvMkdirSync _ _ => true | _ => false end.

(* ------------------------------------------------------------------ *)
(** ** The probe as the specification words it                         *)
(* ------------------------------------------------------------------ *)

(** One step of the probe: a version query of a command, or the check
    that an executable exists at a path. *)
Inductive ProbeStep : Type :=
  | VersionQuery (command tool : string)
  | PathCheck (p : string).

(** The sequential fallback probe in the words of the specification
    (section 4.3), to be compared with [checkDependencies], which is
    translated from the scripts.  The steps in order: the
    standard command, the legacy command, the path in the environment
    variable (when it is set), the well-known paths, the secondary
    tool. *)
Definition probe_steps (magickPath : option string) : list ProbeStep :=
  [ VersionQuery "magick -version" "imagemagick";
    VersionQuery "convert -version" "imagemagick-convert" ]
  ++ (if truthy magickPath then [PathCheck (show_opt magickPath)] else [])
  ++ map PathCheck commonPaths
  ++ [ VersionQuery "ffmpeg -version" "ffmpeg" ].

(** The walk in the words of the specification: try the steps in order
    and stop at the first success; a successful path check records the
    path in process-wide
    state; when every step fails the answer is "none available". *)
Fixpoint first_success {World} (host : Host World) (steps : list ProbeStep)
  : M World (option string) :=
  match steps with
  | [] => ret None
  | VersionQuery command tool :: rest =>
      error <- exec host command ;;
      match error with
      | None => ret (Some tool)
      | Some _ => first_success host rest
      end
  | PathCheck p :: rest =>
      ok <- existsSync host p ;;
      if ok then
        set_imageMagickPath (quoted p) ;;
        ret (Some "imagemagick-path")
      else first_success host rest
  end.

(** Two runs that differ in console output only. *)
Definition same_but_console {World A} (r1 r2 : Run World A) : Prop :=
  silent (events r1) = silent (events r2)
  /\ final r1 = final r2
  /\ res r1 = res r2.

(** The last character of a string. *)
Fixpoint last_char (s : string) : option ascii :=
  match s with
  | EmptyString => None
  | String c EmptyString => Some c
  | String _ r => last_char r
  end.

(** A listing for the examples: two frames of a texture called
    [constructor]. *)
Definition inherited_name_listing : list string :=
  ["constructor_0.png"; "constructor_1.png"].

(** A listing with one frame index written in two ways. *)
Definition leading_zero_listing : list string := ["a_1.png"; "a_01.png"].

(** A file name with a line feed in its base. *)
Definition two_line_name : string := "a" ++ LF ++ "_12_3.png".

(** U+2028 LINE SEPARATOR, encoded, and a file name with one in its
    base. *)
Definition LS : string := String "226" (String "128" (String "168" EmptyString)).
Definition line_separator_name : string := "a" ++ LS ++ "_12_3.png".

(** A run preceded by events that happened just before it. *)
Definition prepend {World A} (evs : list Event) (r : Run World A) : Run World A :=
  mkRun (evs ++ events r) (final r) (res r).

(** The state after a call into the world. *)
Definition with_world {World} (s : Proc World) (w : World) : Proc World :=
  mkProc w (imageMagickPath s).

(** The five answers the probe can resolve with. *)
Definition probe_answers : list (option string) :=
  [ Some "imagemagick"; Some "imagemagick-convert"; Some "imagemagick-path";
    Some "ffmpeg"; None ].

(** The command line of the primary backend in gifcreator.js, for the
    command name or path [tool]. *)
Definition gif_command (tool inputFiles outputPath : string) : string :=
  tool ++ " -delay 10 -loop 0 -dispose previous " ++ inputFiles
       ++ " -coalesce -layers optimize " ++ quoted outputPath.

(** The command line of the primary backend in
    transparent-gif-creator.js. *)
Definition transparent_gif_command (tool inputFiles outputPath : string) : string :=
  tool ++ " -delay 20 -loop 0 -dispose previous " ++ inputFiles
       ++ " " ++ quoted outputPath.

(** [inputFiles] of a primary backend call. *)
Definition input_files (frames : list Frame) : string :=
  join " " (map (fun fr => quoted (path fr)) frames).

(** The commands a run handed to [exec]. *)
Definition exec_commands (evs : list Event) : list string :=
  flat_map (fun ev => match ev with EvExec c _ => [c] | _ => [] end) evs.

(** No version query announces the tool name of a path check. *)
Definition plain_queries (steps : list ProbeStep) : Prop :=
  Forall (fun st => match st with
                    | VersionQuery _ tool => tool <> "imagemagick-path"
                    | PathCheck _ => True
                    end) steps.

(** The [if]/[else] on [global.imageMagickPath] that builds the command
    of the primary backend: gifcreator.js, then
    transparent-gif-creator.js. *)
Definition gif_primary_command (global : option string) (frames : list Frame)
  (outputPath : string) : string :=
  if truthy global
  then show_opt global
       ++ " -delay 10 -loop 0 -dispose previous "
       ++ join " " (map (fun fr => quoted (path fr)) frames)
       ++ " -coalesce -layers optimize " ++ quoted outputPath
  else "magick -delay 10 -loop 0 -dispose previous "
       ++ join " " (map (fun fr => quoted (path fr)) frames)
       ++ " -coalesce -layers optimize " ++ quoted outputPath.

Definition transparent_primary_command (global : option string) (frames : list Frame)
  (outputPath : string) : string :=
  if truthy global
  then show_opt global
       ++ " -delay 20 -loop 0 -dispose previous "
       ++ join " " (map (fun fr => quoted (path fr)) frames)
       ++ " " ++ quoted outputPath
  else "magick -delay 20 -loop 0 -dispose previous "
       ++ join " " (map (fun fr => quoted (path fr)) frames)
       ++ " " ++ quoted outputPath.

(** The same [if]/[else] in [makeTransparentWithImageMagick] of
    transparency-maker.js. *)
Definition transparency_primary_command (global : option string)
  (inputPath outputPath : string) : string :=
  if truthy global
  then show_opt global ++ " " ++ quoted inputPath
       ++ " -fuzz 5% -transparent black " ++ quoted outputPath
  else "magick " ++ quoted inputPath
       ++ " -fuzz 5% -transparent black " ++ quoted outputPath.

(** The best-effort removal of the two temporary files:
    [try { fs.unlinkSync(a); fs.unlinkSync(b); } catch (e) {}]. *)
Definition cleanup {World} (host : Host World) (a b : string) : M World unit :=
  try_catch (bind (unlinkSync host a) (fun _ => unlinkSync host b))
            (fun _ => ret tt).

(** The manifest written for the fallback backend. *)
Definition list_content {World} (host : Host World) (frames : list Frame) : string :=
  join LF (map (fun fr => "file '" ++ path_resolve host (path fr) ++ "'") frames).

(** [command1] and [command2] of [createGifWithFFmpeg]. *)
Definition gif_palette_command (listFile paletteFile : string) : string :=
  "ffmpeg -f concat -safe 0 -i " ++ quoted listFile
  ++ " -vf " ++ quoted "fps=10,scale=320:-1:flags=lanczos,palettegen"
  ++ " -y " ++ quoted paletteFile.

Definition gif_encode_command (listFile paletteFile outputPath : string) : string :=
  "ffmpeg -f concat -safe 0 -i " ++ quoted listFile
  ++ " -i " ++ quoted paletteFile
  ++ " -lavfi " ++ quoted "fps=10,scale=320:-1:flags=lanczos[x];[x][1:v]paletteuse"
  ++ " -y " ++ quoted outputPath.

(** [paletteCmd + ' && ' + gifCmd] of [createTransparentGifWithFFmpeg]. *)
Definition transparent_ffmpeg_command (listFile outputPath : string) : string :=
  ("ffmpeg -f concat -safe 0 -i " ++ quoted listFile
   ++ " -vf " ++ quoted "fps=5,scale=320:-1:flags=lanczos,palettegen=reserve_transparent=on:transparency_color=ffffff"
   ++ " -y " ++ quoted (listFile ++ ".palette.png"))
  ++ " && "
  ++ ("ffmpeg -f concat -safe 0 -i " ++ quoted listFile
      ++ " -i " ++ quoted (listFile ++ ".palette.png")
      ++ " -lavfi " ++ quoted "fps=5,scale=320:-1:flags=lanczos[x];[x][1:v]paletteuse=alpha_threshold=128"
      ++ " -y " ++ quoted outputPath).

(** The counters after one more group. *)
Definition bump (t : Tally) (a : Attempt) : Tally :=
  if is_failed a
  then mkTally (successCount t) (S (failCount t))
  else mkTally (S (successCount t)) (failCount t).

(** A command that names [magick] or [ffmpeg]. *)
Definition names_magick_or_ffmpeg (c : string) : Prop :=
  starts_with "magick " c = true \/ starts_with "ffmpeg " c = true.

(** What a driver needs to know about one backend call from state [s]:
    how its promise settled, that it left [global.imageMagickPath]
    alone, and which commands it ran. *)
Definition settles {World A} (backend : Backend) (b : string) (s : Proc World)
  (r : Run World A) : Prop :=
  (exists ok,
     backend_events (events r) = [EvCall backend b; EvSettled backend b ok]
     /\ if ok then exists v, res r = Value v else exists e, res r = Throw e)
  /\ imageMagickPath (final r) = imageMagickPath s
  /\ (imageMagickPath s = None ->
      Forall names_magick_or_ffmpeg (exec_commands (events r))).

(** What a driver needs to know about the handling of one group, or of
    a list of groups: the attempts made, the counters, the untouched
    global, and the commands run. *)
Definition handles {World} (names : list string) (atts : list Attempt)
  (t : Tally) (s : Proc World) (r : Run World Tally) : Prop :=
  res r = Value (fold_left bump atts t)
  /\ backend_events (events r) = driver_events names atts
  /\ imageMagickPath (final r) = imageMagickPath s
  /\ (imageMagickPath s = None ->
      Forall names_magick_or_ffmpeg (exec_commands (events r))).

(** The top-level check of every script:
    [if (!fs.existsSync(outputDir)) fs.mkdirSync(outputDir, { recursive: true })]. *)
Definition ensure_output_dir {World} (host : Host World) (outputDir : string)
  : M World unit :=
  bind (existsSync host outputDir)
       (fun outputExists =>
          if negb outputExists then mkdirSync host outputDir else ret tt).

(** Two frames of a texture [door], as grouping leaves them. *)
Definition door_frames : list Frame :=
  [ mkFrame "door_0.png" (Fin 0) "./converted/textures/door_0.png";
    mkFrame "door_1.png" (Fin 1) "./converted/textures/door_1.png" ].

(** A machine with both output directories and no working tool. *)
Definition no_tools_disk : Disk :=
  mkDisk [GifCreator.outputDir; TransparentGifCreator.outputDir] [] [].

(** A machine with nothing on it. *)
Definition empty_disk : Disk := mkDisk [] [] [].

(** A machine with an empty textures directory and no tool. *)
Definition empty_textures_disk : Disk := mkDisk [GifCreator.texturesDir] [] [].

(* ------------------------------------------------------------------ *)
(** ** Console lines of the two [main] functions                       *)
(* ------------------------------------------------------------------ *)

Module TransparentLines.
Import TransparentGifCreator.

Definition banner : list Event :=
  [ EvLog "Descent Transparent GIF Creator";
    EvLog "==================================" ].

(** The fatal end for a missing input directory. *)
Definition missing_input : list Event :=
  [ EvError ("Transparent textures directory not found: " ++ transparentDir);
    EvLog "Please run transparency-maker.js first to create transparent textures.";
    EvExit 1 ].

(** The fatal end for a probe that found nothing. *)
Definition no_tool : list Event :=
  [ EvError "No image processing tools found.";
    EvLog "Please install ImageMagick or FFmpeg first.";
    EvLog "ImageMagick: https://imagemagick.org/script/download.php";
    EvLog "FFmpeg: https://ffmpeg.org/download.html";
    EvExit 1 ].

Definition scanning : Event := EvLog "Scanning for transparent texture sequences...".

(** The informational end when no group was found. *)
Definition nothing_to_do : list Event :=
  [ EvLog "No transparent image sequences found.";
    EvLog "Make sure to run transparency-maker.js first to create transparent textures." ].

Definition found (groups : Groups) : list Event :=
  EvLog ("📊 Found " ++ show_nat (List.length (Object_keys groups))
         ++ " transparent texture sequences:")
  :: map (fun name =>
            EvLog ("  " ++ name ++ ": "
                   ++ show_nat (List.length (frames_of groups name)) ++ " frames"))
         (Object_keys groups)
  ++ [ EvLog (LF ++ "Creating transparent animated GIFs...") ].

(** The final success/failure tally. *)
Definition tally (t : Tally) : list Event :=
  [ EvLog (LF ++ "Done! Created " ++ show_nat (successCount t)
           ++ " transparent animated GIFs" ++ failed_suffix (failCount t));
    EvLog "📁 Check the ./converted/transparent-gifs/ directory for your transparent animated textures." ].

End TransparentLines.

Module GifLines.
Import GifCreator.

Definition banner : list Event :=
  [ EvLog "Descent Texture GIF Creator";
    EvLog "===============================" ].

Definition missing_input : list Event :=
  [ EvError ("Textures directory not found: " ++ texturesDir);
    EvLog "Please run the extractor first to generate textures.";
    EvExit 1 ].

Definition scanning : Event := EvLog "📂 Scanning for texture sequences...".

Definition nothing_to_do : list Event := [ EvLog "No image sequences found." ].

Definition found (groups : Groups) : list Event :=
  EvLog ("Found " ++ show_nat (List.length (Object_keys groups)) ++ " texture sequences:")
  :: map (fun name =>
            EvLog ("   • " ++ name ++ ": "
                   ++ show_nat (List.length (frames_of groups name)) ++ " frames"))
         (firstn 10 (Object_keys groups))
  ++ (if (10 <? List.length (Object_keys groups))%nat
      then [ EvLog ("   ... and "
                    ++ show_nat (List.length (Object_keys groups) - 10) ++ " more") ]
      else []).

(** The end of a run whose probe found nothing: the install attempt
    and its failure. *)
Definition no_tool : list Event :=
  [ EvLog "No image processing tools found. Attempting to install ImageMagick...";
    EvError "Failed to install ImageMagick automatically.";
    EvLog (LF ++ "Please install manually:");
    EvLog "   • ImageMagick: https://imagemagick.org/script/download.php";
    EvLog "   • FFmpeg: https://ffmpeg.org/download.html";
    EvLog "   • Or use: winget install ImageMagick.ImageMagick";
    EvExit 1 ].

Definition creating (groups : Groups) : Event :=
  EvLog (LF ++ "Creating " ++ show_nat (List.length (Object_keys groups))
         ++ " animated GIFs...").

Definition tally (t : Tally) : list Event :=
  [ EvLog (LF ++ " Done! Created " ++ show_nat (successCount t) ++ " GIFs"
           ++ failed_suffix (failCount t));
    EvLog "📁 Check the ./converted/gifs/ directory for your animated textures." ].

End GifLines.

(** A machine where only the legacy [convert] command answers. *)
Definition convert_only_disk : Disk :=
  mkDisk [GifCreator.texturesDir; GifCreator.outputDir] [] ["convert"].

(** A machine where ImageMagick is found at a well-known path only. *)
Definition installed_path : string := "C:\ImageMagick\magick.exe".

Definition path_only_disk : Disk :=
  mkDisk [TransparentGifCreator.transparentDir; installed_path] [] [].

(* ------------------------------------------------------------------ *)
(** ** Vocabulary of the further properties                            *)
(* ------------------------------------------------------------------ *)

(** Whether the pattern accepts a file name. *)
Definition matches_pattern (f : string) : bool :=
  match regex_match f with Some _ => true | None => false end.

(** Equality of Number values as mathematical objects. *)
Definition same_number (a b : number) : bool :=
  match a, b with
  | Fin x, Fin y => x =? y
  | PosInf, PosInf | NegInf, NegInf | NaN, NaN => true
  | _, _ => false
  end.

(** The frames of a list that carry the index [v], in their order. *)
Definition with_frame (v : number) (l : list Frame) : list Frame :=
  filter (fun fr => same_number (frame fr) v) l.

(** A run of zeros. *)
Definition is_zeros (s : string) : bool := all_chars (fun c => Ascii.eqb c "0") s.

(** The base names of the matching files of a listing, in listing
    order, one entry per file. *)
Definition base_names (files : list string) : list string :=
  flat_map (fun f => match regex_match f with
                     | Some (b, _) => [b]
                     | None => []
                     end) files.

(** A list without its repetitions, each element at the place where it
    first occurs; [seen] holds what has occurred before. *)
Fixpoint first_seen (seen l : list string) : list string :=
  match l with
  | [] => []
  | x :: l' =>
      if mem_string x seen then first_seen seen l'
      else x :: first_seen (x :: seen) l'
  end.


(** The command of [makeTransparentWithFFmpeg]. *)
Definition transparency_ffmpeg_command (inputPath outputPath : string) : string :=
  "ffmpeg -i " ++ quoted inputPath
  ++ " -vf " ++ quoted "colorkey=0x000000:0.1:0.1"
  ++ " -y " ++ quoted outputPath.

(** Events by which the script itself changes the file system. *)
Definition changes_files (ev : Event) : bool :=
  match ev with
  | EvMkdirSync _ _ | EvWriteFileSync _ _ _ | EvUnlinkSync _ _ => true
  | _ => false
  end.

(** What [getAllPngFiles] keeps of a listing. *)
Definition png_files (files : list string) : list string :=
  filter (fun file => String.eqb (extname file) ".png") files.

(* ------------------------------------------------------------------ *)
(** ** Console lines of transparency-maker.js                          *)
(* ------------------------------------------------------------------ *)

Module TransparencyLines.
Import TransparencyMaker.

Definition banner : list Event :=
  [ EvLog "Descent Texture Transparency Creator";
    EvLog "=======================================" ].

Definition missing_input : list Event :=
  [ EvError ("Textures directory not found: " ++ texturesDir);
    EvLog "Please run the extractor first to generate textures.";
    EvExit 1 ].

Definition no_tool : list Event :=
  [ EvError "No image processing tools found.";
    EvLog "Please install ImageMagick or FFmpeg first.";
    EvLog "You can use the gif creator script to install ImageMagick automatically.";
    EvExit 1 ].

Definition scanning : Event := EvLog "Scanning for PNG files...".

Definition nothing_to_do : Event := EvLog "No PNG files found.".

Definition found (n : nat) : Event :=
  EvLog ("Found " ++ show_nat n ++ " texture files to process").

Definition processing (n : nat) : Event :=
  EvLog (LF ++ "Processing " ++ show_nat n ++ " images for transparency...").

Definition tally (t : Tally) : list Event :=
  [ EvLog (LF ++ "Done! Processed " ++ show_nat (successCount t) ++ " images"
           ++ failed_suffix (failCount t));
    EvLog "📁 Check the ./converted/transparent/ directory for your transparent textures." ].

End TransparencyLines.

(** Two runs that end alike and ran the same commands. *)
Definition same_outcome {World A} (r1 r2 : Run World A) : Prop :=
  res r1 = res r2
  /\ final r1 = final r2
  /\ exec_commands (events r1) = exec_commands (events r2).

(** What a probe may do: run one of the three version queries, ask
    whether the path of [MAGICK_PATH] or a well-known path exists, and
    write to the console. *)
Definition is_probe_event (magickPath : option string) (ev : Event) : bool :=
  match ev with
  | EvExec c _ =>
      mem_string c ["magick -version"; "convert -version"; "ffmpeg -version"]
  | EvExistsSync p _ =>
      mem_string p commonPaths || String.eqb p (show_opt magickPath)
  | EvLog _ | EvError _ => true
  | _ => false
  end.

(** A machine without state, for examples: the listing of every
    directory, which commands succeed, and whether files can be written
    and deleted. *)
Definition fixed_host (files : list string) (exec_ok : string -> bool)
  (can_write can_delete : bool) : Host unit :=
  mkHost unit
    (fun command _ =>
       (if exec_ok command then None else Some ("Command failed: " ++ command), tt))
    (fun _ _ => (false, tt))
    (fun _ _ => (None, tt))
    (fun _ _ => (Ok files, tt))
    (fun p _ _ =>
       (if can_write then None
        else Some ("EACCES: permission denied, open '" ++ p ++ "'"), tt))
    (fun p _ =>
       (if can_delete then None
        else Some ("EPERM: operation not permitted, unlink '" ++ p ++ "'"), tt))
    None
    (fun a b => a ++ "/" ++ b)
    (fun p => "/work/" ++ p).


(** No character of [s] is a slash: what holds of every entry of a
    directory listing. *)
Definition no_slash (s : string) : bool :=
  all_chars (fun c => negb (Ascii.eqb c "/")) s.

(* ================================================================== *)
(** * Numbers: the comparator is an order                              *)
(* ================================================================== *)

Lemma round_pos_positive (z : Z) : 0 < z -> 0 < round_pos z.
Proof.
  intros Hz. unfold round_pos.
  destruct (z <? 2 ^ 53) eqn:Hsmall; [assumption|].
  apply Z.ltb_ge in Hsmall.
  assert (Hlog : 53 <= Z.log2 z) by (apply Z.log2_le_pow2; lia).
  set (e := Z.log2 z - 52).
  assert (He : 0 < e) by (unfold e; lia).
  assert (Hq : 0 < Z.shiftr z e).
  { rewrite Z.shiftr_div_pow2 by lia.
    apply Z.div_str_pos. split; [apply Z.pow_pos_nonneg; lia|].
    transitivity (2 ^ Z.log2 z).
    - apply Z.pow_le_mono_r; unfold e; lia.
    - apply Z.log2_spec; lia. }
  rewrite Z.shiftl_mul_pow2 by lia.
  apply Z.mul_pos_pos; [|apply Z.pow_pos_nonneg; lia].
  destruct ((2 ^ (e - 1) <? z mod 2 ^ e) || ((z mod 2 ^ e =? 2 ^ (e - 1)) && Z.odd (Z.shiftr z e))); lia.
Qed.

Lemma num_neg_to_number (z : Z) : num_neg (to_number z) = (z <? 0).
Proof.
  unfold to_number.
  destruct (2 ^ 1024 <=? round_pos (Z.abs z)).
  - destruct (z <? 0); reflexivity.
  - simpl. destruct (Z.ltb_spec z 0) as [Hneg | Hpos].
    + assert (0 < round_pos (Z.abs z)) by (apply round_pos_positive; lia).
      apply Z.ltb_lt. rewrite Z.sgn_neg by assumption. lia.
    + apply Z.ltb_ge. destruct (Z.eq_dec z 0) as [-> | Hnz]; [reflexivity|].
      assert (0 < round_pos (Z.abs z)) by (apply round_pos_positive; lia).
      rewrite Z.sgn_pos by lia. lia.
Qed.

(** On Numbers other than NaN, [a - b < 0] says [a < b]. *)
Lemma num_neg_sub (a b : number) :
  is_NaN a = false -> is_NaN b = false ->
  num_neg (num_sub a b) = num_ltb a b.
Proof.
  destruct a, b; simpl; try discriminate; try reflexivity.
  intros _ _. rewrite num_neg_to_number.
  destruct (Z.ltb_spec (z - z0) 0), (Z.ltb_spec z z0); try reflexivity; lia.
Qed.

Lemma num_ltb_asym (a b : number) : num_ltb a b = true -> num_ltb b a = false.
Proof.
  destruct a, b; simpl; try discriminate; try reflexivity.
  intros H. apply Z.ltb_lt in H. apply Z.ltb_ge. lia.
Qed.

Lemma num_not_ltb_leb (a b : number) :
  is_NaN a = false -> is_NaN b = false ->
  num_ltb b a = false -> num_leb a b = true.
Proof.
  destruct a, b; simpl; try discriminate; try reflexivity.
  intros _ _ H. apply Z.ltb_ge in H. apply Z.leb_le. lia.
Qed.

Lemma num_leb_neq_ltb (a b : number) :
  num_leb a b = true -> a <> b -> num_ltb a b = true.
Proof.
  destruct a, b; simpl; try discriminate; try reflexivity; try congruence.
  intros H Hne. apply Z.leb_le in H. apply Z.ltb_lt.
  assert (z <> z0) by congruence. lia.
Qed.

Lemma num_ltb_irrefl (a : number) : num_ltb a a = false.
Proof. destruct a; simpl; try reflexivity. apply Z.ltb_irrefl. Qed.

Lemma num_leb_trans (a b c : number) :
  num_leb a b = true -> num_leb b c = true -> num_leb a c = true.
Proof.
  destruct a, b, c; simpl; try discriminate; try reflexivity.
  intros H1 H2. apply Z.leb_le in H1, H2. apply Z.leb_le. lia.
Qed.

Lemma to_number_not_NaN (z : Z) : is_NaN (to_number z) = false.
Proof.
  unfold to_number.
  destruct (2 ^ 1024 <=? round_pos (Z.abs z)); [destruct (z <? 0)|]; reflexivity.
Qed.

(* ================================================================== *)
(** * Sorting                                                          *)
(* ================================================================== *)

Section SortFacts.
Context {A : Type} (below : A -> A -> bool).

Lemma insert_by_perm (x : A) (l : list A) :
  Permutation (x :: l) (insert_by below x l).
Proof.
  induction l as [|y l IH]; simpl; [reflexivity|].
  destruct (below x y); [reflexivity|].
  rewrite perm_swap. now constructor.
Qed.

Lemma fold_insert_perm (l acc : list A) :
  Permutation (acc ++ l) (fold_left (fun a x => insert_by below x a) l acc).
Proof.
  revert acc. induction l as [|x l IH]; intros acc; simpl.
  - now rewrite app_nil_r.
  - rewrite <- IH. rewrite <- insert_by_perm.
    symmetry. apply Permutation_middle.
Qed.

Lemma sort_by_perm (l : list A) : Permutation l (sort_by below l).
Proof. unfold sort_by. apply (fold_insert_perm l []). Qed.

Lemma sort_by_length (l : list A) : List.length (sort_by below l) = List.length l.
Proof. symmetry. apply Permutation_length, sort_by_perm. Qed.

(** The comparator only has to behave on the values [P] that occur. *)
Variable P : A -> Prop.
Hypothesis below_asym :
  forall x y, P x -> P y -> below x y = true -> below y x = false.

Lemma insert_by_Forall (x : A) (l : list A) :
  P x -> Forall P l -> Forall P (insert_by below x l).
Proof.
  intros Hx Hl. rewrite Forall_forall in *. intros y Hy.
  apply Permutation_in with (l' := x :: l) in Hy;
    [|symmetry; apply insert_by_perm].
  destruct Hy as [<- | Hy]; auto.
Qed.

Lemma insert_by_hd (x a : A) (l : list A) :
  HdRel (not_after below) a l -> (not_after below) a x -> HdRel (not_after below) a (insert_by below x l).
Proof.
  intros Hhd Hax. destruct l as [|y l]; simpl.
  - now constructor.
  - destruct (below x y); constructor; [assumption|].
    now inversion Hhd.
Qed.

Lemma insert_by_sorted (x : A) (l : list A) :
  P x -> Forall P l ->
  Sorted (not_after below) l -> Sorted (not_after below) (insert_by below x l).
Proof.
  intros Hx Hl Hs. induction Hs as [|y l Hs IH Hhd]; simpl.
  - repeat constructor.
  - inversion Hl; subst.
    destruct (below x y) eqn:Hxy.
    + constructor; [now constructor|]. constructor. now apply below_asym.
    + constructor; [now apply IH|]. now apply insert_by_hd.
Qed.

Lemma fold_insert_sorted (l acc : list A) :
  Forall P l -> Forall P acc ->
  Sorted (not_after below) acc ->
  Sorted (not_after below) (fold_left (fun a x => insert_by below x a) l acc).
Proof.
  revert acc. induction l as [|x l IH]; intros acc Hl Hacc Hs; simpl; [assumption|].
  inversion Hl; subst.
  apply IH; [assumption | now apply insert_by_Forall | now apply insert_by_sorted].
Qed.

Lemma sort_by_sorted (l : list A) :
  Forall P l -> Sorted (not_after below) (sort_by below l).
Proof. intros Hl. apply fold_insert_sorted; [assumption | constructor | constructor]. Qed.
End SortFacts.

(** A relation that holds between the members of a list can be swapped
    for one it implies there. *)
Lemma Sorted_weaken {A} (R R' : A -> A -> Prop) (P : A -> Prop) (l : list A) :
  (forall x y, P x -> P y -> R x y -> R' x y) ->
  Forall P l -> Sorted R l -> Sorted R' l.
Proof.
  intros Himp Hall Hs. induction Hs as [|x l Hs IH Hhd]; [constructor|].
  inversion Hall as [|? ? Hx Hl]; subst.
  constructor; [now apply IH|].
  destruct Hhd as [|y l' Hxy]; constructor.
  inversion Hl; subst. now apply Himp.
Qed.

Lemma js_sort_perm {A} (cmp : A -> A -> number) (arr : list A) :
  Permutation arr (js_sort cmp arr).
Proof. apply sort_by_perm. Qed.

Lemma js_sort_length {A} (cmp : A -> A -> number) (arr : list A) :
  List.length (js_sort cmp arr) = List.length arr.
Proof. apply sort_by_length. Qed.

Lemma js_sort_Forall {A} (cmp : A -> A -> number) (Q : A -> Prop) (arr : list A) :
  Forall Q arr -> Forall Q (js_sort cmp arr).
Proof.
  intros H. rewrite Forall_forall in *. intros x Hx. apply H.
  eapply Permutation_in; [symmetry; apply js_sort_perm | exact Hx].
Qed.

(** [arr.sort((a, b) => a.frame - b.frame)] leaves the frames in
    ascending order, as long as no frame is NaN. *)
Lemma js_sort_by_frame_sorted (arr : list Frame) :
  Forall frame_ok arr -> Sorted frame_le (js_sort by_frame arr).
Proof.
  intros Hok.
  apply Sorted_weaken
    with (R := not_after (fun x y => num_neg (by_frame x y))) (P := frame_ok).
  - intros x y Hx Hy Hxy. unfold frame_le. apply num_not_ltb_leb; try assumption.
    unfold not_after, by_frame in Hxy. now rewrite num_neg_sub in Hxy.
  - now apply js_sort_Forall.
  - apply sort_by_sorted with (P := frame_ok); [|assumption].
    intros x y Hx Hy. unfold by_frame. rewrite !num_neg_sub by assumption.
    apply num_ltb_asym.
Qed.

(* ================================================================== *)
(** * Own properties of an object                                      *)
(* ================================================================== *)

Lemma own_set_own_same (k : string) (v : list Frame) (g : Groups) :
  own k (set_own k v g) = Some v.
Proof.
  induction g as [|[k' v'] g IH]; simpl.
  - now rewrite String.eqb_refl.
  - destruct (String.eqb_spec k k') as [->|Hne]; simpl.
    + now rewrite String.eqb_refl.
    + destruct (String.eqb_spec k k'); [contradiction | exact IH].
Qed.

Lemma own_set_own_other (k k' : string) (v : list Frame) (g : Groups) :
  k' <> k -> own k' (set_own k v g) = own k' g.
Proof.
  intros Hne. induction g as [|[k0 v0] g IH]; simpl.
  - destruct (String.eqb_spec k' k); [contradiction | reflexivity].
  - destruct (String.eqb_spec k k0) as [->|Hk]; simpl.
    + destruct (String.eqb_spec k' k0); [contradiction | reflexivity].
    + destruct (String.eqb_spec k' k0); [reflexivity | exact IH].
Qed.

Lemma own_delete_other (k k' : string) (g : Groups) :
  k' <> k -> own k' (delete k g) = own k' g.
Proof.
  intros Hne. induction g as [|[k0 v0] g IH]; simpl; [reflexivity|].
  destruct (String.eqb_spec k k0) as [->|Hk]; simpl.
  - destruct (String.eqb_spec k' k0); [contradiction | reflexivity].
  - destruct (String.eqb_spec k' k0); [reflexivity | exact IH].
Qed.

Lemma own_None_iff (k : string) (g : Groups) :
  own k g = None <-> ~ In k (own_keys g).
Proof.
  induction g as [|[k0 v0] g IH]; simpl; [tauto|].
  destruct (String.eqb_spec k k0) as [->|Hk].
  - split; [discriminate | intros H; exfalso; apply H; now left].
  - rewrite IH. split; [intros H [E|E]; [now subst | contradiction] | tauto].
Qed.

Lemma own_Some_In (k : string) (g : Groups) (arr : list Frame) :
  own k g = Some arr -> In k (own_keys g).
Proof.
  intros H. destruct (in_dec string_dec k (own_keys g)) as [Hin|Hnin]; [assumption|].
  apply own_None_iff in Hnin. congruence.
Qed.

Lemma In_own_keys_delete (k k' : string) (g : Groups) :
  In k' (own_keys (delete k g)) -> In k' (own_keys g).
Proof.
  induction g as [|[k0 v0] g IH]; simpl; [tauto|].
  destruct (String.eqb k k0); simpl; tauto.
Qed.

Lemma NoDup_delete (k : string) (g : Groups) :
  NoDup (own_keys g) -> NoDup (own_keys (delete k g)).
Proof.
  induction g as [|[k0 v0] g IH]; simpl; intros Hnd; [constructor|].
  inversion Hnd as [|? ? Hnin Hnd']; subst.
  destruct (String.eqb k k0); simpl; [assumption|].
  constructor; [|now apply IH].
  intros Hin. apply Hnin. eapply In_own_keys_delete; eassumption.
Qed.

Lemma own_delete_same (k : string) (g : Groups) :
  NoDup (own_keys g) -> own k (delete k g) = None.
Proof.
  induction g as [|[k0 v0] g IH]; simpl; intros Hnd; [reflexivity|].
  inversion Hnd as [|? ? Hnin Hnd']; subst.
  destruct (String.eqb_spec k k0) as [->|Hk]; simpl.
  - now apply own_None_iff.
  - destruct (String.eqb_spec k k0); [contradiction | now apply IH].
Qed.

Lemma own_keys_set_own (k : string) (v : list Frame) (g : Groups) :
  own_keys (set_own k v g)
  = match own k g with
    | Some _ => own_keys g
    | None => (own_keys g ++ [k])%list
    end.
Proof.
  induction g as [|[k0 v0] g IH]; simpl; [reflexivity|].
  destruct (String.eqb_spec k k0) as [->|Hk]; simpl; [reflexivity|].
  rewrite IH. now destruct (own k g).
Qed.

Lemma NoDup_set_own (k : string) (v : list Frame) (g : Groups) :
  NoDup (own_keys g) -> NoDup (own_keys (set_own k v g)).
Proof.
  intros Hnd. rewrite own_keys_set_own.
  destruct (own k g) eqn:Hk; [assumption|].
  apply own_None_iff in Hk.
  apply Permutation_NoDup with (l := k :: own_keys g).
  - apply Permutation_cons_append.
  - now constructor.
Qed.

Lemma mem_string_In (x : string) (l : list string) :
  mem_string x l = true <-> In x l.
Proof.
  unfold mem_string. rewrite existsb_exists. split.
  - intros (y & Hy & E). apply String.eqb_eq in E. now subst.
  - intros H. exists x. split; [assumption | apply String.eqb_refl].
Qed.

Lemma filter_split_perm {A} (p : A -> bool) (l : list A) :
  Permutation (filter p l ++ filter (fun x => negb (p x)) l) l.
Proof.
  induction l as [|x l IH]; simpl; [constructor|].
  destruct (p x); simpl.
  - now constructor.
  - rewrite <- Permutation_middle. now constructor.
Qed.

(** [Object.keys] lists every own key exactly once. *)
Lemma Object_keys_perm (g : Groups) : Permutation (Object_keys g) (own_keys g).
Proof.
  unfold Object_keys.
  rewrite <- (filter_split_perm is_array_index (own_keys g)) at 3.
  apply Permutation_app_tail. symmetry. apply sort_by_perm.
Qed.

Lemma Object_keys_own (g : Groups) (k : string) :
  In k (Object_keys g) -> own k g <> None.
Proof.
  intros Hin Hnone. apply own_None_iff in Hnone. apply Hnone.
  eapply Permutation_in; [apply Object_keys_perm | exact Hin].
Qed.

Lemma Object_keys_nil (g : Groups) : Object_keys g = [] -> g = [].
Proof.
  intros H. pose proof (Object_keys_perm g) as Hp. rewrite H in Hp.
  apply Permutation_nil in Hp. destruct g; [reflexivity | discriminate].
Qed.

(* ================================================================== *)
(** * Strings and the file-name pattern                                *)
(* ================================================================== *)

Lemma all_chars_app (p : ascii -> bool) (s t : string) :
  all_chars p (s ++ t) = all_chars p s && all_chars p t.
Proof.
  induction s as [|c s IH]; simpl; [reflexivity|].
  rewrite IH. now rewrite andb_assoc.
Qed.

Lemma all_chars_impl (p q : ascii -> bool) (s : string) :
  (forall c, p c = true -> q c = true) ->
  all_chars p s = true -> all_chars q s = true.
Proof.
  intros Hpq. induction s as [|c s IH]; simpl; [reflexivity|].
  intros H. apply andb_true_iff in H as [Hc Hs].
  apply andb_true_iff. split; [now apply Hpq | now apply IH].
Qed.

Lemma append_assoc (s t u : string) : (s ++ t) ++ u = s ++ (t ++ u).
Proof. induction s as [|c s IH]; simpl; [reflexivity | now rewrite IH]. Qed.

Lemma append_nil_r (s : string) : s ++ "" = s.
Proof. induction s as [|c s IH]; simpl; [reflexivity | now rewrite IH]. Qed.

Lemma is_digit_not_underscore (c : ascii) : is_digit c = true -> c <> "_"%char.
Proof. intros H ->. discriminate H. Qed.

Lemma is_digit_plain (c : ascii) : is_digit c = true -> plain c = true.
Proof.
  intros H. unfold plain.
  destruct (Ascii.eqb_spec c "010") as [->|_]; [discriminate H|].
  destruct (Ascii.eqb_spec c "013") as [->|_]; [discriminate H|].
  destruct (Ascii.eqb_spec c "226") as [->|_]; [discriminate H|].
  destruct (Ascii.eqb_spec c "128") as [->|_]; [discriminate H|].
  destruct (Ascii.eqb_spec c "168") as [->|_]; [discriminate H|].
  destruct (Ascii.eqb_spec c "169") as [->|_]; [discriminate H|].
  reflexivity.
Qed.

Lemma plain_not_terminator (c : ascii) (r : string) :
  plain c = true -> line_terminator_at (String c r) = false.
Proof.
  unfold plain. intros H. apply negb_true_iff in H.
  repeat (apply orb_false_iff in H; destruct H as [H ?]).
  cbn [line_terminator_at].
  repeat match goal with E : Ascii.eqb c _ = false |- _ => rewrite E; clear E end.
  reflexivity.
Qed.

(** A line terminator at the start of a string is one at the start of
    every string it begins. *)
Lemma line_terminator_at_prefix (s t : string) :
  line_terminator_at s = true -> line_terminator_at (s ++ t) = true.
Proof.
  destruct s as [|c [|c1 [|c2 r]]]; [discriminate| | |];
    cbn [line_terminator_at String.append]; intros H.
  - rewrite andb_false_r, orb_false_r in H. rewrite H. reflexivity.
  - rewrite andb_false_r, orb_false_r in H. rewrite H. reflexivity.
  - exact H.
Qed.

(** What follows a string does not make its start a line terminator,
    unless it continues one. *)
Lemma line_terminator_at_app_plain (s t : string) :
  nonempty s = true -> plain_start t = true ->
  line_terminator_at (s ++ t) = line_terminator_at s.
Proof.
  intros Hs Ht.
  assert (Hplain : forall c, plain c = true ->
            Ascii.eqb c "128" = false
            /\ Ascii.eqb c "168" = false /\ Ascii.eqb c "169" = false).
  { intros c H. unfold plain in H. apply negb_true_iff in H.
    repeat (apply orb_false_iff in H; destruct H as [H ?]). now repeat split. }
  destruct s as [|c [|c1 [|c2 r]]]; [discriminate| | |];
    cbn [line_terminator_at String.append].
  - destruct t as [|ct [|ct' t']]; try reflexivity.
    cbn [plain_start] in Ht. destruct (Hplain ct Ht) as (-> & _ & _). reflexivity.
  - destruct t as [|ct t']; [reflexivity|].
    cbn [plain_start] in Ht. destruct (Hplain ct Ht) as (_ & -> & ->).
    cbn [orb]. now rewrite andb_false_r.
  - reflexivity.
Qed.

Lemma all_plain_one_line (s : string) : all_chars plain s = true -> one_line s = true.
Proof.
  induction s as [|c s IH]; [reflexivity|]. cbn [all_chars one_line]. intros H.
  apply andb_true_iff in H as [Hc Hs].
  now rewrite (plain_not_terminator c s Hc), (IH Hs).
Qed.

Lemma one_line_app_plain (s t : string) :
  one_line s = true -> one_line t = true -> plain_start t = true ->
  one_line (s ++ t) = true.
Proof.
  intros Hs Ht Hp. induction s as [|c s IH]; [exact Ht|].
  cbn [one_line] in Hs. apply andb_true_iff in Hs as [Hc Hs].
  change (String c s ++ t) with (String c (s ++ t)). cbn [one_line].
  change (String c (s ++ t)) with (String c s ++ t).
  rewrite (line_terminator_at_app_plain (String c s) t eq_refl Hp), Hc.
  now apply IH.
Qed.

Lemma span_digits_spec (s ds t : string) :
  span_digits s = (ds, t) -> s = ds ++ t /\ all_chars is_digit ds = true.
Proof.
  revert ds t. induction s as [|c s IH]; simpl; intros ds t H.
  - inversion H; subst. now split.
  - destruct (is_digit c) eqn:Hc.
    + destruct (span_digits s) as [ds' t'] eqn:Hs. inversion H; subst.
      destruct (IH ds' t eq_refl) as [-> Hds]. simpl. rewrite Hc. now split.
    + inversion H; subst. now split.
Qed.

Lemma span_digits_app (d t : string) :
  all_chars is_digit d = true ->
  span_digits (d ++ t) = (d ++ fst (span_digits t), snd (span_digits t)).
Proof.
  induction d as [|c d IH]; simpl; intros H.
  - now destruct (span_digits t).
  - apply andb_true_iff in H as [Hc Hd]. rewrite Hc, (IH Hd). reflexivity.
Qed.

Lemma span_digits_all (d : string) :
  all_chars is_digit d = true -> span_digits d = (d, "").
Proof.
  intros H. rewrite <- (append_nil_r d) at 1.
  rewrite span_digits_app by assumption. simpl. now rewrite append_nil_r.
Qed.

(** [parseInt] of a digit run is the Number value of the run. *)
Lemma parseInt_digits (d : string) :
  is_digits d = true -> parseInt d = to_number (digits_value_from 0 d).
Proof.
  unfold is_digits, parseInt. intros H. apply andb_true_iff in H as [Hne Hd].
  rewrite span_digits_all by assumption. now destruct d.
Qed.

Lemma parseInt_not_NaN (d : string) : is_digits d = true -> is_NaN (parseInt d) = false.
Proof. intros H. rewrite parseInt_digits by assumption. apply to_number_not_NaN. Qed.

Lemma match_tail_spec (s d : string) :
  match_tail s = Some d -> s = "_" ++ d ++ ".png" /\ is_digits d = true.
Proof.
  unfold match_tail. destruct s as [|c r]; [discriminate|].
  destruct (Ascii.eqb_spec c "_") as [->|Hc].
  - destruct (span_digits r) as [ds t] eqn:Hr.
    destruct (nonempty ds) eqn:Hne; simpl; [|discriminate].
    destruct (String.eqb_spec t ".png") as [->|_]; [|discriminate].
    intros H. inversion H; subst.
    apply span_digits_spec in Hr as [-> Hd].
    split; [reflexivity|]. unfold is_digits. now rewrite Hne, Hd.
  - intros H. exfalso.
    destruct c as [[] [] [] [] [] [] [] []]; try discriminate H. now apply Hc.
Qed.

Lemma match_tail_digits (d : string) :
  is_digits d = true -> match_tail ("_" ++ d ++ ".png") = Some d.
Proof.
  unfold is_digits. intros H. apply andb_true_iff in H as [Hne Hd].
  simpl. rewrite span_digits_app by assumption. simpl.
  rewrite append_nil_r, Hne. reflexivity.
Qed.

(** Whatever the pattern matches has the shape [<base>_<digits>.png],
    with a non-empty base free of line terminators. *)
Lemma match_groups_spec (s b d : string) :
  match_groups s = Some (b, d) ->
  s = b ++ "_" ++ d ++ ".png"
  /\ is_digits d = true /\ nonempty b = true /\ one_line b = true.
Proof.
  revert b d. induction s as [|c s IH]; cbn [match_groups]; intros b d H;
    [discriminate|].
  destruct (line_terminator_at (String c s)) eqn:Hc; [discriminate|].
  assert (Hpre : forall b' t, s = b' ++ t -> line_terminator_at (String c b') = false).
  { intros b' t E. destruct (line_terminator_at (String c b')) eqn:Hb'; [|reflexivity].
    apply (line_terminator_at_prefix _ t) in Hb'.
    change (String c b' ++ t) with (String c (b' ++ t)) in Hb'.
    rewrite <- E in Hb'. congruence. }
  destruct (match_groups s) as [[b' d']|] eqn:Hs.
  - inversion H; subst. destruct (IH b' d eq_refl) as (E & Hd & Hb & Hl).
    repeat split; try assumption.
    + now rewrite E at 1.
    + cbn [one_line]. now rewrite (Hpre b' _ E), Hl.
  - destruct (match_tail s) as [d'|] eqn:Ht; [|discriminate].
    inversion H; subst. apply match_tail_spec in Ht as [E Hd].
    repeat split; try assumption.
    + now rewrite E at 1.
    + cbn [one_line]. now rewrite (Hpre "" _ E).
Qed.

Lemma match_tail_no_underscore (s : string) :
  no_underscore s = true -> match_tail s = None.
Proof.
  destruct s as [|c r]; [reflexivity|]. unfold no_underscore. simpl.
  intros H. apply andb_true_iff in H as [Hc _].
  destruct (Ascii.eqb_spec c "_") as [->|Hne]; [discriminate|].
  destruct c as [[] [] [] [] [] [] [] []]; try reflexivity. now elim Hne.
Qed.

Lemma match_groups_no_underscore (s : string) :
  no_underscore s = true -> match_groups s = None.
Proof.
  induction s as [|c s IH]; [reflexivity|]. intros H. cbn [match_groups].
  destruct (line_terminator_at (String c s)); [reflexivity|].
  assert (Hs : no_underscore s = true).
  { unfold no_underscore in *. simpl in H. now apply andb_true_iff in H as [_ H]. }
  now rewrite (IH Hs), (match_tail_no_underscore s Hs).
Qed.

Lemma digits_png_no_underscore (d : string) :
  all_chars is_digit d = true -> no_underscore (d ++ ".png") = true.
Proof.
  intros H. unfold no_underscore. rewrite all_chars_app. apply andb_true_iff.
  split; [|reflexivity].
  eapply all_chars_impl; [|exact H].
  intros c Hc. destruct (Ascii.eqb_spec c "_") as [->|_]; [discriminate Hc | reflexivity].
Qed.

(** The pattern matches every [<base>_<digits>.png] whose base is not
    empty and has no line terminator, and captures exactly the two. *)
Lemma match_groups_complete (b d : string) :
  nonempty b = true -> one_line b = true -> is_digits d = true ->
  match_groups (b ++ "_" ++ d ++ ".png") = Some (b, d).
Proof.
  intros Hb Hl Hd. induction b as [|c b IH]; [discriminate|].
  cbn [one_line] in Hl. apply andb_true_iff in Hl as [Hc Hl].
  apply negb_true_iff in Hc.
  assert (Hc' : line_terminator_at (String c (b ++ "_" ++ d ++ ".png")) = false).
  { change (String c (b ++ "_" ++ d ++ ".png")) with (String c b ++ "_" ++ d ++ ".png").
    now rewrite (line_terminator_at_app_plain (String c b) ("_" ++ d ++ ".png")
                   eq_refl eq_refl). }
  change ((String c b) ++ "_" ++ d ++ ".png") with (String c (b ++ "_" ++ d ++ ".png")).
  cbn [match_groups]. rewrite Hc'.
  destruct b as [|c' b'].
  - assert (Hnu : no_underscore (d ++ ".png") = true).
    { apply digits_png_no_underscore. unfold is_digits in Hd.
      now apply andb_true_iff in Hd as [_ Hd]. }
    change ("" ++ "_" ++ d ++ ".png") with (String "_" (d ++ ".png")).
    cbn [match_groups].
    rewrite (plain_not_terminator "_" (d ++ ".png") eq_refl).
    rewrite (match_groups_no_underscore _ Hnu), (match_tail_no_underscore _ Hnu).
    change (String "_" (d ++ ".png")) with ("_" ++ d ++ ".png").
    now rewrite match_tail_digits.
  - rewrite IH; [reflexivity | reflexivity | exact Hl].
Qed.

Lemma digits_one_line (d : string) : all_chars is_digit d = true -> one_line d = true.
Proof.
  intros H. apply all_plain_one_line.
  eapply all_chars_impl; [|exact H]. apply is_digit_plain.
Qed.

(** The tail of a match holds no line terminator. *)
Lemma tail_one_line (d : string) :
  is_digits d = true -> one_line ("_" ++ d ++ ".png") = true.
Proof.
  intros Hd. unfold is_digits in Hd. apply andb_true_iff in Hd as [_ Hd].
  apply all_plain_one_line. cbn [String.append all_chars]. rewrite all_chars_app.
  rewrite (all_chars_impl is_digit plain d is_digit_plain Hd). reflexivity.
Qed.

(** A line terminator anywhere in the name defeats the pattern: [.]
    does not match it, and the pattern is anchored at both ends. *)
Lemma match_groups_line_terminator (s : string) :
  one_line s = false -> match_groups s = None /\ match_tail s = None.
Proof.
  induction s as [|c s IH]; [discriminate|]. intros H.
  assert (Htail : match_tail (String c s) = None).
  { destruct (match_tail (String c s)) as [d|] eqn:Ht; [|reflexivity].
    apply match_tail_spec in Ht as [E Hd]. exfalso.
    rewrite E, (tail_one_line d Hd) in H. discriminate. }
  split; [|exact Htail]. cbn [match_groups].
  destruct (line_terminator_at (String c s)) eqn:Hc; [reflexivity|].
  cbn [one_line] in H. rewrite Hc in H. cbn [negb andb] in H.
  destruct (IH H) as [-> ->]. reflexivity.
Qed.

(* ------------------------------------------------------------------ *)
(** ** [path.extname] on names ending in [.png]                        *)
(* ------------------------------------------------------------------ *)

Lemma list_ascii_of_string_app (s t : string) :
  list_ascii_of_string (s ++ t)
  = (list_ascii_of_string s ++ list_ascii_of_string t)%list.
Proof. induction s as [|c s IH]; simpl; [reflexivity | now rewrite IH]. Qed.

(** Once the scan holds a dot with something other than a dot before
    it, neither the dot nor the end it found move any more. *)
Lemma extname_scan_settled (rs : list ascii) (st : ExtState) (a e : nat) :
  startDot st = Some a -> endPos st = Some e ->
  preDotState st <> 0 -> matchedSlash st = false ->
  let st' := extname_scan rs st in
  startDot st' = Some a /\ endPos st' = Some e /\ preDotState st' <> 0.
Proof.
  revert st. induction rs as [|c rs IH]; intros st Ha He Hp Hm; simpl.
  - now repeat split.
  - destruct (Ascii.eqb c "/").
    + rewrite Hm. simpl. now repeat split.
    + rewrite He. destruct (Ascii.eqb c ".").
      * rewrite Ha. destruct (negb (preDotState st =? 1)) eqn:H1.
        -- apply IH; simpl; try assumption; try reflexivity; discriminate.
        -- now apply IH.
      * rewrite Ha. apply IH; simpl; try assumption; try reflexivity; discriminate.
Qed.

Lemma extname_scan_png (rest : list ascii) :
  extname_scan ("g" :: "n" :: "p" :: "." :: rest)%char ext_init
  = extname_scan rest
      (mkExtState (Some (List.length rest)) 0
                  (Some (S (S (S (List.length rest))) + 1)%nat) false 0).
Proof. reflexivity. Qed.

Lemma extname_scan_plain (c : ascii) (rs : list ascii) (st : ExtState) (a e : nat) :
  c <> "/"%char -> c <> "."%char ->
  startDot st = Some a -> endPos st = Some e ->
  extname_scan (c :: rs) st
  = extname_scan rs (mkExtState (startDot st) (startPart st) (endPos st)
                                (matchedSlash st) (-1)).
Proof.
  intros Hslash Hdot Ha He. cbn [extname_scan].
  rewrite (proj2 (Ascii.eqb_neq c "/") Hslash), (proj2 (Ascii.eqb_neq c ".") Hdot).
  rewrite He, Ha. cbn [startDot startPart endPos matchedSlash preDotState].
  now rewrite He.
Qed.

(** A name that ends in [.png] after a character that is neither a dot
    nor a slash has the extension [.png]. *)
Lemma extname_png (pre : string) (c : ascii) :
  c <> "."%char -> c <> "/"%char ->
  extname (pre ++ String c ".png") = ".png".
Proof.
  intros Hdot Hslash. unfold extname.
  rewrite list_ascii_of_string_app.
  change (list_ascii_of_string (String c ".png")) with [c; "."; "p"; "n"; "g"]%char.
  set (l := list_ascii_of_string pre).
  rewrite rev_app_distr.
  change (rev [c; "."; "p"; "n"; "g"]%char) with ["g"; "n"; "p"; "."; c]%char.
  change ((["g"; "n"; "p"; "."; c]%char ++ rev l)%list)
    with ("g" :: "n" :: "p" :: "." :: c :: rev l)%char.
  rewrite extname_scan_png.
  erewrite extname_scan_plain; [|assumption|assumption|reflexivity|reflexivity].
  cbn [startDot startPart endPos matchedSlash].
  set (a := List.length (c :: rev l)).
  set (e := (S (S (S a)) + 1)%nat).
  destruct (extname_scan_settled (rev l)
              (mkExtState (Some a) 0 (Some e) false (-1)) a e)
    as (Hs & He & Hp); try reflexivity; [discriminate|].
  cbv zeta in Hs, He, Hp. rewrite Hs, He.
  destruct (preDotState _ =? 0) eqn:H0; [apply Z.eqb_eq in H0; contradiction|].
  assert (Hlen : a = S (List.length l)) by (unfold a; simpl; now rewrite length_rev).
  assert (Hend : e = (S (List.length l) + 4)%nat) by (unfold e; lia).
  replace (a =? e - 1)%nat with false by (symmetry; apply Nat.eqb_neq; lia).
  rewrite andb_false_r. cbn [orb].
  unfold slice. replace (e - a)%nat with 4%nat by lia.
  change (l ++ [c; "."; "p"; "n"; "g"]%char)%list
    with (l ++ [c] ++ ["."; "p"; "n"; "g"]%char)%list.
  rewrite app_assoc, Hlen.
  replace (S (List.length l)) with (List.length (l ++ [c])%list + 0)%nat
    by (rewrite length_app; simpl; lia).
  rewrite skipn_app, skipn_all2 by lia.
  replace (List.length (l ++ [c]) + 0 - List.length (l ++ [c]))%nat with 0%nat by lia.
  reflexivity.
Qed.

Lemma nonempty_last (d : string) :
  nonempty d = true -> exists d' c, d = d' ++ String c "".
Proof.
  induction d as [|c d IH]; [discriminate|]. intros _.
  destruct d as [|c' d''].
  - now exists "", c.
  - destruct (IH eq_refl) as (d' & c0 & E). exists (String c d'), c0.
    simpl. now rewrite <- E.
Qed.

Lemma is_digit_not_dot_slash (c : ascii) :
  is_digit c = true -> c <> "."%char /\ c <> "/"%char.
Proof. intros H. split; intros ->; discriminate H. Qed.

(** Every name the pattern can match passes the [extname] test. *)
Lemma extname_digits_png (b d : string) :
  is_digits d = true -> extname (b ++ "_" ++ d ++ ".png") = ".png".
Proof.
  intros Hd. unfold is_digits in Hd. apply andb_true_iff in Hd as [Hne Hd].
  destruct (nonempty_last d Hne) as (d' & c & ->).
  rewrite all_chars_app in Hd. apply andb_true_iff in Hd as [_ Hc].
  simpl in Hc. rewrite andb_true_r in Hc.
  destruct (is_digit_not_dot_slash c Hc) as [H1 H2].
  replace (b ++ "_" ++ (d' ++ String c "") ++ ".png")
    with ((b ++ "_" ++ d') ++ String c ".png")
    by (now rewrite !append_assoc).
  now apply extname_png.
Qed.

Lemma regex_match_extname (f b d : string) :
  regex_match f = Some (b, d) -> extname f = ".png".
Proof.
  intros H. apply match_groups_spec in H as (-> & Hd & _ & _).
  now apply extname_digits_png.
Qed.

(* ================================================================== *)
(** * Grouping                                                         *)
(* ================================================================== *)

Section GroupingFacts.
Variable path_join : string -> string -> string.
Variable dir : string.

#[local] Abbreviation accept' := (accept path_join dir).
#[local] Abbreviation members' := (members path_join dir).
#[local] Abbreviation visit_file' := (visit_file path_join dir).
#[local] Abbreviation group_files' := (group_files path_join dir).

Lemma visit_file_accept (g : Groups) (f : string) :
  visit_file' g f
  = match accept' f with
    | Some (b, fr) => push_frame g b fr
    | None => Ok g
    end.
Proof.
  unfold visit_file, accept.
  destruct (String.eqb (extname f) ".png"); [|reflexivity].
  now destruct (regex_match f) as [[b d]|].
Qed.

(** The extension test never rejects what the pattern accepts. *)
Lemma accept_regex (f : string) :
  accept' f
  = match regex_match f with
    | Some (b, d) => Some (b, mkFrame f (parseInt d) (path_join dir f))
    | None => None
    end.
Proof.
  unfold accept. destruct (regex_match f) as [[b d]|] eqn:Hm.
  - now rewrite (regex_match_extname _ _ _ Hm).
  - now destruct (String.eqb (extname f) ".png").
Qed.

Lemma accept_frame_ok (f b : string) (fr : Frame) :
  accept' f = Some (b, fr) -> frame_ok fr /\ file fr = f.
Proof.
  rewrite accept_regex. destruct (regex_match f) as [[b' d]|] eqn:Hm; [|discriminate].
  intros H. inversion H; subst. split; [|reflexivity].
  apply match_groups_spec in Hm as (_ & Hd & _ & _).
  now apply parseInt_not_NaN.
Qed.

Lemma members_cons (b f : string) (files : list string) :
  members' b (f :: files)
  = (match accept' f with
     | Some (b', fr) => if String.eqb b' b then [fr] else []
     | None => []
     end ++ members' b files)%list.
Proof. reflexivity. Qed.

Lemma members_frame_ok (b : string) (files : list string) :
  Forall frame_ok (members' b files).
Proof.
  induction files as [|f files IH]; [constructor|].
  rewrite members_cons. apply Forall_app. split; [|exact IH].
  destruct (accept' f) as [[b' fr]|] eqn:Ha; [|constructor].
  destruct (String.eqb b' b); [|constructor].
  constructor; [|constructor]. now apply accept_frame_ok in Ha.
Qed.

Lemma push_frame_own (g g' : Groups) (b : string) (fr : Frame) :
  push_frame g b fr = Ok g' ->
  forall b', own b' g'
             = if String.eqb b' b
               then Some (match own b g with
                          | Some arr => arr ++ [fr]
                          | None => [fr]
                          end)%list
               else own b' g.
Proof.
  unfold push_frame. intros H b'.
  destruct (own b g) as [arr|] eqn:Hb.
  - inversion H; subst.
    destruct (String.eqb_spec b' b) as [->|Hne];
      [apply own_set_own_same | now apply own_set_own_other].
  - destruct (inherited b); [discriminate|]. inversion H; subst.
    destruct (String.eqb_spec b' b) as [->|Hne];
      [apply own_set_own_same | now apply own_set_own_other].
Qed.

Lemma push_frame_NoDup (g g' : Groups) (b : string) (fr : Frame) :
  push_frame g b fr = Ok g' -> NoDup (own_keys g) -> NoDup (own_keys g').
Proof.
  unfold push_frame. intros H Hnd.
  destruct (own b g); [|destruct (inherited b); [discriminate|]];
    inversion H; subst; now apply NoDup_set_own.
Qed.

(** The first loop files every accepted frame under its base name, in
    listing order. *)
Lemma first_pass (files : list string) (g0 g : Groups) :
  forEach visit_file' files g0 = Ok g ->
  NoDup (own_keys g0) ->
  NoDup (own_keys g)
  /\ forall b, own b g
               = match own b g0 with
                 | Some arr => Some (arr ++ members' b files)%list
                 | None =>
                     match members' b files with
                     | [] => None
                     | m => Some m
                     end
                 end.
Proof.
  revert g0. induction files as [|f files IH]; intros g0 H Hnd.
  - simpl in H. inversion H; subst. split; [assumption|].
    intros b. simpl. destruct (own b g); [now rewrite app_nil_r | reflexivity].
  - cbn [forEach] in H. rewrite visit_file_accept in H.
    destruct (accept' f) as [[b0 fr]|] eqn:Ha.
    + destruct (push_frame g0 b0 fr) as [g1|e] eqn:Hp; [|discriminate].
      simpl in H. destruct (IH g1 H (push_frame_NoDup _ _ _ _ Hp Hnd)) as [Hnd' Hown].
      split; [assumption|]. intros b. rewrite Hown, members_cons, Ha.
      rewrite (push_frame_own _ _ _ _ Hp b).
      destruct (String.eqb_spec b b0) as [->|Hne].
      * rewrite String.eqb_refl.
        destruct (own b0 g0); simpl; [now rewrite <- app_assoc | reflexivity].
      * destruct (String.eqb_spec b0 b); [now subst|]. reflexivity.
    + simpl in H. destruct (IH g0 H Hnd) as [Hnd' Hown].
      split; [assumption|]. intros b. now rewrite Hown, members_cons, Ha.
Qed.

(** The first loop stops only on a base name that [Object.prototype]
    already defines. *)
Lemma first_pass_thrown (files : list string) (g0 : Groups) (e : Error) :
  forEach visit_file' files g0 = Thrown e ->
  exists f b fr, In f files /\ accept' f = Some (b, fr) /\ inherited b = true.
Proof.
  revert g0. induction files as [|f files IH]; intros g0 H; [discriminate|].
  cbn [forEach] in H. rewrite visit_file_accept in H.
  destruct (accept' f) as [[b0 fr]|] eqn:Ha.
  - destruct (push_frame g0 b0 fr) as [g1|e'] eqn:Hp.
    + simpl in H. destruct (IH g1 H) as (f' & b & fr' & Hin & Hacc & Hinh).
      exists f', b, fr'. now repeat split; [right|..].
    + exists f, b0, fr. repeat split; [now left | assumption |].
      unfold push_frame in Hp. destruct (own b0 g0); [discriminate|].
      destruct (inherited b0); [reflexivity | discriminate].
  - simpl in H. destruct (IH g0 H) as (f' & b & fr' & Hin & Hacc & Hinh).
    exists f', b, fr'. now repeat split; [right|..].
Qed.

Lemma sort_and_filter_step (g : Groups) (k : string) (arr : list Frame) :
  own k g = Some arr -> NoDup (own_keys g) ->
  exists g', sort_and_filter g k = Ok g'
             /\ NoDup (own_keys g')
             /\ own k g' = sorted_or_dropped (Some arr)
             /\ forall b, b <> k -> own b g' = own b g.
Proof.
  intros Hk Hnd. unfold sort_and_filter. rewrite Hk. simpl.
  rewrite js_sort_length.
  destruct (List.length arr <? 2)%nat.
  - eexists. split; [reflexivity|]. repeat split.
    + now apply NoDup_delete, NoDup_set_own.
    + now apply own_delete_same, NoDup_set_own.
    + intros b Hb. rewrite own_delete_other by assumption.
      now apply own_set_own_other.
  - eexists. split; [reflexivity|]. repeat split.
    + now apply NoDup_set_own.
    + apply own_set_own_same.
    + intros b Hb. now apply own_set_own_other.
Qed.

(** The second loop never throws, and sorts or drops every key once. *)
Lemma second_pass (ks : list string) (g : Groups) :
  NoDup ks -> NoDup (own_keys g) ->
  (forall k, In k ks -> own k g <> None) ->
  exists g', forEach sort_and_filter ks g = Ok g'
             /\ forall b, own b g'
                          = if mem_string b ks then sorted_or_dropped (own b g)
                            else own b g.
Proof.
  revert g. induction ks as [|k ks IH]; intros g Hks Hnd Hown.
  - exists g. now split.
  - inversion Hks as [|? ? Hnotin Hks']; subst.
    destruct (own k g) as [arr|] eqn:Hk; [|now elim (Hown k (or_introl eq_refl))].
    destruct (sort_and_filter_step g k arr Hk Hnd) as (g1 & Hstep & Hnd1 & Hk1 & Hother).
    destruct (IH g1 Hks' Hnd1) as (g' & Hrest & Hown').
    { intros k' Hin. rewrite Hother; [apply Hown; now right|].
      intros ->. contradiction. }
    exists g'. cbn [forEach]. rewrite Hstep. simpl. split; [assumption|].
    intros b. rewrite Hown'. unfold mem_string. cbn [existsb].
    destruct (String.eqb_spec b k) as [->|Hne]; simpl.
    + fold (mem_string k ks).
      destruct (mem_string k ks) eqn:Hm; [apply mem_string_In in Hm; contradiction|].
      now rewrite Hk1, Hk.
    + fold (mem_string b ks). now rewrite Hother.
Qed.

(** The groups that come back: under each base name with at least two
    frames in the listing, those frames sorted; nothing else. *)
Lemma group_files_own (files : list string) (groups : Groups) :
  group_files' files = Ok groups ->
  forall b, own b groups
            = if (List.length (members' b files) <? 2)%nat then None
              else Some (js_sort by_frame (members' b files)).
Proof.
  unfold group_files. intros H b.
  destruct (forEach visit_file' files []) as [g1|e] eqn:H1; [|discriminate].
  simpl in H. destruct (first_pass files [] g1 H1 (NoDup_nil _)) as [Hnd Hown1].
  destruct (second_pass (Object_keys g1) g1) as (g' & H2 & Hown2).
  - eapply Permutation_NoDup; [symmetry; apply Object_keys_perm | exact Hnd].
  - exact Hnd.
  - apply Object_keys_own.
  - rewrite H2 in H. inversion H; subst. rewrite Hown2, Hown1. simpl.
    destruct (mem_string b (Object_keys g1)) eqn:Hm.
    + destruct (members' b files) as [|x m]; reflexivity.
    + assert (Hnone : own b g1 = None).
      { apply own_None_iff. intros Hin.
        assert (In b (Object_keys g1))
          by (eapply Permutation_in; [symmetry; apply Object_keys_perm | exact Hin]).
        apply mem_string_In in H0. congruence. }
      rewrite Hown1 in Hnone. simpl in Hnone.
      destruct (members' b files); [reflexivity | discriminate].
Qed.

(** Grouping throws only on a base name inherited from
    [Object.prototype]. *)
Lemma group_files_thrown (files : list string) (e : Error) :
  group_files' files = Thrown e ->
  exists f b fr, In f files /\ accept' f = Some (b, fr) /\ inherited b = true.
Proof.
  unfold group_files. intros H.
  destruct (forEach visit_file' files []) as [g1|e'] eqn:H1.
  - exfalso. simpl in H.
    destruct (first_pass files [] g1 H1 (NoDup_nil _)) as [Hnd _].
    destruct (second_pass (Object_keys g1) g1) as (g' & H2 & _).
    + eapply Permutation_NoDup; [symmetry; apply Object_keys_perm | exact Hnd].
    + exact Hnd.
    + apply Object_keys_own.
    + congruence.
  - eapply first_pass_thrown; eassumption.
Qed.

End GroupingFacts.

(* ================================================================== *)
(** * Claims about grouping                                            *)
(* ================================================================== *)

(** Whatever grouping returns: every group is in ascending frame order,
    has at least two frames, and is the sorted list of the frames the
    listing holds for its base name; every base name with at least two
    frames is there. *)
Lemma group_files_result (path_join : string -> string -> string) (dir : string)
  (files : list string) (groups : Groups) :
  group_files path_join dir files = Ok groups ->
  (forall b frames, own b groups = Some frames ->
     Sorted frame_le frames /\ (2 <= List.length frames)%nat
     /\ frames = js_sort by_frame (members path_join dir b files))
  /\ (forall b, (2 <= List.length (members path_join dir b files))%nat ->
        own b groups = Some (js_sort by_frame (members path_join dir b files))).
Proof.
  intros H. pose proof (group_files_own _ _ _ _ H) as Hown. split.
  - intros b frames Hb. rewrite Hown in Hb.
    destruct (Nat.ltb_spec (List.length (members path_join dir b files)) 2);
      [discriminate|].
    inversion Hb; subst. repeat split.
    + apply js_sort_by_frame_sorted, members_frame_ok.
    + now rewrite js_sort_length.
  - intros b Hlen. rewrite Hown.
    destruct (Nat.ltb_spec (List.length (members path_join dir b files)) 2);
      [lia | reflexivity].
Qed.

(** C1, at the failing input.  Two frames of a texture named
    [constructor] make [groupImagesByBaseName] and
    [groupTransparentImagesByBaseName] throw a TypeError instead of
    returning the group: the lookup [groups[baseName]] finds the
    inherited [Object.prototype.constructor], so no array is created and
    [push] is missing.  The same two frames under another name are
    grouped and sorted. *)
Theorem grouping_throws_on_inherited_name :
  let disk := mkDisk [GifCreator.texturesDir; TransparentGifCreator.transparentDir]
                     inherited_name_listing [] in
  res (GifCreator.groupImagesByBaseName (simple_host None) (start disk))
  = Throw "TypeError: groups[baseName].push is not a function"
  /\ res (TransparentGifCreator.groupTransparentImagesByBaseName (simple_host None) (start disk))
     = Throw "TypeError: groups[baseName].push is not a function"
  /\ members (fun a b => a ++ "/" ++ b) "d" "constructor" inherited_name_listing
     = [ mkFrame "constructor_0.png" (Fin 0) "d/constructor_0.png";
         mkFrame "constructor_1.png" (Fin 1) "d/constructor_1.png" ]
  /\ group_files (fun a b => a ++ "/" ++ b) "d" ["door_1.png"; "door_0.png"]
     = Ok [("door", [ mkFrame "door_0.png" (Fin 0) "d/door_0.png";
                      mkFrame "door_1.png" (Fin 1) "d/door_1.png" ])].
Proof. vm_compute. repeat split. Qed.

Lemma Sorted_le_NoDup_lt (l : list Frame) :
  Sorted frame_le l -> NoDup (map frame l) -> Sorted frame_lt l.
Proof.
  induction 1 as [|x l Hs IH Hhd]; intros Hnd; [constructor|].
  simpl in Hnd. inversion Hnd as [|? ? Hnotin Hnd']; subst.
  constructor; [now apply IH|].
  destruct Hhd as [|y l' Hxy]; constructor.
  apply num_leb_neq_ltb; [exact Hxy|].
  intros E. apply Hnotin. simpl. now left.
Qed.

(** C4, as stated, fails: [a_1.png] and [a_01.png] are two members of
    group [a] with the same frame index 1. *)
Lemma frame_index_not_unique :
  exists frames,
    group_files (fun a b => a ++ "/" ++ b) "d" leading_zero_listing
    = Ok [("a", frames)]
    /\ map frame frames = [Fin 1; Fin 1]
    /\ ~ NoDup (map frame frames)
    /\ ~ Sorted frame_lt frames.
Proof.
  eexists. split; [vm_compute; reflexivity|]. split; [reflexivity|]. split.
  - simpl. intros H. inversion H as [|? ? Hnotin _]; subst. apply Hnotin. now left.
  - intros H. inversion H as [|? ? _ Hhd]; subst.
    inversion Hhd as [|? ? Hlt]; subst. discriminate Hlt.
Qed.

(** C4, amended.  In every group that grouping returns the frame indices
    are in non-decreasing order; they are pairwise distinct and strictly
    increasing whenever the member files of the group carry pairwise
    distinct frame indices. *)
Theorem group_frames_ascending
  (path_join : string -> string -> string) (dir : string)
  (files : list string) (groups : Groups) (b : string) (frames : list Frame) :
  group_files path_join dir files = Ok groups ->
  own b groups = Some frames ->
  Sorted frame_le frames
  /\ Permutation (members path_join dir b files) frames
  /\ (NoDup (map frame (members path_join dir b files)) ->
      NoDup (map frame frames) /\ Sorted frame_lt frames).
Proof.
  intros H Hb.
  destruct (group_files_result _ _ _ _ H) as [Hres _].
  destruct (Hres b frames Hb) as (Hsorted & _ & ->).
  split; [assumption|]. split; [apply js_sort_perm|].
  intros Hnd.
  assert (Hnd' : NoDup (map frame (js_sort by_frame (members path_join dir b files)))).
  { eapply Permutation_NoDup; [|exact Hnd]. apply Permutation_map, js_sort_perm. }
  split; [assumption | now apply Sorted_le_NoDup_lt].
Qed.

(** The frames of [crate], listed out of order, come back ascending. *)
Lemma group_frames_ascending_witness :
  let frames := [ mkFrame "crate_0.png" (Fin 0) "d/crate_0.png";
                  mkFrame "crate_1.png" (Fin 1) "d/crate_1.png";
                  mkFrame "crate_2.png" (Fin 2) "d/crate_2.png" ] in
  Sorted frame_le frames
  /\ Permutation
       (members (fun a b => a ++ "/" ++ b) "d" "crate"
                ["crate_2.png"; "crate_0.png"; "crate_1.png"])
       frames
  /\ (NoDup (map frame
              (members (fun a b => a ++ "/" ++ b) "d" "crate"
                       ["crate_2.png"; "crate_0.png"; "crate_1.png"])) ->
      NoDup (map frame frames) /\ Sorted frame_lt frames).
Proof.
  intros frames.
  apply (group_frames_ascending (fun a b => a ++ "/" ++ b) "d"
           ["crate_2.png"; "crate_0.png"; "crate_1.png"]
           [("crate", frames)] "crate" frames).
  - vm_compute. reflexivity.
  - vm_compute. reflexivity.
Defined.

(* ------------------------------------------------------------------ *)
(** ** Names with several trailing [_<digits>] groups                  *)
(* ------------------------------------------------------------------ *)

Lemma last_char_app (s : string) (c : ascii) : last_char (s ++ String c "") = Some c.
Proof.
  induction s as [|c' s IH]; [reflexivity|].
  simpl. rewrite IH. now destruct (s ++ String c "") eqn:E; [destruct s; discriminate|].
Qed.

(** No property of [Object.prototype] has a name that ends in a digit. *)
Lemma inherited_last_char (b : string) (c : ascii) :
  last_char b = Some c -> is_digit c = true -> inherited b = false.
Proof.
  intros Hlast Hc. unfold inherited.
  destruct (existsb (String.eqb b) object_prototype_keys) eqn:He; [|reflexivity].
  exfalso. apply existsb_exists in He as (k & Hk & E).
  apply String.eqb_eq in E. subst k.
  simpl in Hk.
  repeat (destruct Hk as [<- | Hk];
          [simpl in Hlast; inversion Hlast; subst; discriminate Hc|]).
  contradiction.
Qed.

Lemma inherited_digits_suffix (x d : string) :
  is_digits d = true -> inherited (x ++ "_" ++ d) = false.
Proof.
  intros Hd. unfold is_digits in Hd. apply andb_true_iff in Hd as [Hne Hd].
  destruct (nonempty_last d Hne) as (d' & c & ->).
  rewrite all_chars_app in Hd. apply andb_true_iff in Hd as [_ Hc].
  simpl in Hc. rewrite andb_true_r in Hc.
  apply inherited_last_char with (c := c); [|assumption].
  replace (x ++ "_" ++ d' ++ String c "") with ((x ++ "_" ++ d') ++ String c "")
    by (now rewrite !append_assoc).
  apply last_char_app.
Qed.

Lemma append_neq_self (x t : string) : nonempty t = true -> x <> x ++ t.
Proof.
  intros Ht. induction x as [|c x IH]; simpl.
  - destruct t; [discriminate Ht | discriminate].
  - intros E. inversion E. contradiction.
Qed.

(** A file name [x_d1_d2.png] whose part [x] holds no line terminator:
    the pattern captures [x_d1] as base name and [d2] as frame digits;
    the file is filed under [x_d1], after the frames already there, and
    what is filed under [x] does not change. *)
Lemma last_digit_group_is_frame
  (path_join : string -> string -> string) (dir : string)
  (x d1 d2 : string) (groups : Groups) :
  one_line x = true -> is_digits d1 = true -> is_digits d2 = true ->
  let f := x ++ "_" ++ d1 ++ "_" ++ d2 ++ ".png" in
  let baseName := x ++ "_" ++ d1 in
  regex_match f = Some (baseName, d2)
  /\ exists groups',
       visit_file path_join dir groups f = Ok groups'
       /\ own baseName groups'
          = Some (frames_of groups baseName
                  ++ [mkFrame f (parseInt d2) (path_join dir f)])%list
       /\ own x groups' = own x groups.
Proof.
  intros Hx Hd1 Hd2 f baseName.
  assert (Hm : regex_match f = Some (baseName, d2)).
  { unfold f, baseName, regex_match.
    replace (x ++ "_" ++ d1 ++ "_" ++ d2 ++ ".png")
      with ((x ++ "_" ++ d1) ++ "_" ++ d2 ++ ".png")
      by (now rewrite !append_assoc).
    apply match_groups_complete; [| |assumption].
    - destruct x; reflexivity.
    - unfold is_digits in Hd1. apply andb_true_iff in Hd1 as [_ Hd1].
      apply one_line_app_plain; [assumption| |reflexivity].
      apply all_plain_one_line. cbn [String.append all_chars].
      now rewrite (all_chars_impl is_digit plain d1 is_digit_plain Hd1). }
  split; [assumption|].
  rewrite visit_file_accept, accept_regex, Hm.
  destruct (push_frame groups baseName (mkFrame f (parseInt d2) (path_join dir f)))
    as [groups'|e] eqn:Hp.
  - exists groups'. split; [reflexivity|].
    pose proof (push_frame_own _ _ _ _ Hp) as Hown. split.
    + rewrite Hown, String.eqb_refl. unfold frames_of.
      now destruct (own baseName groups).
    + rewrite Hown.
      destruct (String.eqb_spec x baseName) as [E|_]; [|reflexivity].
      exfalso. revert E. apply append_neq_self. reflexivity.
  - exfalso. unfold push_frame in Hp.
    destruct (own baseName groups); [discriminate|].
    unfold baseName in Hp. rewrite (inherited_digits_suffix x d1 Hd1) in Hp.
    discriminate.
Qed.

(** [room_12_3.png] is frame 3 of [room_12]. *)
Lemma last_digit_group_is_frame_witness :
  regex_match "room_12_3.png" = Some ("room_12", "3")
  /\ exists groups',
       visit_file (fun a b => a ++ "/" ++ b) "d" [] "room_12_3.png" = Ok groups'
       /\ own "room_12" groups'
          = Some [mkFrame "room_12_3.png" (Fin 3) "d/room_12_3.png"]
       /\ own "room" groups' = None.
Proof.
  apply (last_digit_group_is_frame (fun a b => a ++ "/" ++ b) "d" "room" "12" "3" []);
    reflexivity.
Defined.

(** A line terminator stays one when more text follows. *)
Lemma one_line_app_false (s t : string) :
  one_line s = false -> one_line (s ++ t) = false.
Proof.
  induction s as [|c r IH]; [discriminate|].
  intros H. change (String c r ++ t) with (String c (r ++ t)).
  cbn [one_line] in H |- *.
  apply andb_false_iff in H as [H | H]; apply andb_false_iff.
  - left. apply negb_false_iff in H. apply negb_false_iff.
    change (String c (r ++ t)) with (String c r ++ t).
    now apply line_terminator_at_prefix.
  - right. now apply IH.
Qed.

(** C6, at the failing input.  The comment in the code reads
    "everything before the last underscore and number", and for a name
    [b_d.png] that is [b].  The pattern delivers it only when [b] holds
    no line terminator: [a<LF>_12_3.png] and [a<U+2028>_12_3.png] end
    in two underscore-digit groups, yet the pattern returns [null] and
    the files are skipped, so that two frames of [a<LF>_12] give no
    group where two frames of [a_12] give one.  Every name whose base
    holds a line terminator is skipped in the same way; every other
    name [x_d1_d2.png] is frame [d2] of [x_d1], not of [x]. *)
Theorem name_with_line_terminator_is_skipped :
  (two_line_name = ("a" ++ LF ++ "_12") ++ "_" ++ "3" ++ ".png"
   /\ regex_match two_line_name = None
   /\ extname two_line_name = ".png"
   /\ visit_file (fun a b => a ++ "/" ++ b) "d" [] two_line_name = Ok []
   /\ group_files (fun a b => a ++ "/" ++ b) "d"
        [two_line_name; "a" ++ LF ++ "_12_4.png"] = Ok []
   /\ group_files (fun a b => a ++ "/" ++ b) "d" ["a_12_3.png"; "a_12_4.png"]
      = Ok [("a_12", [ mkFrame "a_12_3.png" (Fin 3) "d/a_12_3.png";
                       mkFrame "a_12_4.png" (Fin 4) "d/a_12_4.png" ])])
  /\ (line_separator_name = ("a" ++ LS ++ "_12") ++ "_" ++ "3" ++ ".png"
      /\ regex_match line_separator_name = None
      /\ visit_file (fun a b => a ++ "/" ++ b) "d" [] line_separator_name = Ok [])
  /\ (forall (path_join : string -> string -> string) (dir : string)
             (groups : Groups) (b d : string),
        one_line b = false ->
        regex_match (b ++ "_" ++ d ++ ".png") = None
        /\ visit_file path_join dir groups (b ++ "_" ++ d ++ ".png") = Ok groups)
  /\ (forall (path_join : string -> string -> string) (dir : string)
             (groups : Groups) (x d1 d2 : string),
        one_line x = true -> is_digits d1 = true -> is_digits d2 = true ->
        let f := x ++ "_" ++ d1 ++ "_" ++ d2 ++ ".png" in
        regex_match f = Some (x ++ "_" ++ d1, d2)
        /\ exists groups',
             visit_file path_join dir groups f = Ok groups'
             /\ own (x ++ "_" ++ d1) groups'
                = Some (frames_of groups (x ++ "_" ++ d1)
                        ++ [mkFrame f (parseInt d2) (path_join dir f)])%list
             /\ own x groups' = own x groups).
Proof.
  split; [vm_compute; repeat split|].
  split; [vm_compute; repeat split|].
  split.
  - intros path_join dir groups b d Hb.
    assert (Hm : regex_match (b ++ "_" ++ d ++ ".png") = None).
    { unfold regex_match. apply match_groups_line_terminator.
      now apply one_line_app_false. }
    split; [exact Hm|].
    now rewrite visit_file_accept, accept_regex, Hm.
  - intros path_join dir groups x d1 d2 Hx Hd1 Hd2.
    exact (last_digit_group_is_frame path_join dir x d1 d2 groups Hx Hd1 Hd2).
Qed.

(* ================================================================== *)
(** * Running code step by step                                        *)
(* ================================================================== *)

Section Steps.
Context {World : Type} (host : Host World).

Lemma run_eta {A} (r : Run World A) : mkRun (events r) (final r) (res r) = r.
Proof. now destruct r. Qed.

Lemma prepend_nil {A} (r : Run World A) : prepend [] r = r.
Proof. unfold prepend. simpl. apply run_eta. Qed.

Lemma prepend_prepend {A} (e1 e2 : list Event) (r : Run World A) :
  prepend e1 (prepend e2 r) = prepend (e1 ++ e2) r.
Proof. unfold prepend. simpl. now rewrite app_assoc. Qed.

Lemma bind_ret {A B} (a : A) (k : A -> M World B) (s : Proc World) :
  bind (ret a) k s = k a s.
Proof. unfold bind, ret. simpl. apply run_eta. Qed.

Lemma bind_emit {B} (ev : Event) (k : unit -> M World B) (s : Proc World) :
  bind (emit ev) k s = prepend [ev] (k tt s).
Proof. reflexivity. Qed.

Lemma bind_log {B} (msg : string) (k : unit -> M World B) (s : Proc World) :
  bind (console_log msg) k s = prepend [EvLog msg] (k tt s).
Proof. reflexivity. Qed.

Lemma bind_error {B} (msg : string) (k : unit -> M World B) (s : Proc World) :
  bind (console_error msg) k s = prepend [EvError msg] (k tt s).
Proof. reflexivity. Qed.

Lemma bind_throw {A B} (e : Error) (k : A -> M World B) (s : Proc World) :
  bind (throw e) k s = mkRun [] s (Throw e).
Proof. reflexivity. Qed.

Lemma bind_exit {A B} (c : Z) (k : A -> M World B) (s : Proc World) :
  bind (process_exit c) k s = mkRun [EvExit c] s (Exit c).
Proof. reflexivity. Qed.

Lemma bind_get {B} (k : option string -> M World B) (s : Proc World) :
  bind get_imageMagickPath k s = k (imageMagickPath s) s.
Proof. unfold bind, get_imageMagickPath. simpl. apply run_eta. Qed.

Lemma bind_set {B} (v : string) (k : unit -> M World B) (s : Proc World) :
  bind (set_imageMagickPath v) k s = k tt (mkProc (world s) (Some v)).
Proof. unfold bind, set_imageMagickPath. simpl. apply run_eta. Qed.

Lemma bind_exec {B} (c : string) (k : option Error -> M World B) (s : Proc World) :
  bind (exec host c) k s
  = prepend [EvExec c (fst (host_exec host c (world s)))]
      (k (fst (host_exec host c (world s)))
         (with_world s (snd (host_exec host c (world s))))).
Proof. unfold bind, exec. now destruct (host_exec host c (world s)). Qed.

Lemma bind_existsSync {B} (p : string) (k : bool -> M World B) (s : Proc World) :
  bind (existsSync host p) k s
  = prepend [EvExistsSync p (fst (host_existsSync host p (world s)))]
      (k (fst (host_existsSync host p (world s)))
         (with_world s (snd (host_existsSync host p (world s))))).
Proof. unfold bind, existsSync. now destruct (host_existsSync host p (world s)). Qed.

Lemma bind_assoc {A B C} (m : M World A) (k : A -> M World B) (h : B -> M World C)
  (s : Proc World) :
  bind (bind m k) h s = bind m (fun a => bind (k a) h) s.
Proof.
  unfold bind. destruct (res (m s)) eqn:Hm; simpl; try reflexivity.
  destruct (res (k a (final (m s)))); simpl; try reflexivity.
  now rewrite app_assoc.
Qed.

Lemma bind_Value {A B} (m : M World A) (k : A -> M World B) (s : Proc World) (a : A) :
  res (m s) = Value a ->
  bind m k s = prepend (events (m s)) (k a (final (m s))).
Proof. unfold bind. now intros ->. Qed.

Lemma bind_Throw {A B} (m : M World A) (k : A -> M World B) (s : Proc World) (e : Error) :
  res (m s) = Throw e ->
  bind m k s = mkRun (events (m s)) (final (m s)) (Throw e).
Proof. unfold bind. now intros ->. Qed.

Lemma bind_Exit {A B} (m : M World A) (k : A -> M World B) (s : Proc World) (c : Z) :
  res (m s) = Exit c ->
  bind m k s = mkRun (events (m s)) (final (m s)) (Exit c).
Proof. unfold bind. now intros ->. Qed.

Lemma try_catch_Value {A} (m : M World A) (h : Error -> M World A) (s : Proc World) (a : A) :
  res (m s) = Value a -> try_catch m h s = m s.
Proof. unfold try_catch. now intros ->. Qed.

Lemma try_catch_Exit {A} (m : M World A) (h : Error -> M World A) (s : Proc World) (c : Z) :
  res (m s) = Exit c -> try_catch m h s = m s.
Proof. unfold try_catch. now intros ->. Qed.

Lemma try_catch_Throw {A} (m : M World A) (h : Error -> M World A) (s : Proc World) (e : Error) :
  res (m s) = Throw e ->
  try_catch m h s = prepend (events (m s)) (h e (final (m s))).
Proof. unfold try_catch. now intros ->. Qed.

Lemma res_prepend {A} (evs : list Event) (r : Run World A) : res (prepend evs r) = res r.
Proof. reflexivity. Qed.

Lemma final_prepend {A} (evs : list Event) (r : Run World A) : final (prepend evs r) = final r.
Proof. reflexivity. Qed.

Lemma events_prepend {A} (evs : list Event) (r : Run World A) :
  events (prepend evs r) = (evs ++ events r)%list.
Proof. reflexivity. Qed.

Lemma exit_code_prepend {A} (evs : list Event) (r : Run World A) :
  exit_code (prepend evs r) = exit_code r.
Proof. reflexivity. Qed.

End Steps.

(** One step of symbolic execution of a run. *)
Ltac run_step :=
  first [ rewrite bind_assoc | rewrite bind_ret | rewrite bind_log
        | rewrite bind_error | rewrite bind_emit | rewrite bind_throw
        | rewrite bind_exit | rewrite bind_get | rewrite bind_set
        | rewrite bind_exec | rewrite bind_existsSync
        | rewrite res_prepend | rewrite final_prepend | rewrite events_prepend ].

Ltac run := repeat run_step.

(* ================================================================== *)
(** * The probe always resolves                                        *)
(* ================================================================== *)

Section ProbeFacts.
Context {World : Type} (host : Host World).

Lemma TM_search_commonPaths_res (paths : list string) (s : Proc World) :
  res (TransparencyMaker.search_commonPaths host paths s) = Value None
  \/ res (TransparencyMaker.search_commonPaths host paths s) = Value (Some "imagemagick-path").
Proof.
  revert s. induction paths as [|p paths IH]; intros s; [now left|].
  cbn [TransparencyMaker.search_commonPaths]. rewrite bind_existsSync, res_prepend.
  destruct (fst (host_existsSync host p (world s))); [|apply IH].
  right. reflexivity.
Qed.

Lemma GC_search_commonPaths_res (paths : list string) (s : Proc World) :
  res (GifCreator.search_commonPaths host paths s) = Value None
  \/ res (GifCreator.search_commonPaths host paths s) = Value (Some "imagemagick-path").
Proof.
  revert s. induction paths as [|p paths IH]; intros s; [now left|].
  cbn [GifCreator.search_commonPaths]. rewrite bind_log, res_prepend.
  rewrite bind_existsSync, res_prepend.
  destruct (fst (host_existsSync host p (world s))); [|apply IH].
  right. reflexivity.
Qed.

Lemma TM_checkDependencies_resolves (s : Proc World) :
  exists tool, res (TransparencyMaker.checkDependencies host s) = Value tool
               /\ In tool probe_answers.
Proof.
  unfold TransparencyMaker.checkDependencies.
  rewrite bind_exec, res_prepend.
  destruct (fst (host_exec host "magick -version" (world s))) as [e1|];
    [|eexists; split; [reflexivity | simpl; tauto]].
  rewrite bind_exec, res_prepend.
  match goal with |- context [fst (host_exec host "convert -version" ?w)] =>
    destruct (fst (host_exec host "convert -version" w)) as [e2|] end;
    [|eexists; split; [reflexivity | simpl; tauto]].
  match goal with |- context [bind ?m ?k ?s1] => set (s' := s1) end.
  destruct (truthy (env_MAGICK_PATH host)).
  - rewrite bind_assoc, bind_existsSync, res_prepend.
    destruct (fst (host_existsSync host _ (world s'))).
    + eexists; split; [reflexivity | simpl; tauto].
    + rewrite bind_ret.
      match goal with |- context [bind (TransparencyMaker.search_commonPaths host ?ps) ?k ?s1] =>
        destruct (TM_search_commonPaths_res ps s1) as [Hr|Hr];
        rewrite (bind_Value _ _ _ _ Hr), res_prepend end.
      * rewrite bind_exec, res_prepend.
        match goal with |- context [fst (host_exec host "ffmpeg -version" ?w)] =>
          destruct (fst (host_exec host "ffmpeg -version" w)) end;
          eexists; (split; [reflexivity | simpl; tauto]).
      * eexists; split; [reflexivity | simpl; tauto].
  - rewrite bind_ret.
    match goal with |- context [bind (TransparencyMaker.search_commonPaths host ?ps) ?k ?s1] =>
      destruct (TM_search_commonPaths_res ps s1) as [Hr|Hr];
      rewrite (bind_Value _ _ _ _ Hr), res_prepend end.
    + rewrite bind_exec, res_prepend.
      match goal with |- context [fst (host_exec host "ffmpeg -version" ?w)] =>
        destruct (fst (host_exec host "ffmpeg -version" w)) end;
        eexists; (split; [reflexivity | simpl; tauto]).
    + eexists; split; [reflexivity | simpl; tauto].
Qed.

End ProbeFacts.

Section ProbeFactsGif.
Context {World : Type} (host : Host World).

Lemma GC_checkDependencies_resolves (s : Proc World) :
  exists tool, res (GifCreator.checkDependencies host s) = Value tool
               /\ In tool probe_answers.
Proof.
  assert (Htail : forall s1,
    exists tool,
      res (bind (console_log "🔍 Searching common installation paths...")
             (fun _ =>
                bind (GifCreator.search_commonPaths host commonPaths)
                  (fun found =>
                     match found with
                     | Some tool => ret (Some tool)
                     | None =>
                         bind (console_log "Trying FFmpeg...")
                           (fun _ =>
                              bind (exec host "ffmpeg -version")
                                (fun error =>
                                   match error with
                                   | None =>
                                       bind (console_log "FFmpeg detected")
                                         (fun _ => ret (Some "ffmpeg"))
                                   | Some _ =>
                                       bind (console_log "No image processing tools found")
                                         (fun _ => ret None)
                                   end))
                     end)) s1) = Value tool
      /\ In tool probe_answers).
  { intros s1. rewrite bind_log, res_prepend.
    destruct (GC_search_commonPaths_res host commonPaths s1) as [Hr|Hr];
      rewrite (bind_Value _ _ _ _ Hr), res_prepend.
    - rewrite bind_log, res_prepend, bind_exec, res_prepend.
      match goal with |- context [fst (host_exec host "ffmpeg -version" ?w)] =>
        destruct (fst (host_exec host "ffmpeg -version" w)) end;
        eexists; (split; [reflexivity | simpl; tauto]).
    - eexists; split; [reflexivity | simpl; tauto]. }
  unfold GifCreator.checkDependencies.
  rewrite bind_exec, res_prepend.
  destruct (fst (host_exec host "magick -version" (world s))) as [e1|];
    [|eexists; split; [reflexivity | simpl; tauto]].
  rewrite bind_exec, res_prepend.
  match goal with |- context [fst (host_exec host "convert -version" ?w)] =>
    destruct (fst (host_exec host "convert -version" w)) as [e2|] end;
    [|eexists; split; [reflexivity | simpl; tauto]].
  rewrite bind_log, res_prepend.
  destruct (truthy (env_MAGICK_PATH host)).
  - run.
    match goal with |- context [if ?b then _ else _] => destruct b end.
    + eexists; split; [reflexivity | simpl; tauto].
    + run. apply Htail.
  - run. apply Htail.
Qed.

End ProbeFactsGif.

(** C9.  In every environment and from every state, [checkDependencies]
    (the text shared by transparency-maker.js and
    transparent-gif-creator.js, and the one of gifcreator.js) resolves:
    its run ends with a value, one of the four tool names or [null],
    never with an exception and never in [process.exit]. *)
Theorem checkDependencies_always_resolves
  {World : Type} (host : Host World) (s : Proc World) :
  (exists tool, res (TransparencyMaker.checkDependencies host s) = Value tool
                /\ In tool probe_answers)
  /\ (exists tool, res (TransparentGifCreator.checkDependencies host s) = Value tool
                   /\ In tool probe_answers)
  /\ (exists tool, res (GifCreator.checkDependencies host s) = Value tool
                   /\ In tool probe_answers).
Proof.
  split; [apply TM_checkDependencies_resolves|].
  split; [apply TM_checkDependencies_resolves | apply GC_checkDependencies_resolves].
Qed.

(* ================================================================== *)
(** * The probe follows the specified order                            *)
(* ================================================================== *)

Section ProbeOrder.
Context {World : Type} (host : Host World).

Lemma silent_app (e1 e2 : list Event) : silent (e1 ++ e2) = (silent e1 ++ silent e2)%list.
Proof. apply filter_app. Qed.

Lemma sbc_refl {A} (r : Run World A) : same_but_console r r.
Proof. now repeat split. Qed.

Lemma sbc_prepend {A} (evs : list Event) (r r' : Run World A) :
  same_but_console r r' -> same_but_console (prepend evs r) (prepend evs r').
Proof.
  intros (He & Hf & Hr). repeat split; try assumption.
  simpl. rewrite !silent_app. now f_equal.
Qed.

Lemma sbc_log_l {A} (msg : string) (r r' : Run World A) :
  same_but_console r r' -> same_but_console (prepend [EvLog msg] r) r'.
Proof. intros (He & Hf & Hr). now repeat split. Qed.

Lemma TM_search_refines (paths : list string) (s : Proc World) :
  same_but_console
    (bind (TransparencyMaker.search_commonPaths host paths)
       (fun found =>
          match found with
          | Some tool => ret (Some tool)
          | None =>
              bind (exec host "ffmpeg -version")
                (fun error =>
                   match error with
                   | None => bind (console_log "FFmpeg detected") (fun _ => ret (Some "ffmpeg"))
                   | Some _ =>
                       bind (console_log "No image processing tools found")
                         (fun _ => ret None)
                   end)
          end) s)
    (first_success host
       (map PathCheck paths ++ [VersionQuery "ffmpeg -version" "ffmpeg"]) s).
Proof.
  revert s. induction paths as [|p paths IH]; intros s.
  - cbn [TransparencyMaker.search_commonPaths map app first_success]. run.
    apply sbc_prepend.
    destruct (fst (host_exec host "ffmpeg -version" (world s))); run;
      apply sbc_log_l, sbc_refl.
  - cbn [TransparencyMaker.search_commonPaths map app first_success]. run.
    apply sbc_prepend.
    destruct (fst (host_existsSync host p (world s))).
    + run. apply sbc_log_l, sbc_refl.
    + apply IH.
Qed.

(** The probe of transparency-maker.js and transparent-gif-creator.js
    makes the same calls with the same answers, in the same order, and
    ends in the same state with the same result as the first-success
    walk over the specified steps. *)
Lemma TM_checkDependencies_refines (s : Proc World) :
  same_but_console
    (TransparencyMaker.checkDependencies host s)
    (first_success host (probe_steps (env_MAGICK_PATH host)) s).
Proof.
  unfold TransparencyMaker.checkDependencies, probe_steps.
  cbn [app first_success]. run. apply sbc_prepend.
  destruct (fst (host_exec host "magick -version" (world s))) as [e1|];
    [|run; apply sbc_log_l, sbc_refl].
  run. apply sbc_prepend.
  match goal with |- context [fst (host_exec host "convert -version" ?w)] =>
    destruct (fst (host_exec host "convert -version" w)) as [e2|] end;
    [|run; apply sbc_log_l, sbc_refl].
  destruct (truthy (env_MAGICK_PATH host)).
  - cbn [app first_success]. run. apply sbc_prepend.
    match goal with |- context [if ?b then _ else _] => destruct b end.
    + run. apply sbc_log_l, sbc_refl.
    + run. apply TM_search_refines.
  - cbn [app]. run. apply TM_search_refines.
Qed.

(** What the first-success walk leaves in process-wide state. *)
Lemma first_success_records (steps : list ProbeStep) (s : Proc World) :
  plain_queries steps ->
  let r := first_success host steps s in
  (exists p, res r = Value (Some "imagemagick-path")
             /\ In (PathCheck p) steps
             /\ In (EvExistsSync p true) (events r)
             /\ imageMagickPath (final r) = Some (quoted p))
  \/ (exists tool, res r = Value tool
                   /\ tool <> Some "imagemagick-path"
                   /\ imageMagickPath (final r) = imageMagickPath s).
Proof.
  revert s. induction steps as [|[command tool|p] steps IH]; intros s Hplain; cbn zeta.
  - right. exists None. repeat split. discriminate.
  - inversion Hplain as [|? ? Htool Hrest]; subst.
    cbn [first_success]. run.
    destruct (fst (host_exec host command (world s))).
    + destruct (IH (with_world s (snd (host_exec host command (world s)))) Hrest)
        as [(p & Hr & Hin & Hev & Hg) | (t & Hr & Ht & Hg)].
      * left. exists p. repeat split; try assumption; [now right | now right].
      * right. exists t. now repeat split.
    + right. exists (Some tool). repeat split. congruence.
  - inversion Hplain as [|? ? _ Hrest]; subst.
    cbn [first_success]. run.
    destruct (fst (host_existsSync host p (world s))) eqn:Hp.
    + left. exists p. run. repeat split; now left.
    + destruct (IH (with_world s (snd (host_existsSync host p (world s)))) Hrest)
        as [(p' & Hr & Hin & Hev & Hg) | (t & Hr & Ht & Hg)].
      * left. exists p'. repeat split; try assumption; [now right | now right].
      * right. exists t. now repeat split.
Qed.

Lemma probe_steps_plain (magickPath : option string) : plain_queries (probe_steps magickPath).
Proof.
  unfold plain_queries, probe_steps.
  repeat (apply Forall_cons; [discriminate|]).
  apply Forall_app. split; [destruct (truthy magickPath); repeat constructor|].
  apply Forall_app. split; repeat constructor; discriminate.
Qed.

Lemma In_silent (ev : Event) (evs : list Event) : In ev (silent evs) -> In ev evs.
Proof. unfold silent. intros H. now apply filter_In in H. Qed.

End ProbeOrder.

(* ================================================================== *)
(** * The backend functions, call by call                              *)
(* ================================================================== *)

Section Backends.
Context {World : Type} (host : Host World).

Lemma bind_writeFileSync {B} (p c : string) (k : unit -> M World B) (s : Proc World) :
  bind (writeFileSync host p c) k s
  = match fst (host_writeFileSync host p c (world s)) with
    | None =>
        prepend [EvWriteFileSync p c None]
          (k tt (with_world s (snd (host_writeFileSync host p c (world s)))))
    | Some e =>
        mkRun [EvWriteFileSync p c (Some e)]
              (with_world s (snd (host_writeFileSync host p c (world s)))) (Throw e)
    end.
Proof.
  unfold bind, writeFileSync.
  now destruct (host_writeFileSync host p c (world s)) as [[e|] w].
Qed.

Lemma bind_unlinkSync {B} (p : string) (k : unit -> M World B) (s : Proc World) :
  bind (unlinkSync host p) k s
  = match fst (host_unlinkSync host p (world s)) with
    | None =>
        prepend [EvUnlinkSync p None]
          (k tt (with_world s (snd (host_unlinkSync host p (world s)))))
    | Some e =>
        mkRun [EvUnlinkSync p (Some e)]
              (with_world s (snd (host_unlinkSync host p (world s)))) (Throw e)
    end.
Proof.
  unfold bind, unlinkSync.
  now destruct (host_unlinkSync host p (world s)) as [[e|] w].
Qed.

Lemma bind_mkdirSync {B} (p : string) (k : unit -> M World B) (s : Proc World) :
  bind (mkdirSync host p) k s
  = match fst (host_mkdirSync host p (world s)) with
    | None =>
        prepend [EvMkdirSync p None]
          (k tt (with_world s (snd (host_mkdirSync host p (world s)))))
    | Some e =>
        mkRun [EvMkdirSync p (Some e)]
              (with_world s (snd (host_mkdirSync host p (world s)))) (Throw e)
    end.
Proof.
  unfold bind, mkdirSync.
  now destruct (host_mkdirSync host p (world s)) as [[e|] w].
Qed.

Lemma bind_readdirSync {B} (p : string) (k : list string -> M World B) (s : Proc World) :
  bind (readdirSync host p) k s
  = match fst (host_readdirSync host p (world s)) with
    | Ok files =>
        prepend [EvReaddirSync p (Ok files)]
          (k files (with_world s (snd (host_readdirSync host p (world s)))))
    | Thrown e =>
        mkRun [EvReaddirSync p (Thrown e)]
              (with_world s (snd (host_readdirSync host p (world s)))) (Throw e)
    end.
Proof.
  unfold bind, readdirSync.
  now destruct (host_readdirSync host p (world s)) as [[files|e] w].
Qed.

(** A backend call whose executor ends with a value fulfils its promise
    after the executor's events; one whose executor throws rejects it. *)
Lemma promise_Value {A} (backend : Backend) (b : string) (body : M World A)
  (s : Proc World) (v : A) :
  res (body s) = Value v ->
  promise backend b body s
  = mkRun (EvCall backend b :: events (body s) ++ [EvSettled backend b true])
          (final (body s)) (Value v).
Proof.
  intros H. unfold promise. rewrite bind_emit. unfold try_catch.
  rewrite (bind_Value _ _ _ _ H). run. reflexivity.
Qed.

Lemma promise_Throw {A} (backend : Backend) (b : string) (body : M World A)
  (s : Proc World) (e : Error) :
  res (body s) = Throw e ->
  promise backend b body s
  = mkRun (EvCall backend b :: events (body s) ++ [EvSettled backend b false])
          (final (body s)) (Throw e).
Proof.
  intros H. unfold promise. rewrite bind_emit. unfold try_catch.
  rewrite (bind_Throw _ _ _ _ H). cbn [res events final]. run.
  reflexivity.
Qed.

End Backends.

Section Backends2.
Context {World : Type} (host : Host World).

(** [createGifWithImageMagick], in full. *)
Lemma GC_ImageMagick_run (b : string) (frames : list Frame) (s : Proc World) :
  let out := path_join host GifCreator.outputDir (b ++ ".gif") in
  let command := gif_primary_command (imageMagickPath s) frames out in
  let s' := with_world s (snd (host_exec host command (world s))) in
  GifCreator.createGifWithImageMagick host b frames s
  = match fst (host_exec host command (world s)) with
    | None =>
        mkRun [ EvCall ImageMagick b; EvExec command None;
                EvLog ("✓ Created: " ++ b ++ ".gif ("
                       ++ show_nat (List.length frames) ++ " frames)");
                EvSettled ImageMagick b true ] s' (Value out)
    | Some e =>
        mkRun [ EvCall ImageMagick b; EvExec command (Some e);
                EvError ("Error creating GIF for " ++ b ++ ": " ++ e);
                EvSettled ImageMagick b false ] s' (Throw e)
    end.
Proof.
  cbv zeta. unfold GifCreator.createGifWithImageMagick, gif_primary_command.
  match goal with |- promise _ _ ?body s = _ => set (bd := body) end.
  match goal with |- context [host_exec host ?c (world s)] => set (cmd := c) end.
  assert (Hbd : bd s = prepend [EvExec cmd (fst (host_exec host cmd (world s)))]
            (match fst (host_exec host cmd (world s)) with
             | Some e => mkRun [EvError ("Error creating GIF for " ++ b ++ ": " ++ e)]
                               (with_world s (snd (host_exec host cmd (world s)))) (Throw e)
             | None => mkRun [EvLog ("✓ Created: " ++ b ++ ".gif ("
                                      ++ show_nat (List.length frames) ++ " frames)")]
                             (with_world s (snd (host_exec host cmd (world s))))
                             (Value (path_join host GifCreator.outputDir (b ++ ".gif")))
             end)).
  { unfold bd. rewrite bind_get. fold cmd. rewrite bind_exec.
    destruct (fst (host_exec host cmd (world s))); run; reflexivity. }
  destruct (fst (host_exec host cmd (world s))) as [e|] eqn:He.
  - rewrite (promise_Throw _ _ _ _ e); rewrite Hbd; reflexivity.
  - rewrite (promise_Value _ _ _ _ (path_join host GifCreator.outputDir (b ++ ".gif")));
      rewrite Hbd; reflexivity.
Qed.

(** [createTransparentGifWithImageMagick], in full. *)
Lemma TG_ImageMagick_run (b : string) (frames : list Frame) (s : Proc World) :
  let out := path_join host TransparentGifCreator.outputDir (b ++ ".gif") in
  let command := transparent_primary_command (imageMagickPath s) frames out in
  let s' := with_world s (snd (host_exec host command (world s))) in
  TransparentGifCreator.createTransparentGifWithImageMagick host b frames s
  = match fst (host_exec host command (world s)) with
    | None =>
        mkRun [ EvCall ImageMagick b; EvExec command None;
                EvLog ("Created: " ++ b ++ ".gif ("
                       ++ show_nat (List.length frames) ++ " frames with transparency)");
                EvSettled ImageMagick b true ] s' (Value out)
    | Some e =>
        mkRun [ EvCall ImageMagick b; EvExec command (Some e);
                EvError ("Error creating transparent GIF for " ++ b ++ ": " ++ e);
                EvSettled ImageMagick b false ] s' (Throw e)
    end.
Proof.
  cbv zeta.
  unfold TransparentGifCreator.createTransparentGifWithImageMagick,
    transparent_primary_command.
  match goal with |- promise _ _ ?body s = _ => set (bd := body) end.
  match goal with |- context [host_exec host ?c (world s)] => set (cmd := c) end.
  assert (Hbd : bd s = prepend [EvExec cmd (fst (host_exec host cmd (world s)))]
            (match fst (host_exec host cmd (world s)) with
             | Some e => mkRun [EvError ("Error creating transparent GIF for " ++ b ++ ": " ++ e)]
                               (with_world s (snd (host_exec host cmd (world s)))) (Throw e)
             | None => mkRun [EvLog ("Created: " ++ b ++ ".gif ("
                                      ++ show_nat (List.length frames)
                                      ++ " frames with transparency)")]
                             (with_world s (snd (host_exec host cmd (world s))))
                             (Value (path_join host TransparentGifCreator.outputDir (b ++ ".gif")))
             end)).
  { unfold bd. rewrite bind_get. fold cmd. rewrite bind_exec.
    destruct (fst (host_exec host cmd (world s))); run; reflexivity. }
  destruct (fst (host_exec host cmd (world s))) as [e|] eqn:He.
  - rewrite (promise_Throw _ _ _ _ e); rewrite Hbd; reflexivity.
  - rewrite (promise_Value _ _ _ _
               (path_join host TransparentGifCreator.outputDir (b ++ ".gif")));
      rewrite Hbd; reflexivity.
Qed.

Lemma TM_ImageMagick_run (inputFile outputFile : string) (s : Proc World) :
  let out := path_join host TransparencyMaker.outputDir outputFile in
  let command :=
    transparency_primary_command (imageMagickPath s)
      (path_join host TransparencyMaker.texturesDir inputFile) out in
  let s' := with_world s (snd (host_exec host command (world s))) in
  TransparencyMaker.makeTransparentWithImageMagick host inputFile outputFile s
  = match fst (host_exec host command (world s)) with
    | None =>
        mkRun [ EvCall ImageMagick inputFile; EvExec command None;
                EvLog ("Processed: " ++ inputFile ++ " → " ++ outputFile);
                EvSettled ImageMagick inputFile true ] s' (Value out)
    | Some e =>
        mkRun [ EvCall ImageMagick inputFile; EvExec command (Some e);
                EvError ("Error processing " ++ inputFile ++ ": " ++ e);
                EvSettled ImageMagick inputFile false ] s' (Throw e)
    end.
Proof.
  cbv zeta.
  unfold TransparencyMaker.makeTransparentWithImageMagick, transparency_primary_command.
  match goal with |- promise _ _ ?body s = _ => set (bd := body) end.
  match goal with |- context [host_exec host ?c (world s)] => set (cmd := c) end.
  assert (Hbd : bd s = prepend [EvExec cmd (fst (host_exec host cmd (world s)))]
            (match fst (host_exec host cmd (world s)) with
             | Some e => mkRun [EvError ("Error processing " ++ inputFile ++ ": " ++ e)]
                               (with_world s (snd (host_exec host cmd (world s)))) (Throw e)
             | None => mkRun [EvLog ("Processed: " ++ inputFile ++ " → " ++ outputFile)]
                             (with_world s (snd (host_exec host cmd (world s))))
                             (Value (path_join host TransparencyMaker.outputDir outputFile))
             end)).
  { unfold bd. rewrite bind_get. fold cmd. rewrite bind_exec.
    destruct (fst (host_exec host cmd (world s))); run; reflexivity. }
  destruct (fst (host_exec host cmd (world s))) as [e|] eqn:He.
  - rewrite (promise_Throw _ _ _ _ e); rewrite Hbd; reflexivity.
  - rewrite (promise_Value _ _ _ _
               (path_join host TransparencyMaker.outputDir outputFile));
      rewrite Hbd; reflexivity.
Qed.

End Backends2.

Section Fallback.
Context {World : Type} (host : Host World).

(** The removal never fails: an error of either [unlinkSync] is
    swallowed, and after an error of the first the second is skipped. *)
Lemma cleanup_run (a b : string) (s : Proc World) :
  let s1 := with_world s (snd (host_unlinkSync host a (world s))) in
  let s2 := with_world s1 (snd (host_unlinkSync host b (world s1))) in
  cleanup host a b s
  = match fst (host_unlinkSync host a (world s)) with
    | Some e => mkRun [EvUnlinkSync a (Some e)] s1 (Value tt)
    | None =>
        mkRun [EvUnlinkSync a None;
               EvUnlinkSync b (fst (host_unlinkSync host b (world s1)))]
              s2 (Value tt)
    end.
Proof.
  cbv zeta. unfold cleanup, try_catch. rewrite bind_unlinkSync.
  destruct (fst (host_unlinkSync host a (world s))) as [e|]; [reflexivity|].
  unfold unlinkSync, prepend, with_world. cbn [world imageMagickPath].
  destruct (host_unlinkSync host b (snd (host_unlinkSync host a (world s)))) as [[e|] w];
    reflexivity.
Qed.

Lemma cleanup_res (a b : string) (s : Proc World) : res (cleanup host a b s) = Value tt.
Proof.
  pose proof (cleanup_run a b s) as H. cbv zeta in H. rewrite H.
  now destruct (fst (host_unlinkSync host a (world s))).
Qed.

Lemma cleanup_global (a b : string) (s : Proc World) :
  imageMagickPath (final (cleanup host a b s)) = imageMagickPath s.
Proof.
  pose proof (cleanup_run a b s) as H. cbv zeta in H. rewrite H.
  now destruct (fst (host_unlinkSync host a (world s))).
Qed.

Lemma cleanup_events (a b : string) (s : Proc World) :
  exists u1 rest,
    events (cleanup host a b s) = EvUnlinkSync a u1 :: rest
    /\ Forall (fun ev => is_unlink ev = true) rest.
Proof.
  pose proof (cleanup_run a b s) as H. cbv zeta in H. rewrite H.
  destruct (fst (host_unlinkSync host a (world s))) as [e|].
  - exists (Some e), []. now split.
  - eexists None, _. split; [reflexivity|]. now repeat constructor.
Qed.

Lemma bind_cleanup {B} (a b : string) (k : unit -> M World B) (s : Proc World) :
  bind (cleanup host a b) k s
  = prepend (events (cleanup host a b s)) (k tt (final (cleanup host a b s))).
Proof. apply bind_Value, cleanup_res. Qed.

(** [createTransparentGifWithFFmpeg], in full. *)
Lemma TG_FFmpeg_run (b : string) (frames : list Frame) (s : Proc World) :
  let listFile := path_join host TransparentGifCreator.outputDir (b ++ "_list.txt") in
  let content := list_content host frames in
  let out := path_join host TransparentGifCreator.outputDir (b ++ ".gif") in
  let command := transparent_ffmpeg_command listFile out in
  let s1 := with_world s (snd (host_writeFileSync host listFile content (world s))) in
  let s2 := with_world s1 (snd (host_exec host command (world s1))) in
  let tidy := cleanup host listFile (listFile ++ ".palette.png") s2 in
  TransparentGifCreator.createTransparentGifWithFFmpeg host b frames s
  = match fst (host_writeFileSync host listFile content (world s)) with
    | Some e =>
        mkRun [ EvCall FFmpeg b; EvWriteFileSync listFile content (Some e);
                EvSettled FFmpeg b false ] s1 (Throw e)
    | None =>
        match fst (host_exec host command (world s1)) with
        | Some e =>
            mkRun ([ EvCall FFmpeg b; EvWriteFileSync listFile content None;
                     EvExec command (Some e) ]
                   ++ events tidy
                   ++ [ EvError ("Error creating transparent GIF for " ++ b ++ ": " ++ e);
                        EvSettled FFmpeg b false ])
                  (final tidy) (Throw e)
        | None =>
            mkRun ([ EvCall FFmpeg b; EvWriteFileSync listFile content None;
                     EvExec command None ]
                   ++ events tidy
                   ++ [ EvLog ("Created: " ++ b ++ ".gif ("
                               ++ show_nat (List.length frames)
                               ++ " frames with transparency)");
                        EvSettled FFmpeg b true ])
                  (final tidy) (Value out)
        end
    end.
Proof.
  cbv zeta.
  unfold TransparentGifCreator.createTransparentGifWithFFmpeg.
  match goal with |- promise _ _ ?body s = _ => set (bd := body) end.
  set (listFile := path_join host TransparentGifCreator.outputDir (b ++ "_list.txt")) in *.
  set (out := path_join host TransparentGifCreator.outputDir (b ++ ".gif")) in *.
  fold (list_content host frames) in bd.
  set (content := list_content host frames) in *.
  assert (bd s =
    (bind (writeFileSync host listFile content)
       (fun _ =>
          bind (exec host (transparent_ffmpeg_command listFile out))
            (fun error =>
               bind (cleanup host listFile (listFile ++ ".palette.png"))
                 (fun _ =>
                    match error with
                    | Some e =>
                        bind (console_error
                                ("Error creating transparent GIF for " ++ b ++ ": " ++ e))
                          (fun _ => throw e)
                    | None =>
                        bind (console_log
                                ("Created: " ++ b ++ ".gif ("
                                 ++ show_nat (List.length frames)
                                 ++ " frames with transparency)"))
                          (fun _ => ret out)
                    end))) s)) by reflexivity.
  revert H.
  set (command := transparent_ffmpeg_command listFile out) in *.
  set (s1 := with_world s (snd (host_writeFileSync host listFile content (world s)))).
  set (s2 := with_world s1 (snd (host_exec host command (world s1)))).
  set (tidy := cleanup host listFile (listFile ++ ".palette.png") s2).
  intros Hbd.
  assert (Hrun : bd s
    = match fst (host_writeFileSync host listFile content (world s)) with
      | Some e => mkRun [EvWriteFileSync listFile content (Some e)] s1 (Throw e)
      | None =>
          prepend [EvWriteFileSync listFile content None;
                   EvExec command (fst (host_exec host command (world s1)))]
            (prepend (events tidy)
               match fst (host_exec host command (world s1)) with
               | Some e =>
                   mkRun [EvError ("Error creating transparent GIF for " ++ b ++ ": " ++ e)]
                         (final tidy) (Throw e)
               | None =>
                   mkRun [EvLog ("Created: " ++ b ++ ".gif ("
                                 ++ show_nat (List.length frames)
                                 ++ " frames with transparency)")]
                         (final tidy) (Value out)
               end)
      end).
  { rewrite Hbd. rewrite bind_writeFileSync.
    destruct (fst (host_writeFileSync host listFile content (world s))); [reflexivity|].
    fold s1. rewrite bind_exec. fold s2. rewrite bind_cleanup. fold tidy.
    destruct (fst (host_exec host command (world s1))); run; reflexivity. }
  clear Hbd.
  destruct (fst (host_writeFileSync host listFile content (world s))) as [e|] eqn:Hw.
  - rewrite (promise_Throw _ _ _ _ e); rewrite Hrun; reflexivity.
  - destruct (fst (host_exec host command (world s1))) as [e|] eqn:He.
    + rewrite (promise_Throw _ _ _ _ e); rewrite Hrun; [|reflexivity].
      cbn [events final res prepend app]. now rewrite <- app_assoc.
    + rewrite (promise_Value _ _ _ _ out); rewrite Hrun; [|reflexivity].
      cbn [events final res prepend app]. now rewrite <- app_assoc.
Qed.

End Fallback.

Section FallbackGif.
Context {World : Type} (host : Host World).

(** [createGifWithFFmpeg], in full.  When the palette pass fails the
    promise is rejected at once: the removal of the temporary files is
    not reached. *)
Lemma GC_FFmpeg_run (b : string) (frames : list Frame) (s : Proc World) :
  let listFile := path_join host GifCreator.outputDir (b ++ "_list.txt") in
  let content := list_content host frames in
  let out := path_join host GifCreator.outputDir (b ++ ".gif") in
  let paletteFile := path_join host GifCreator.outputDir (b ++ "_palette.png") in
  let command1 := gif_palette_command listFile paletteFile in
  let command2 := gif_encode_command listFile paletteFile out in
  let s1 := with_world s (snd (host_writeFileSync host listFile content (world s))) in
  let s2 := with_world s1 (snd (host_exec host command1 (world s1))) in
  let s3 := with_world s2 (snd (host_exec host command2 (world s2))) in
  let tidy := cleanup host listFile paletteFile s3 in
  GifCreator.createGifWithFFmpeg host b frames s
  = match fst (host_writeFileSync host listFile content (world s)) with
    | Some e =>
        mkRun [ EvCall FFmpeg b; EvWriteFileSync listFile content (Some e);
                EvSettled FFmpeg b false ] s1 (Throw e)
    | None =>
        match fst (host_exec host command1 (world s1)) with
        | Some e1 =>
            mkRun [ EvCall FFmpeg b; EvWriteFileSync listFile content None;
                    EvExec command1 (Some e1); EvSettled FFmpeg b false ]
                  s2 (Throw e1)
        | None =>
            match fst (host_exec host command2 (world s2)) with
            | Some e2 =>
                mkRun ([ EvCall FFmpeg b; EvWriteFileSync listFile content None;
                         EvExec command1 None; EvExec command2 (Some e2) ]
                       ++ events tidy
                       ++ [ EvError ("Error creating GIF for " ++ b ++ ": " ++ e2);
                            EvSettled FFmpeg b false ])
                      (final tidy) (Throw e2)
            | None =>
                mkRun ([ EvCall FFmpeg b; EvWriteFileSync listFile content None;
                         EvExec command1 None; EvExec command2 None ]
                       ++ events tidy
                       ++ [ EvLog ("✓ Created: " ++ b ++ ".gif ("
                                   ++ show_nat (List.length frames) ++ " frames)");
                            EvSettled FFmpeg b true ])
                      (final tidy) (Value out)
            end
        end
    end.
Proof.
  cbv zeta.
  unfold GifCreator.createGifWithFFmpeg.
  match goal with |- promise _ _ ?body s = _ => set (bd := body) end.
  set (listFile := path_join host GifCreator.outputDir (b ++ "_list.txt")) in *.
  set (out := path_join host GifCreator.outputDir (b ++ ".gif")) in *.
  set (paletteFile := path_join host GifCreator.outputDir (b ++ "_palette.png")) in *.
  fold (list_content host frames) in bd.
  set (content := list_content host frames) in *.
  assert (Hbd : bd s =
    (bind (writeFileSync host listFile content)
       (fun _ =>
          bind (exec host (gif_palette_command listFile paletteFile))
            (fun error1 =>
               match error1 with
               | Some e1 => throw e1
               | None =>
                   bind (exec host (gif_encode_command listFile paletteFile out))
                     (fun error2 =>
                        bind (cleanup host listFile paletteFile)
                          (fun _ =>
                             match error2 with
                             | Some e2 =>
                                 bind (console_error
                                         ("Error creating GIF for " ++ b ++ ": " ++ e2))
                                   (fun _ => throw e2)
                             | None =>
                                 bind (console_log
                                         ("✓ Created: " ++ b ++ ".gif ("
                                          ++ show_nat (List.length frames) ++ " frames)"))
                                   (fun _ => ret out)
                             end))
               end)) s)) by reflexivity.
  set (command1 := gif_palette_command listFile paletteFile) in *.
  set (command2 := gif_encode_command listFile paletteFile out) in *.
  set (s1 := with_world s (snd (host_writeFileSync host listFile content (world s)))).
  set (s2 := with_world s1 (snd (host_exec host command1 (world s1)))).
  set (s3 := with_world s2 (snd (host_exec host command2 (world s2)))).
  set (tidy := cleanup host listFile paletteFile s3).
  assert (Hrun : bd s
    = match fst (host_writeFileSync host listFile content (world s)) with
      | Some e => mkRun [EvWriteFileSync listFile content (Some e)] s1 (Throw e)
      | None =>
          match fst (host_exec host command1 (world s1)) with
          | Some e1 =>
              mkRun [EvWriteFileSync listFile content None; EvExec command1 (Some e1)]
                    s2 (Throw e1)
          | None =>
              prepend [EvWriteFileSync listFile content None; EvExec command1 None;
                       EvExec command2 (fst (host_exec host command2 (world s2)))]
                (prepend (events tidy)
                   match fst (host_exec host command2 (world s2)) with
                   | Some e2 =>
                       mkRun [EvError ("Error creating GIF for " ++ b ++ ": " ++ e2)]
                             (final tidy) (Throw e2)
                   | None =>
                       mkRun [EvLog ("✓ Created: " ++ b ++ ".gif ("
                                     ++ show_nat (List.length frames) ++ " frames)")]
                             (final tidy) (Value out)
                   end)
          end
      end).
  { rewrite Hbd. rewrite bind_writeFileSync.
    destruct (fst (host_writeFileSync host listFile content (world s))); [reflexivity|].
    fold s1. rewrite bind_exec. fold s2.
    destruct (fst (host_exec host command1 (world s1))); [reflexivity|].
    rewrite bind_exec. fold s3. rewrite bind_cleanup. fold tidy.
    destruct (fst (host_exec host command2 (world s2))); run; reflexivity. }
  clear Hbd.
  destruct (fst (host_writeFileSync host listFile content (world s))) as [e|] eqn:Hw.
  - rewrite (promise_Throw _ _ _ _ e); rewrite Hrun; reflexivity.
  - destruct (fst (host_exec host command1 (world s1))) as [e1|] eqn:He1.
    + rewrite (promise_Throw _ _ _ _ e1); rewrite Hrun; reflexivity.
    + destruct (fst (host_exec host command2 (world s2))) as [e2|] eqn:He2.
      * rewrite (promise_Throw _ _ _ _ e2); rewrite Hrun; [|reflexivity].
        cbn [events final res prepend app]. now rewrite <- app_assoc.
      * rewrite (promise_Value _ _ _ _ out); rewrite Hrun; [|reflexivity].
        cbn [events final res prepend app]. now rewrite <- app_assoc.
Qed.

End FallbackGif.

(* ================================================================== *)
(** * One group: primary, fallback, count                              *)
(* ================================================================== *)

Section OneGroup.
Context {World : Type} (host : Host World).

Lemma backend_events_app (e1 e2 : list Event) :
  backend_events (e1 ++ e2) = (backend_events e1 ++ backend_events e2)%list.
Proof. apply filter_app. Qed.

Lemma exec_commands_app (e1 e2 : list Event) :
  exec_commands (e1 ++ e2) = (exec_commands e1 ++ exec_commands e2)%list.
Proof. apply flat_map_app. Qed.

Lemma cleanup_quiet (a b : string) (s : Proc World) :
  backend_events (events (cleanup host a b s)) = []
  /\ exec_commands (events (cleanup host a b s)) = [].
Proof.
  pose proof (cleanup_run host a b s) as H. cbv zeta in H. rewrite H.
  now destruct (fst (host_unlinkSync host a (world s))).
Qed.

Lemma GC_ImageMagick_settles (b : string) (frames : list Frame) (s : Proc World) :
  settles ImageMagick b s (GifCreator.createGifWithImageMagick host b frames s).
Proof.
  pose proof (GC_ImageMagick_run host b frames s) as H. cbv zeta in H. rewrite H.
  unfold settles.
  match goal with |- context [fst (host_exec host ?c ?w)] =>
    destruct (fst (host_exec host c w)) as [e|] end.
  - split; [exists false; split; [reflexivity | now exists e]|].
    split; [reflexivity|]. intros Hnone. rewrite Hnone.
    constructor; [left; reflexivity | constructor].
  - split; [exists true; split; [reflexivity | eexists; reflexivity]|].
    split; [reflexivity|]. intros Hnone. rewrite Hnone.
    constructor; [left; reflexivity | constructor].
Qed.

Lemma TG_ImageMagick_settles (b : string) (frames : list Frame) (s : Proc World) :
  settles ImageMagick b s
    (TransparentGifCreator.createTransparentGifWithImageMagick host b frames s).
Proof.
  pose proof (TG_ImageMagick_run host b frames s) as H. cbv zeta in H. rewrite H.
  unfold settles.
  match goal with |- context [fst (host_exec host ?c ?w)] =>
    destruct (fst (host_exec host c w)) as [e|] end.
  - split; [exists false; split; [reflexivity | now exists e]|].
    split; [reflexivity|]. intros Hnone. rewrite Hnone.
    constructor; [left; reflexivity | constructor].
  - split; [exists true; split; [reflexivity | eexists; reflexivity]|].
    split; [reflexivity|]. intros Hnone. rewrite Hnone.
    constructor; [left; reflexivity | constructor].
Qed.

Lemma GC_FFmpeg_settles (b : string) (frames : list Frame) (s : Proc World) :
  settles FFmpeg b s (GifCreator.createGifWithFFmpeg host b frames s).
Proof.
  pose proof (GC_FFmpeg_run host b frames s) as H. cbv zeta in H. rewrite H.
  unfold settles.
  destruct (fst (host_writeFileSync host _ _ (world s))) as [e|].
  { split; [exists false; split; [reflexivity | now exists e]|].
    split; [reflexivity|]. intros _. constructor. }
  match goal with |- context [fst (host_exec host ?c ?w)] =>
    destruct (fst (host_exec host c w)) as [e1|] end.
  { split; [exists false; split; [reflexivity | now exists e1]|].
    split; [reflexivity|]. intros _.
    constructor; [right; reflexivity | constructor]. }
  match goal with |- context [cleanup host ?a ?b' ?s3] =>
    destruct (cleanup_quiet a b' s3) as [Hq1 Hq2];
    pose proof (cleanup_global host a b' s3) as Hg end.
  match goal with |- context [match fst (host_exec host ?c ?w) with _ => _ end] =>
    destruct (fst (host_exec host c w)) as [e2|] end.
  - split; [exists false; split; [|now exists e2]|].
    { cbn [events]. rewrite !backend_events_app, Hq1. reflexivity. }
    split; [cbn [final]; rewrite Hg; reflexivity|].
    intros _. cbn [events]. rewrite !exec_commands_app, Hq2.
    cbn [exec_commands flat_map app].
    repeat (constructor; [right; reflexivity|]). constructor.
  - split; [exists true; split; [|eexists; reflexivity]|].
    { cbn [events]. rewrite !backend_events_app, Hq1. reflexivity. }
    split; [cbn [final]; rewrite Hg; reflexivity|].
    intros _. cbn [events]. rewrite !exec_commands_app, Hq2.
    cbn [exec_commands flat_map app].
    repeat (constructor; [right; reflexivity|]). constructor.
Qed.

Lemma TG_FFmpeg_settles (b : string) (frames : list Frame) (s : Proc World) :
  settles FFmpeg b s
    (TransparentGifCreator.createTransparentGifWithFFmpeg host b frames s).
Proof.
  pose proof (TG_FFmpeg_run host b frames s) as H. cbv zeta in H. rewrite H.
  unfold settles.
  destruct (fst (host_writeFileSync host _ _ (world s))) as [e|].
  { split; [exists false; split; [reflexivity | now exists e]|].
    split; [reflexivity|]. intros _. constructor. }
  match goal with |- context [cleanup host ?a ?b' ?s3] =>
    destruct (cleanup_quiet a b' s3) as [Hq1 Hq2];
    pose proof (cleanup_global host a b' s3) as Hg end.
  match goal with |- context [match fst (host_exec host ?c ?w) with _ => _ end] =>
    destruct (fst (host_exec host c w)) as [e2|] end.
  - split; [exists false; split; [|now exists e2]|].
    { cbn [events]. rewrite !backend_events_app, Hq1. reflexivity. }
    split; [cbn [final]; rewrite Hg; reflexivity|].
    intros _. cbn [events]. rewrite !exec_commands_app, Hq2.
    cbn [exec_commands flat_map app].
    repeat (constructor; [right; reflexivity|]). constructor.
  - split; [exists true; split; [|eexists; reflexivity]|].
    { cbn [events]. rewrite !backend_events_app, Hq1. reflexivity. }
    split; [cbn [final]; rewrite Hg; reflexivity|].
    intros _. cbn [events]. rewrite !exec_commands_app, Hq2.
    cbn [exec_commands flat_map app].
    repeat (constructor; [right; reflexivity|]). constructor.
Qed.

End OneGroup.

Section Driver.
Context {World : Type} (host : Host World).

Lemma console_quiet (note : list Event) :
  Forall (fun ev => is_console ev = true) note ->
  backend_events note = [] /\ exec_commands note = [].
Proof.
  induction 1 as [|ev note Hev _ [IH1 IH2]]; [now split|].
  destruct ev; try discriminate Hev; now split.
Qed.

(** The shape shared by the two driver loops: try the primary backend;
    if its promise is rejected, try the fallback once; if that is
    rejected too, count the group as failed. *)
Lemma one_group_handles {A} (b : string) (t : Tally) (s : Proc World)
  (primary fallback : M World A) (note : list Event) (failed : string) :
  (forall s0, settles ImageMagick b s0 (primary s0)) ->
  (forall s0, settles FFmpeg b s0 (fallback s0)) ->
  Forall (fun ev => is_console ev = true) note ->
  forall (between : M World Tally -> M World Tally),
  (forall m s0, between m s0 = prepend note (m s0)) ->
  exists a,
    handles [b] [a] t s
      (try_catch
         (bind primary (fun _ => ret (mkTally (S (successCount t)) (failCount t))))
         (fun _ =>
            between
              (try_catch
                 (bind fallback
                    (fun _ => ret (mkTally (S (successCount t)) (failCount t))))
                 (fun _ =>
                    bind (console_error failed)
                      (fun _ => ret (mkTally (successCount t) (S (failCount t)))))))
         s).
Proof.
  intros Hp Hf Hnote between Hbetween.
  destruct (console_quiet note Hnote) as [Hnote_be Hnote_ex].
  destruct (Hp s) as ((ok & Hbe & Hres) & Hg & Hc).
  destruct ok.
  - destruct Hres as [v Hv]. exists PrimaryDone.
    erewrite try_catch_Value; [|rewrite (bind_Value _ _ _ _ Hv); reflexivity].
    rewrite (bind_Value _ _ _ _ Hv). unfold handles.
    cbn [res prepend ret events final fold_left bump is_failed driver_events attempt_events].
    rewrite !app_nil_r. repeat split; assumption.
  - destruct Hres as [e He].
    erewrite try_catch_Throw; [|rewrite (bind_Throw _ _ _ _ He); reflexivity].
    rewrite (bind_Throw _ _ _ _ He). cbn [events final].
    rewrite Hbetween.
    destruct (Hf (final (primary s))) as ((ok2 & Hbe2 & Hres2) & Hg2 & Hc2).
    destruct ok2.
    + destruct Hres2 as [v Hv]. exists FallbackDone.
      erewrite try_catch_Value; [|rewrite (bind_Value _ _ _ _ Hv); reflexivity].
      rewrite (bind_Value _ _ _ _ Hv). unfold handles.
      cbn [res prepend ret events final fold_left bump is_failed driver_events attempt_events].
      rewrite !app_nil_r, !backend_events_app, !exec_commands_app.
      rewrite Hbe, Hbe2, Hnote_be, Hnote_ex, Hg2, Hg.
      repeat split. intros Hnone.
      apply Forall_app. split; [now apply Hc|]. apply Hc2. congruence.
    + destruct Hres2 as [e2 He2]. exists BothFailed.
      erewrite try_catch_Throw; [|rewrite (bind_Throw _ _ _ _ He2); reflexivity].
      rewrite (bind_Throw _ _ _ _ He2). cbn [events final]. run. unfold handles.
      cbn [res prepend ret events final fold_left bump is_failed driver_events attempt_events].
      rewrite !app_nil_r, !backend_events_app, !exec_commands_app.
      rewrite Hbe, Hbe2, Hnote_be, Hnote_ex, Hg2, Hg.
      repeat split. intros Hnone.
      apply Forall_app. split; [now apply Hc|].
      rewrite app_nil_r. apply Hc2. congruence.
Qed.

Lemma GC_body_handles (groups : Groups) (b : string) (t : Tally) (s : Proc World) :
  exists a, handles [b] [a] t s (GifCreator.createGifs_body host groups b t s).
Proof.
  unfold GifCreator.createGifs_body.
  apply (one_group_handles b t s _ _ [] _
           (GC_ImageMagick_settles host b _) (GC_FFmpeg_settles host b _)
           (Forall_nil _) (fun m => m)).
  intros m s0. now rewrite prepend_nil.
Qed.

Lemma TG_body_handles (groups : Groups) (b : string) (t : Tally) (s : Proc World) :
  exists a,
    handles [b] [a] t s (TransparentGifCreator.createTransparentGifs_body host groups b t s).
Proof.
  unfold TransparentGifCreator.createTransparentGifs_body.
  apply (one_group_handles b t s _ _
           [EvLog ("ImageMagick failed for " ++ b ++ ", trying FFmpeg...")] _
           (TG_ImageMagick_settles host b _) (TG_FFmpeg_settles host b _)
           ltac:(repeat constructor)
           (fun m => bind (console_log ("ImageMagick failed for " ++ b ++ ", trying FFmpeg..."))
                          (fun _ => m))).
  intros m s0. now rewrite bind_log.
Qed.

(** A [for] loop whose body handles each group handles them all, one
    after the other, whatever the outcomes. *)
Lemma for_of_handles (body : string -> Tally -> M World Tally) (names : list string) :
  (forall b t s, exists a, handles [b] [a] t s (body b t s)) ->
  forall t s,
  exists atts,
    List.length atts = List.length names
    /\ handles names atts t s (for_of names body t s).
Proof.
  intros Hbody. induction names as [|b names IH]; intros t s.
  - exists []. split; [reflexivity|]. unfold handles. cbn. repeat split. constructor.
  - destruct (Hbody b t s) as (a & Hr & Hbe & Hg & Hc).
    cbn [fold_left] in Hr.
    destruct (IH (bump t a) (final (body b t s))) as (atts & Hlen & Hr' & Hbe' & Hg' & Hc').
    exists (a :: atts). split; [simpl; now rewrite Hlen|].
    cbn [for_of]. rewrite (bind_Value _ _ _ _ Hr). unfold handles.
    cbn [res prepend events final fold_left driver_events].
    rewrite backend_events_app, exec_commands_app, Hbe, Hbe', Hr', Hg', Hg.
    cbn [driver_events]. rewrite app_nil_r.
    repeat split. intros Hnone.
    apply Forall_app. split; [now apply Hc|]. apply Hc'. congruence.
Qed.

Lemma fold_bump (atts : list Attempt) (t : Tally) :
  fold_left bump atts t
  = mkTally (successCount t + successCount (tally_of atts))
            (failCount t + failCount (tally_of atts)).
Proof.
  revert t. induction atts as [|a atts IH]; intros t.
  - destruct t. cbn. now rewrite !Nat.add_0_r.
  - cbn [fold_left]. rewrite IH. unfold tally_of, bump. cbn [filter].
    destruct (is_failed a); cbn [negb successCount failCount List.length]; f_equal; lia.
Qed.

End Driver.

(* ================================================================== *)
(** * Claims about the driver loop and the probe                       *)
(* ================================================================== *)

(** C2.  In both drivers the loop over [Object.keys(groups)] runs to its
    end from every state and in every environment.  Its backend calls
    are, group after group in iteration order, one of three patterns: the
    primary call fulfilled; the primary call rejected, then exactly one
    fallback call, fulfilled; the primary call rejected, then exactly
    one fallback call, rejected.  The counters it ends with count the
    groups of the third pattern as failed and the others as succeeded:
    a group whose two backends fail costs one increment of [failCount]
    and nothing else, and every other group is attempted all the same. *)
Theorem driver_attempts_every_group
  {World : Type} (host : Host World) (groups : Groups) (s : Proc World) :
  (exists atts,
     List.length atts = List.length (Object_keys groups)
     /\ res (GifCreator.createGifs_loop host groups s) = Value (tally_of atts)
     /\ backend_events (events (GifCreator.createGifs_loop host groups s))
        = driver_events (Object_keys groups) atts
     /\ backend_events (events (GifCreator.createGifs host groups s))
        = driver_events (Object_keys groups) atts
     /\ res (GifCreator.createGifs host groups s) = Value tt)
  /\ (exists atts,
        List.length atts = List.length (Object_keys groups)
        /\ res (TransparentGifCreator.createTransparentGifs_loop host groups s)
           = Value (tally_of atts)
        /\ backend_events
             (events (TransparentGifCreator.createTransparentGifs_loop host groups s))
           = driver_events (Object_keys groups) atts).
Proof.
  split.
  - destruct (for_of_handles (GifCreator.createGifs_body host groups)
                (Object_keys groups) (GC_body_handles host groups) (mkTally 0 0) s)
      as (atts & Hlen & Hr & Hbe & _ & _).
    rewrite fold_bump in Hr. cbn [successCount failCount Nat.add] in Hr.
    assert (Ht : mkTally (successCount (tally_of atts)) (failCount (tally_of atts))
                 = tally_of atts) by reflexivity.
    rewrite Ht in Hr.
    exists atts. split; [assumption|]. split; [exact Hr|]. split; [exact Hbe|].
    unfold GifCreator.createGifs. rewrite bind_log.
    unfold GifCreator.createGifs_loop in *.
    rewrite (bind_Value _ _ _ _ Hr). run. split; [|reflexivity].
    rewrite !backend_events_app, Hbe.
    cbn [backend_events filter is_backend_event app events console_log emit].
    now rewrite app_nil_r.
  - destruct (for_of_handles (TransparentGifCreator.createTransparentGifs_body host groups)
                (Object_keys groups) (TG_body_handles host groups) (mkTally 0 0) s)
      as (atts & Hlen & Hr & Hbe & _ & _).
    rewrite fold_bump in Hr. cbn [successCount failCount Nat.add] in Hr.
    exists atts. repeat split; assumption.
Qed.

Section ProbeRecords.
Context {World : Type} (host : Host World).

Lemma In_probe_steps (magickPath : option string) (p : string) :
  In (PathCheck p) (probe_steps magickPath) ->
  (truthy magickPath = true /\ magickPath = Some p) \/ In p commonPaths.
Proof.
  unfold probe_steps. cbn [app In].
  intros [H | [H | H]]; try discriminate H.
  apply in_app_or in H as [H | H].
  - destruct (truthy magickPath) eqn:Ht; [|contradiction].
    destruct H as [H | []]. inversion H; subst.
    left. split; [reflexivity|]. destruct magickPath; [reflexivity | discriminate Ht].
  - apply in_app_or in H as [H | [H | []]]; [|discriminate H].
    apply in_map_iff in H as (q & E & Hq). inversion E; subst. now right.
Qed.

Lemma GC_search_commonPaths_records (paths : list string) (s : Proc World) :
  let r := GifCreator.search_commonPaths host paths s in
  (res r = Value None /\ imageMagickPath (final r) = imageMagickPath s)
  \/ (res r = Value (Some "imagemagick-path")
      /\ exists p, In p paths /\ imageMagickPath (final r) = Some (quoted p)).
Proof.
  revert s. induction paths as [|p paths IH]; intros s; cbn zeta; [now left|].
  cbn [GifCreator.search_commonPaths]. run.
  destruct (fst (host_existsSync host p (world s))).
  - right. run. split; [reflexivity|]. exists p. split; [now left | reflexivity].
  - destruct (IH (with_world s (snd (host_existsSync host p (world s)))))
      as [[Hr Hg] | (Hr & q & Hq & Hg)].
    + left. now split.
    + right. split; [assumption|]. exists q. split; [now right | assumption].
Qed.

(** The probe of gifcreator.js touches [global.imageMagickPath] only
    when it answers ['imagemagick-path']. *)
Lemma GC_checkDependencies_records (s : Proc World) :
  let r := GifCreator.checkDependencies host s in
  (res r = Value (Some "imagemagick-path")
   /\ exists p, imageMagickPath (final r) = Some (quoted p))
  \/ (res r <> Value (Some "imagemagick-path")
      /\ imageMagickPath (final r) = imageMagickPath s).
Proof.
  cbv zeta.
  assert (Htail : forall s1,
    let r := bind (console_log "🔍 Searching common installation paths...")
             (fun _ =>
                bind (GifCreator.search_commonPaths host commonPaths)
                  (fun found =>
                     match found with
                     | Some tool => ret (Some tool)
                     | None =>
                         bind (console_log "Trying FFmpeg...")
                           (fun _ =>
                              bind (exec host "ffmpeg -version")
                                (fun error =>
                                   match error with
                                   | None =>
                                       bind (console_log "FFmpeg detected")
                                         (fun _ => ret (Some "ffmpeg"))
                                   | Some _ =>
                                       bind (console_log "No image processing tools found")
                                         (fun _ => ret None)
                                   end))
                     end)) s1 in
    (res r = Value (Some "imagemagick-path")
     /\ exists p, imageMagickPath (final r) = Some (quoted p))
    \/ (res r <> Value (Some "imagemagick-path")
        /\ imageMagickPath (final r) = imageMagickPath s1)).
  { intros s1. cbv zeta. rewrite bind_log, res_prepend, final_prepend.
    destruct (GC_search_commonPaths_records commonPaths s1) as [[Hr Hg] | (Hr & q & Hq & Hg)];
      rewrite (bind_Value _ _ _ _ Hr), res_prepend, final_prepend.
    - right. run.
      match goal with |- context [fst (host_exec host "ffmpeg -version" ?w)] =>
        destruct (fst (host_exec host "ffmpeg -version" w)) end;
        run; (split; [discriminate | exact Hg]).
    - left. split; [reflexivity|]. exists q. exact Hg. }
  unfold GifCreator.checkDependencies.
  rewrite bind_exec, res_prepend, final_prepend.
  destruct (fst (host_exec host "magick -version" (world s))) as [e1|];
    [|right; run; split; [discriminate | reflexivity]].
  rewrite bind_exec, res_prepend, final_prepend.
  match goal with |- context [fst (host_exec host "convert -version" ?w)] =>
    destruct (fst (host_exec host "convert -version" w)) as [e2|] end;
    [|right; run; split; [discriminate | reflexivity]].
  rewrite bind_log, res_prepend, final_prepend.
  destruct (truthy (env_MAGICK_PATH host)).
  - run.
    match goal with |- context [if ?b then _ else _] => destruct b end.
    + left. run. split; [reflexivity|]. eexists. reflexivity.
    + run.
      match goal with
      | |- context [bind (GifCreator.search_commonPaths host commonPaths) _ ?s1] =>
          destruct (Htail s1) as [H | [H1 H2]]
      end;
        [left; exact H
        |right; split; [exact H1 | etransitivity; [exact H2 | reflexivity]]].
  - run.
      match goal with
      | |- context [bind (GifCreator.search_commonPaths host commonPaths) _ ?s1] =>
          destruct (Htail s1) as [H | [H1 H2]]
      end;
        [left; exact H
        |right; split; [exact H1 | etransitivity; [exact H2 | reflexivity]]].
Qed.

Lemma TM_checkDependencies_records (s : Proc World) :
  let r := TransparencyMaker.checkDependencies host s in
  (exists p, res r = Value (Some "imagemagick-path")
             /\ ((truthy (env_MAGICK_PATH host) = true /\ env_MAGICK_PATH host = Some p)
                 \/ In p commonPaths)
             /\ In (EvExistsSync p true) (events r)
             /\ imageMagickPath (final r) = Some (quoted p))
  \/ (exists tool, res r = Value tool
                   /\ tool <> Some "imagemagick-path"
                   /\ imageMagickPath (final r) = imageMagickPath s).
Proof.
  cbv zeta.
  destruct (TM_checkDependencies_refines host s) as (Hev & Hfin & Hres).
  destruct (first_success_records host (probe_steps (env_MAGICK_PATH host)) s
              (probe_steps_plain _))
    as [(p & Hr & Hin & Hex & Hg) | (t & Hr & Ht & Hg)].
  - left. exists p. rewrite Hres, Hfin. repeat split; try assumption.
    + now apply In_probe_steps.
    + apply In_silent. rewrite Hev. unfold silent. apply filter_In. now split.
  - right. exists t. rewrite Hres, Hfin. now repeat split.
Qed.

Lemma primary_command_magick (frames : list Frame) (out : string) :
  gif_primary_command None frames out = gif_command "magick" (input_files frames) out
  /\ transparent_primary_command None frames out
     = transparent_gif_command "magick" (input_files frames) out.
Proof. now split. Qed.

Lemma primary_command_recorded (p : string) (frames : list Frame) (out : string) :
  gif_primary_command (Some (quoted p)) frames out
  = gif_command (quoted p) (input_files frames) out
  /\ transparent_primary_command (Some (quoted p)) frames out
     = transparent_gif_command (quoted p) (input_files frames) out.
Proof. now split. Qed.

Lemma GC_ImageMagick_command (b : string) (frames : list Frame) (s : Proc World) :
  exec_commands (events (GifCreator.createGifWithImageMagick host b frames s))
  = [gif_primary_command (imageMagickPath s) frames
       (path_join host GifCreator.outputDir (b ++ ".gif"))].
Proof.
  pose proof (GC_ImageMagick_run host b frames s) as H. cbv zeta in H. rewrite H.
  match goal with |- context [fst (host_exec host ?c ?w)] =>
    now destruct (fst (host_exec host c w)) end.
Qed.

Lemma TG_ImageMagick_command (b : string) (frames : list Frame) (s : Proc World) :
  exec_commands
    (events (TransparentGifCreator.createTransparentGifWithImageMagick host b frames s))
  = [transparent_primary_command (imageMagickPath s) frames
       (path_join host TransparentGifCreator.outputDir (b ++ ".gif"))].
Proof.
  pose proof (TG_ImageMagick_run host b frames s) as H. cbv zeta in H. rewrite H.
  match goal with |- context [fst (host_exec host ?c ?w)] =>
    now destruct (fst (host_exec host c w)) end.
Qed.

Lemma TM_ImageMagick_command (inputFile outputFile : string) (s : Proc World) :
  exec_commands
    (events (TransparencyMaker.makeTransparentWithImageMagick host inputFile outputFile s))
  = [transparency_primary_command (imageMagickPath s)
       (path_join host TransparencyMaker.texturesDir inputFile)
       (path_join host TransparencyMaker.outputDir outputFile)].
Proof.
  pose proof (TM_ImageMagick_run host inputFile outputFile s) as H. cbv zeta in H. rewrite H.
  match goal with |- context [fst (host_exec host ?c ?w)] =>
    now destruct (fst (host_exec host c w)) end.
Qed.

End ProbeRecords.

(** C3.  The probe shared by transparency-maker.js and
    transparent-gif-creator.js makes, console output aside, exactly the
    calls of the specified walk: [magick -version], [convert -version],
    the existence of the path in [MAGICK_PATH] when the variable is set,
    the existence of each well-known path in order, [ffmpeg -version];
    it stops at the first success and resolves with that step's tool
    name, or with [null] when every step fails.  When it resolves with
    ['imagemagick-path'] the path found (the one of [MAGICK_PATH] or a
    well-known one, seen to exist) is recorded, between double quotes, in
    [global.imageMagickPath]; otherwise the global is left as it was.
    The primary backend of either script builds its command from the
    recorded value, and the whole driver loop leaves it in place. *)
Theorem probe_follows_specified_order
  {World : Type} (host : Host World) (s : Proc World) :
  let r := TransparentGifCreator.checkDependencies host s in
  r = TransparencyMaker.checkDependencies host s
  /\ same_but_console r (first_success host (probe_steps (env_MAGICK_PATH host)) s)
  /\ ((exists p, res r = Value (Some "imagemagick-path")
                 /\ ((truthy (env_MAGICK_PATH host) = true /\ env_MAGICK_PATH host = Some p)
                     \/ In p commonPaths)
                 /\ In (EvExistsSync p true) (events r)
                 /\ imageMagickPath (final r) = Some (quoted p))
      \/ (exists tool, res r = Value tool
                       /\ tool <> Some "imagemagick-path"
                       /\ imageMagickPath (final r) = imageMagickPath s))
  /\ (forall p b frames groups (s' : Proc World),
        imageMagickPath s' = Some (quoted p) ->
        exec_commands
          (events (TransparentGifCreator.createTransparentGifWithImageMagick host b frames s'))
        = [transparent_gif_command (quoted p) (input_files frames)
             (path_join host TransparentGifCreator.outputDir (b ++ ".gif"))]
        /\ imageMagickPath
             (final (TransparentGifCreator.createTransparentGifs_loop host groups s'))
           = Some (quoted p))
  /\ (forall p inputFile outputFile (s' : Proc World),
        imageMagickPath s' = Some (quoted p) ->
        exec_commands
          (events (TransparencyMaker.makeTransparentWithImageMagick
                     host inputFile outputFile s'))
        = [quoted p ++ " "
           ++ quoted (path_join host TransparencyMaker.texturesDir inputFile)
           ++ " -fuzz 5% -transparent black "
           ++ quoted (path_join host TransparencyMaker.outputDir outputFile)]).
Proof.
  cbv zeta. split; [reflexivity|].
  split; [apply TM_checkDependencies_refines|].
  split; [apply TM_checkDependencies_records|].
  split; [|intros p i o s' Hg; rewrite TM_ImageMagick_command, Hg; reflexivity].
  intros p b frames groups s' Hg. split.
  - rewrite TG_ImageMagick_command, Hg. reflexivity.
  - destruct (for_of_handles (TransparentGifCreator.createTransparentGifs_body host groups)
                (Object_keys groups) (TG_body_handles host groups) (mkTally 0 0) s')
      as (atts & _ & _ & _ & Hkeep & _).
    unfold TransparentGifCreator.createTransparentGifs_loop. now rewrite Hkeep.
Qed.

(** C10.  A probe that answers ['imagemagick-convert'] leaves
    [global.imageMagickPath] as it found it: undefined, in a process
    that has not set it.  From any state where it is undefined the
    primary backend of either script runs the command that starts with
    [magick], and every command of a whole driver loop names [magick] or
    [ffmpeg]; the loop does not set the global either. *)
Theorem legacy_probe_keeps_magick
  {World : Type} (host : Host World) (s : Proc World) :
  imageMagickPath s = None ->
  (res (GifCreator.checkDependencies host s) = Value (Some "imagemagick-convert") ->
   imageMagickPath (final (GifCreator.checkDependencies host s)) = None)
  /\ (res (TransparentGifCreator.checkDependencies host s)
      = Value (Some "imagemagick-convert") ->
      imageMagickPath (final (TransparentGifCreator.checkDependencies host s)) = None)
  /\ (forall (s1 : Proc World) b frames groups,
        imageMagickPath s1 = None ->
        exec_commands (events (GifCreator.createGifWithImageMagick host b frames s1))
        = [gif_command "magick" (input_files frames)
             (path_join host GifCreator.outputDir (b ++ ".gif"))]
        /\ exec_commands
             (events (TransparentGifCreator.createTransparentGifWithImageMagick
                        host b frames s1))
           = [transparent_gif_command "magick" (input_files frames)
                (path_join host TransparentGifCreator.outputDir (b ++ ".gif"))]
        /\ Forall names_magick_or_ffmpeg
             (exec_commands (events (GifCreator.createGifs_loop host groups s1)))
        /\ Forall names_magick_or_ffmpeg
             (exec_commands
                (events (TransparentGifCreator.createTransparentGifs_loop host groups s1)))
        /\ imageMagickPath (final (GifCreator.createGifs_loop host groups s1)) = None
        /\ imageMagickPath
             (final (TransparentGifCreator.createTransparentGifs_loop host groups s1))
           = None).
Proof.
  intros Hnone. split; [|split].
  - intros Hr. destruct (GC_checkDependencies_records host s) as [[Hp _] | [_ Hg]];
      [congruence | now rewrite Hg].
  - intros Hr.
    destruct (TM_checkDependencies_records host s)
      as [(p & Hp & _) | (t & _ & _ & Hg)].
    + unfold TransparentGifCreator.checkDependencies in Hr. congruence.
    + unfold TransparentGifCreator.checkDependencies. now rewrite Hg.
  - intros s1 b frames groups H1.
    destruct (for_of_handles (GifCreator.createGifs_body host groups)
                (Object_keys groups) (GC_body_handles host groups) (mkTally 0 0) s1)
      as (a1 & _ & _ & _ & Hk1 & Hc1).
    destruct (for_of_handles (TransparentGifCreator.createTransparentGifs_body host groups)
                (Object_keys groups) (TG_body_handles host groups) (mkTally 0 0) s1)
      as (a2 & _ & _ & _ & Hk2 & Hc2).
    rewrite GC_ImageMagick_command, TG_ImageMagick_command, H1.
    unfold GifCreator.createGifs_loop, TransparentGifCreator.createTransparentGifs_loop.
    rewrite Hk1, Hk2.
    repeat split; auto.
Qed.

(* ================================================================== *)
(** * Claims about temporary files and exit codes                      *)
(* ================================================================== *)

(** C7, at the failing input.  With no working [ffmpeg] the palette
    pass of [createGifWithFFmpeg] fails; the promise is rejected by the
    early [return], no [unlinkSync] is attempted, and the manifest stays
    on disk.  On the same machine [createTransparentGifWithFFmpeg] fails
    as well, but removes its manifest, and swallows the error of the
    second [unlinkSync] (the palette was never written). *)
Theorem palette_failure_skips_cleanup :
  let r := GifCreator.createGifWithFFmpeg (simple_host None) "door" door_frames
             (start no_tools_disk) in
  let r' := TransparentGifCreator.createTransparentGifWithFFmpeg (simple_host None)
              "door" door_frames (start no_tools_disk) in
  (exists e, res r = Throw e)
  /\ filter is_unlink (events r) = []
  /\ In "./converted/gifs/door_list.txt" (present (world (final r)))
  /\ (exists e, res r' = Throw e)
  /\ (exists e,
        filter is_unlink (events r')
        = [ EvUnlinkSync "./converted/transparent-gifs/door_list.txt" None;
            EvUnlinkSync "./converted/transparent-gifs/door_list.txt.palette.png"
                         (Some e) ])
  /\ ~ In "./converted/transparent-gifs/door_list.txt" (present (world (final r'))).
Proof.
  vm_compute. split; [eexists; reflexivity|]. split; [reflexivity|].
  split; [now left|]. split; [eexists; reflexivity|]. split; [eexists; reflexivity|].
  intros [H | [H | []]]; discriminate H.
Qed.

(** C5, as stated, fails: on a machine without the input directory the
    script exits with code 1, but it has created the output directory
    first. *)
Lemma output_directory_created_before_check :
  let r := TransparentGifCreator.script (simple_host None) (start empty_disk) in
  exit_code r = 1
  /\ In (EvExistsSync TransparentGifCreator.transparentDir false) (events r)
  /\ In (EvMkdirSync TransparentGifCreator.outputDir None) (events r)
  /\ In TransparentGifCreator.outputDir (present (world (final r))).
Proof. vm_compute. repeat split; auto 10. Qed.

(* ================================================================== *)
(** * The two [main] functions, phase by phase                         *)
(* ================================================================== *)

Section Mains.
Context {World : Type} (host : Host World).

Lemma log_loop (names : list string) (line : string -> string) (s : Proc World) :
  for_of names (fun name (_ : unit) => console_log (line name)) tt s
  = mkRun (map (fun name => EvLog (line name)) names) s (Value tt).
Proof.
  induction names as [|n names IH]; [reflexivity|].
  cbn [for_of]. rewrite bind_log, IH. reflexivity.
Qed.

Lemma GC_loop_res (groups : Groups) (s : Proc World) :
  exists t, res (GifCreator.createGifs_loop host groups s) = Value t.
Proof.
  destruct (for_of_handles (GifCreator.createGifs_body host groups)
              (Object_keys groups) (GC_body_handles host groups) (mkTally 0 0) s)
    as (atts & _ & Hr & _).
  eexists. exact Hr.
Qed.

Lemma TG_loop_res (groups : Groups) (s : Proc World) :
  exists t, res (TransparentGifCreator.createTransparentGifs_loop host groups s) = Value t.
Proof.
  destruct (for_of_handles (TransparentGifCreator.createTransparentGifs_body host groups)
              (Object_keys groups) (TG_body_handles host groups) (mkTally 0 0) s)
    as (atts & _ & Hr & _).
  eexists. exact Hr.
Qed.

(** [createGifs]: the announcement, the loop, the tally. *)
Lemma GC_createGifs_run (groups : Groups) (s : Proc World) :
  let loop := GifCreator.createGifs_loop host groups s in
  exists t,
    res loop = Value t
    /\ GifCreator.createGifs host groups s
       = mkRun (GifLines.creating groups :: events loop ++ GifLines.tally t)
               (final loop) (Value tt).
Proof.
  cbv zeta. destruct (GC_loop_res groups s) as [t Ht]. exists t.
  split; [assumption|]. unfold GifCreator.createGifs. rewrite bind_log.
  rewrite (bind_Value _ _ _ _ Ht). run. reflexivity.
Qed.

(** The part of [createTransparentGifs] that follows grouping. *)
Lemma TG_from_run (groups : Groups) (s : Proc World) :
  let loop := TransparentGifCreator.createTransparentGifs_loop host groups s in
  exists t,
    res loop = Value t
    /\ TransparentGifCreator.createTransparentGifs_from host groups s
       = match Object_keys groups with
         | [] => mkRun TransparentLines.nothing_to_do s (Value tt)
         | _ :: _ =>
             mkRun (TransparentLines.found groups ++ events loop
                    ++ TransparentLines.tally t)
                   (final loop) (Value tt)
         end.
Proof.
  cbv zeta. destruct (TG_loop_res groups s) as [t Ht]. exists t.
  split; [assumption|]. unfold TransparentGifCreator.createTransparentGifs_from.
  destruct (Object_keys groups) as [|k ks] eqn:Hk; [reflexivity|].
  cbn [List.length Nat.eqb]. rewrite bind_log.
  rewrite (bind_Value _ _ _ _ (f_equal res (log_loop (k :: ks) _ s))).
  rewrite log_loop. cbn [events final]. rewrite bind_log.
  rewrite (bind_Value _ _ _ _ Ht). run.
  unfold TransparentLines.found, TransparentLines.tally, prepend. rewrite Hk.
  cbn [events final res app console_log emit ret List.length]. f_equal.
  cbn [app]. f_equal. rewrite <- !app_assoc. reflexivity.
Qed.

(** [createTransparentGifs]: read the directory, group, go on. *)
Lemma TG_createTransparentGifs_run (s : Proc World) :
  let listing := fst (host_readdirSync host TransparentGifCreator.transparentDir (world s)) in
  let s1 := with_world s
              (snd (host_readdirSync host TransparentGifCreator.transparentDir (world s))) in
  TransparentGifCreator.createTransparentGifs host s
  = match listing with
    | Thrown e =>
        mkRun [TransparentLines.scanning;
               EvReaddirSync TransparentGifCreator.transparentDir (Thrown e)]
              s1 (Throw e)
    | Ok files =>
        match group_files (path_join host) TransparentGifCreator.transparentDir files with
        | Thrown e =>
            mkRun [TransparentLines.scanning;
                   EvReaddirSync TransparentGifCreator.transparentDir (Ok files)]
                  s1 (Throw e)
        | Ok groups =>
            prepend [TransparentLines.scanning;
                     EvReaddirSync TransparentGifCreator.transparentDir (Ok files)]
              (TransparentGifCreator.createTransparentGifs_from host groups s1)
        end
    end.
Proof.
  cbv zeta. unfold TransparentGifCreator.createTransparentGifs,
    TransparentGifCreator.groupTransparentImagesByBaseName.
  rewrite bind_log, bind_assoc, bind_readdirSync.
  destruct (fst (host_readdirSync host TransparentGifCreator.transparentDir (world s)))
    as [files|e]; [|reflexivity].
  destruct (group_files (path_join host) TransparentGifCreator.transparentDir files)
    as [groups|e]; cbn [lift_outcome]; run; reflexivity.
Qed.

(** [main] of transparent-gif-creator.js: validate, probe, then hand
    over to [createTransparentGifs]. *)
Lemma TG_main_run (s : Proc World) :
  let present := fst (host_existsSync host TransparentGifCreator.transparentDir (world s)) in
  let s1 := with_world s
              (snd (host_existsSync host TransparentGifCreator.transparentDir (world s))) in
  let probe := TransparentGifCreator.checkDependencies host s1 in
  exists tool,
    res probe = Value tool
    /\ In tool probe_answers
    /\ TransparentGifCreator.main host s
       = if negb present
         then mkRun (TransparentLines.banner
                     ++ EvExistsSync TransparentGifCreator.transparentDir false
                     :: TransparentLines.missing_input)
                    s1 (Exit 1)
         else if negb (truthy tool)
         then mkRun (TransparentLines.banner
                     ++ EvExistsSync TransparentGifCreator.transparentDir true
                     :: events probe ++ TransparentLines.no_tool)
                    (final probe) (Exit 1)
         else prepend (TransparentLines.banner
                       ++ EvExistsSync TransparentGifCreator.transparentDir true
                       :: events probe)
                (TransparentGifCreator.createTransparentGifs host (final probe)).
Proof.
  cbv zeta.
  destruct (TM_checkDependencies_resolves host
              (with_world s
                 (snd (host_existsSync host TransparentGifCreator.transparentDir (world s)))))
    as (tool & Htool & Hin).
  exists tool. split; [exact Htool|]. split; [exact Hin|].
  unfold TransparentGifCreator.main. rewrite !bind_log, bind_existsSync.
  destruct (fst (host_existsSync host TransparentGifCreator.transparentDir (world s))).
  - cbn [negb]. rewrite bind_ret.
    unfold TransparentGifCreator.checkDependencies in *.
    rewrite (bind_Value _ _ _ _ Htool).
    destruct (truthy tool); cbn [negb].
    + rewrite bind_ret. rewrite !prepend_prepend. reflexivity.
    + run. reflexivity.
  - cbn [negb]. run. reflexivity.
Qed.

End Mains.

Section MainsGif.
Context {World : Type} (host : Host World).

(** [main] of gifcreator.js: validate, read and group, and only then
    probe. *)
Lemma GC_main_run (s : Proc World) :
  let present := fst (host_existsSync host GifCreator.texturesDir (world s)) in
  let s1 := with_world s (snd (host_existsSync host GifCreator.texturesDir (world s))) in
  let listing := fst (host_readdirSync host GifCreator.texturesDir (world s1)) in
  let s2 := with_world s1 (snd (host_readdirSync host GifCreator.texturesDir (world s1))) in
  let probe := GifCreator.checkDependencies host s2 in
  exists tool,
    res probe = Value tool
    /\ In tool probe_answers
    /\ GifCreator.main host s
       = if negb present
         then mkRun (GifLines.banner
                     ++ EvExistsSync GifCreator.texturesDir false
                     :: GifLines.missing_input)
                    s1 (Exit 1)
         else
           let pre : list Event :=
             (GifLines.banner
              ++ [ EvExistsSync GifCreator.texturesDir true;
                   GifLines.scanning;
                   EvReaddirSync GifCreator.texturesDir listing ])%list in
           match listing with
           | Thrown e => mkRun pre s2 (Throw e)
           | Ok files =>
               match group_files (path_join host) GifCreator.texturesDir files with
               | Thrown e => mkRun pre s2 (Throw e)
               | Ok groups =>
                   match Object_keys groups with
                   | [] => mkRun (pre ++ GifLines.nothing_to_do) s2 (Value tt)
                   | _ :: _ =>
                       if negb (truthy tool)
                       then mkRun (pre ++ GifLines.found groups ++ events probe
                                   ++ GifLines.no_tool)
                                  (final probe) (Exit 1)
                       else prepend (pre ++ GifLines.found groups ++ events probe)
                              (GifCreator.createGifs host groups (final probe))
                   end
               end
           end.
Proof.
  cbv zeta.
  set (s1 := with_world s (snd (host_existsSync host GifCreator.texturesDir (world s)))).
  set (s2 := with_world s1 (snd (host_readdirSync host GifCreator.texturesDir (world s1)))).
  destruct (GC_checkDependencies_resolves host s2) as (tool & Htool & Hin).
  exists tool. split; [exact Htool|]. split; [exact Hin|].
  unfold GifCreator.main. rewrite !bind_log, bind_existsSync. fold s1.
  destruct (fst (host_existsSync host GifCreator.texturesDir (world s))).
  2:{ cbn [negb]. run. reflexivity. }
  cbn [negb]. rewrite bind_ret, bind_log.
  unfold GifCreator.groupImagesByBaseName. rewrite bind_assoc, bind_readdirSync. fold s2.
  destruct (fst (host_readdirSync host GifCreator.texturesDir (world s1)))
    as [files|e]; [|reflexivity].
  destruct (group_files (path_join host) GifCreator.texturesDir files)
    as [groups|e]; cbn [lift_outcome]; [|run; reflexivity].
  rewrite bind_ret.
  destruct (Object_keys groups) as [|k ks] eqn:Hk; [reflexivity|].
  cbn [List.length Nat.eqb]. rewrite bind_log.
  rewrite (bind_Value _ _ _ _ (f_equal res (log_loop _ _ s2))).
  rewrite log_loop. cbn [events final].
  assert (Hmore : forall (B : Type) (k' : unit -> M World B) (st : Proc World),
            bind (if (10 <? S (List.length ks))%nat
                  then console_log ("   ... and "
                                    ++ show_nat (S (List.length ks) - 10) ++ " more")
                  else ret tt) k' st
            = prepend (if (10 <? S (List.length ks))%nat
                       then [EvLog ("   ... and "
                                    ++ show_nat (S (List.length ks) - 10) ++ " more")]
                       else []) (k' tt st)).
  { intros B k' st. destruct (10 <? S (List.length ks))%nat.
    - now rewrite bind_log.
    - now rewrite bind_ret, prepend_nil. }
  rewrite Hmore. rewrite (bind_Value _ _ _ _ Htool).
  unfold GifLines.found. rewrite Hk. cbn [List.length].
  destruct (truthy tool); cbn [negb].
  - rewrite bind_ret. rewrite !prepend_prepend.
    f_equal; cbn [app]; rewrite <- !app_assoc; reflexivity.
  - rewrite bind_assoc, bind_log.
    match goal with |- context [bind (try_catch ?m ?h) ?k ?st] =>
      assert (Hblk : try_catch m h st = mkRun (tl GifLines.no_tool) st (Exit 1))
    end.
    { unfold try_catch, GifCreator.installImageMagick. rewrite bind_throw.
      cbn [res events final]. run. reflexivity. }
    rewrite (bind_Exit _ _ _ 1) by (rewrite Hblk; reflexivity). rewrite Hblk.
    unfold prepend. cbn [events final res].
    f_equal; cbn [app]; rewrite <- !app_assoc; reflexivity.
Qed.

End MainsGif.

Section Scripts.
Context {World : Type} (host : Host World).

Lemma ensure_output_dir_run (dir : string) (s : Proc World) :
  let s1 := with_world s (snd (host_existsSync host dir (world s))) in
  let s2 := with_world s1 (snd (host_mkdirSync host dir (world s1))) in
  ensure_output_dir host dir s
  = if fst (host_existsSync host dir (world s))
    then mkRun [EvExistsSync dir true] s1 (Value tt)
    else match fst (host_mkdirSync host dir (world s1)) with
         | None => mkRun [EvExistsSync dir false; EvMkdirSync dir None] s2 (Value tt)
         | Some e => mkRun [EvExistsSync dir false; EvMkdirSync dir (Some e)] s2 (Throw e)
         end.
Proof.
  cbv zeta. unfold ensure_output_dir. rewrite bind_existsSync.
  destruct (fst (host_existsSync host dir (world s))); [reflexivity|].
  cbn [negb]. unfold mkdirSync, with_world, prepend. cbn [world imageMagickPath].
  destruct (host_mkdirSync host dir (snd (host_existsSync host dir (world s))))
    as [[e|] w]; reflexivity.
Qed.

Lemma TG_script_run (s : Proc World) :
  TransparentGifCreator.script host s
  = bind (ensure_output_dir host TransparentGifCreator.outputDir)
         (fun _ => try_catch (TransparentGifCreator.main host)
                             (fun e => console_error e)) s.
Proof. unfold TransparentGifCreator.script, ensure_output_dir. now rewrite bind_assoc. Qed.

Lemma TG_createTransparentGifs_res (s : Proc World) :
  res (TransparentGifCreator.createTransparentGifs host s) = Value tt
  \/ exists e, res (TransparentGifCreator.createTransparentGifs host s) = Throw e.
Proof.
  pose proof (TG_createTransparentGifs_run host s) as H. cbv zeta in H. rewrite H.
  destruct (fst (host_readdirSync host _ (world s))) as [files|e];
    [|right; now exists e].
  destruct (group_files _ _ files) as [groups|e]; [|right; now exists e].
  left. rewrite res_prepend.
  match goal with |- res (TransparentGifCreator.createTransparentGifs_from host groups ?s1) = _ =>
    destruct (TG_from_run host groups s1) as (t & _ & Hrun) end.
  rewrite Hrun. now destruct (Object_keys groups).
Qed.

End Scripts.

(** C5, amended.  transparent-gif-creator.js first makes sure the output
    directory exists, creating it when it is missing; if that throws,
    the process ends with code 1 and [main] never starts.
    Otherwise: if the input directory does not exist the process ends
    with code 1, having printed the banner and the two error lines, and
    it creates, writes and deletes nothing after the output directory;
    if the input directory exists and the probe finds no tool the
    process ends with code 1; if a tool is found and [main] completes
    normally the process ends with code 0, and when there is no group
    it has only listed the input directory and printed that nothing was
    found.  [main] completes normally exactly when the listing and the
    grouping do not throw. *)
Theorem transparent_script_exit_code
  {World : Type} (host : Host World) (w : World) :
  let load := ensure_output_dir host TransparentGifCreator.outputDir (start w) in
  let r := TransparentGifCreator.script host (start w) in
  let s0 := final load in
  let present :=
    fst (host_existsSync host TransparentGifCreator.transparentDir (world s0)) in
  let s1 :=
    with_world s0
      (snd (host_existsSync host TransparentGifCreator.transparentDir (world s0))) in
  let probe := TransparentGifCreator.checkDependencies host s1 in
  let listing :=
    fst (host_readdirSync host TransparentGifCreator.transparentDir
           (world (final probe))) in
  (events load = [EvExistsSync TransparentGifCreator.outputDir true]
   \/ exists err,
        events load = [ EvExistsSync TransparentGifCreator.outputDir false;
                        EvMkdirSync TransparentGifCreator.outputDir err ])
  /\ match res load with
     | Exit _ => False
     | Throw _ => exit_code r = 1 /\ events r = events load
     | Value _ =>
         if negb present
         then exit_code r = 1
              /\ events r
                 = (events load ++ TransparentLines.banner
                    ++ EvExistsSync TransparentGifCreator.transparentDir false
                    :: TransparentLines.missing_input)%list
              /\ filter changes_files (events r) = filter changes_files (events load)
         else match res probe with
              | Value tool =>
                  if negb (truthy tool)
                  then exit_code r = 1
                  else
                    match listing with
                    | Thrown e => res (TransparentGifCreator.main host s0) = Throw e
                    | Ok files =>
                        match group_files (path_join host)
                                TransparentGifCreator.transparentDir files with
                        | Thrown e =>
                            res (TransparentGifCreator.main host s0) = Throw e
                        | Ok groups =>
                            res (TransparentGifCreator.main host s0) = Value tt
                            /\ exit_code r = 0
                            /\ (Object_keys groups = [] ->
                                events r
                                = (events load ++ TransparentLines.banner
                                   ++ EvExistsSync TransparentGifCreator.transparentDir true
                                   :: events probe
                                   ++ [ TransparentLines.scanning;
                                        EvReaddirSync TransparentGifCreator.transparentDir
                                          (Ok files) ]
                                   ++ TransparentLines.nothing_to_do)%list)
                        end
                    end
              | _ => False
              end
     end.
Proof.
  cbv zeta. split.
  - pose proof (ensure_output_dir_run host TransparentGifCreator.outputDir (start w)) as H.
    cbv zeta in H. rewrite H.
    destruct (fst (host_existsSync host _ _)); [now left|]. right.
    destruct (fst (host_mkdirSync host _ _)) as [e|]; eexists; reflexivity.
  - rewrite TG_script_run.
    destruct (res (ensure_output_dir host TransparentGifCreator.outputDir (start w)))
      as [[]|e|c] eqn:Hload.
    + rewrite (bind_Value _ _ _ _ Hload).
      set (load := ensure_output_dir host TransparentGifCreator.outputDir (start w)).
      set (s0 := final load).
      destruct (TG_main_run host s0) as (tool & Htool & Hin & Hmain). cbv zeta in Hmain.
      rewrite Htool.
      destruct (fst (host_existsSync host TransparentGifCreator.transparentDir (world s0)));
        cbn [negb] in *.
      * destruct (truthy tool); cbn [negb] in Hmain |- *.
        -- set (s2 := final (TransparentGifCreator.checkDependencies host _)) in *.
           pose proof (TG_createTransparentGifs_run host s2) as Hrun. cbv zeta in Hrun.
           destruct (fst (host_readdirSync host TransparentGifCreator.transparentDir
                            (world s2))) as [files|e].
           ++ destruct (group_files (path_join host)
                          TransparentGifCreator.transparentDir files) as [groups|e].
              ** match type of Hrun with
                 | _ = prepend _ (TransparentGifCreator.createTransparentGifs_from host groups ?s3) =>
                     destruct (TG_from_run host groups s3) as (t & _ & Hfrom)
                 end.
                 cbv zeta in Hfrom.
                 assert (Hres : res (TransparentGifCreator.main host s0) = Value tt).
                 { rewrite Hmain, res_prepend, Hrun, res_prepend, Hfrom.
                   now destruct (Object_keys groups). }
                 split; [exact Hres|]. split.
                 --- rewrite exit_code_prepend.
                     rewrite (try_catch_Value _ _ _ _ Hres).
                     unfold exit_code. now rewrite Hres.
                 --- intros Hkeys. rewrite events_prepend.
                     rewrite (try_catch_Value _ _ _ _ Hres).
                     rewrite Hmain, Hrun, Hfrom, Hkeys.
                     rewrite !events_prepend. cbn [events].
                     rewrite <- !app_assoc. reflexivity.
              ** rewrite Hmain, res_prepend, Hrun. reflexivity.
           ++ rewrite Hmain, res_prepend, Hrun. reflexivity.
        -- rewrite exit_code_prepend.
           erewrite try_catch_Exit; rewrite Hmain; reflexivity.
      * rewrite exit_code_prepend, events_prepend.
        erewrite try_catch_Exit; rewrite Hmain; [|reflexivity].
        split; [reflexivity|]. cbn [events]. split; [reflexivity|].
        rewrite filter_app. cbn. now rewrite app_nil_r.
    + rewrite (bind_Throw _ _ _ _ Hload). split; reflexivity.
    + pose proof (ensure_output_dir_run host TransparentGifCreator.outputDir (start w)) as H.
      cbv zeta in H. rewrite H in Hload.
      destruct (fst (host_existsSync host _ _)); [discriminate|].
      destruct (fst (host_mkdirSync host _ _)); discriminate.
Qed.

(** C8, as stated, fails for gifcreator.js: on a machine with an empty
    textures directory and no tool at all (the probe would answer
    [null]) its [main] reads the directory, finds no group and ends
    cleanly, without a single probe. *)
Lemma gifcreator_groups_before_probe :
  let r := GifCreator.main (simple_host None) (start empty_textures_disk) in
  res (GifCreator.checkDependencies (simple_host None) (start empty_textures_disk))
  = Value None
  /\ res r = Value tt
  /\ exec_commands (events r) = []
  /\ silent (events r)
     = [ EvExistsSync GifCreator.texturesDir true;
         EvReaddirSync GifCreator.texturesDir (Ok []) ].
Proof. vm_compute. repeat split. Qed.

(** C8, amended.  [main] of transparent-gif-creator.js follows the
    stated order: it validates the input directory (fatal), then probes
    (fatal when nothing is found), then [createTransparentGifs] reads
    and groups the directory, ends with two informational lines when
    there is no group, and otherwise runs the loop over the groups and
    prints the tally last.  [main] of gifcreator.js validates first as
    well, but reads and groups the directory before it probes: with no
    group it ends cleanly without probing; with groups it probes, ends
    in [process.exit] after an install attempt when nothing is found,
    and otherwise [createGifs] runs the loop and prints the tally
    last. *)
Theorem main_phases {World : Type} (host : Host World) (s : Proc World) :
  (* transparent-gif-creator.js, [main] *)
  (let present := fst (host_existsSync host TransparentGifCreator.transparentDir (world s)) in
   let s1 := with_world s
               (snd (host_existsSync host TransparentGifCreator.transparentDir (world s))) in
   let probe := TransparentGifCreator.checkDependencies host s1 in
   exists tool,
     res probe = Value tool
     /\ TransparentGifCreator.main host s
        = if negb present
          then mkRun (TransparentLines.banner
                      ++ EvExistsSync TransparentGifCreator.transparentDir false
                      :: TransparentLines.missing_input)
                     s1 (Exit 1)
          else if negb (truthy tool)
          then mkRun (TransparentLines.banner
                      ++ EvExistsSync TransparentGifCreator.transparentDir true
                      :: events probe ++ TransparentLines.no_tool)
                     (final probe) (Exit 1)
          else prepend (TransparentLines.banner
                        ++ EvExistsSync TransparentGifCreator.transparentDir true
                        :: events probe)
                 (TransparentGifCreator.createTransparentGifs host (final probe)))
  (* transparent-gif-creator.js, [createTransparentGifs] *)
  /\ (let listing :=
        fst (host_readdirSync host TransparentGifCreator.transparentDir (world s)) in
      let s1 := with_world s
                  (snd (host_readdirSync host TransparentGifCreator.transparentDir (world s))) in
      let pre := [ TransparentLines.scanning;
                   EvReaddirSync TransparentGifCreator.transparentDir listing ] in
      match listing with
      | Thrown e =>
          TransparentGifCreator.createTransparentGifs host s = mkRun pre s1 (Throw e)
      | Ok files =>
          match group_files (path_join host) TransparentGifCreator.transparentDir files with
          | Thrown e =>
              TransparentGifCreator.createTransparentGifs host s = mkRun pre s1 (Throw e)
          | Ok groups =>
              let loop := TransparentGifCreator.createTransparentGifs_loop host groups s1 in
              exists t,
                res loop = Value t
                /\ TransparentGifCreator.createTransparentGifs host s
                   = match Object_keys groups with
                     | [] => mkRun (pre ++ TransparentLines.nothing_to_do) s1 (Value tt)
                     | _ :: _ =>
                         mkRun (pre ++ TransparentLines.found groups ++ events loop
                                ++ TransparentLines.tally t)
                               (final loop) (Value tt)
                     end
          end
      end)
  (* gifcreator.js, [main] *)
  /\ (let present := fst (host_existsSync host GifCreator.texturesDir (world s)) in
      let s1 := with_world s (snd (host_existsSync host GifCreator.texturesDir (world s))) in
      let listing := fst (host_readdirSync host GifCreator.texturesDir (world s1)) in
      let s2 := with_world s1
                  (snd (host_readdirSync host GifCreator.texturesDir (world s1))) in
      let probe := GifCreator.checkDependencies host s2 in
      exists tool,
        res probe = Value tool
        /\ GifCreator.main host s
           = if negb present
             then mkRun (GifLines.banner
                         ++ EvExistsSync GifCreator.texturesDir false
                         :: GifLines.missing_input)
                        s1 (Exit 1)
             else
               let pre : list Event :=
                 (GifLines.banner
                  ++ [ EvExistsSync GifCreator.texturesDir true;
                       GifLines.scanning;
                       EvReaddirSync GifCreator.texturesDir listing ])%list in
               match listing with
               | Thrown e => mkRun pre s2 (Throw e)
               | Ok files =>
                   match group_files (path_join host) GifCreator.texturesDir files with
                   | Thrown e => mkRun pre s2 (Throw e)
                   | Ok groups =>
                       match Object_keys groups with
                       | [] => mkRun (pre ++ GifLines.nothing_to_do) s2 (Value tt)
                       | _ :: _ =>
                           if negb (truthy tool)
                           then mkRun (pre ++ GifLines.found groups ++ events probe
                                       ++ GifLines.no_tool)
                                      (final probe) (Exit 1)
                           else prepend (pre ++ GifLines.found groups ++ events probe)
                                  (GifCreator.createGifs host groups (final probe))
                       end
                   end
               end)
  (* gifcreator.js, [createGifs] *)
  /\ (forall groups,
        let loop := GifCreator.createGifs_loop host groups s in
        exists t,
          res loop = Value t
          /\ GifCreator.createGifs host groups s
             = mkRun (GifLines.creating groups :: events loop ++ GifLines.tally t)
                     (final loop) (Value tt)).
Proof.
  split; [|split; [|split]].
  - destruct (TG_main_run host s) as (tool & Htool & _ & Hmain).
    exists tool. now split.
  - cbv zeta. pose proof (TG_createTransparentGifs_run host s) as H. cbv zeta in H.
    destruct (fst (host_readdirSync host TransparentGifCreator.transparentDir (world s)))
      as [files|e]; [|exact H].
    destruct (group_files (path_join host) TransparentGifCreator.transparentDir files)
      as [groups|e]; [|exact H].
    match type of H with
    | _ = prepend _ (TransparentGifCreator.createTransparentGifs_from host groups ?s1) =>
        destruct (TG_from_run host groups s1) as (t & Ht & Hfrom)
    end.
    exists t. split; [exact Ht|]. rewrite H, Hfrom.
    destruct (Object_keys groups); reflexivity.
  - destruct (GC_main_run host s) as (tool & Htool & _ & Hmain).
    exists tool. now split.
  - intros groups. apply GC_createGifs_run.
Qed.

(* ================================================================== *)
(** * The theorems at work on concrete machines                        *)
(* ================================================================== *)

(** The probe on a machine where ImageMagick is installed at a well-known
    path but is not on the search path: the path is recorded, and the
    primary backend runs it. *)
Lemma probe_follows_specified_order_witness :
  let host := simple_host None in
  let s := start path_only_disk in
  let r := TransparentGifCreator.checkDependencies host s in
  res r = Value (Some "imagemagick-path")
  /\ imageMagickPath (final r) = Some (quoted installed_path)
  /\ exec_commands
       (events (TransparentGifCreator.createTransparentGifWithImageMagick
                  host "door" door_frames (final r)))
     = [ transparent_gif_command (quoted installed_path) (input_files door_frames)
           (path_join host TransparentGifCreator.outputDir "door.gif") ]
  /\ imageMagickPath
       (final (TransparentGifCreator.createTransparentGifs_loop host
                 [("door", door_frames)] (final r)))
     = Some (quoted installed_path).
Proof.
  intros host s r.
  destruct (probe_follows_specified_order host s) as (_ & _ & _ & Hreads & _).
  destruct (Hreads installed_path "door" door_frames [("door", door_frames)] (final r))
    as [Hcmd Hkeep]; [vm_compute; reflexivity|].
  split; [vm_compute; reflexivity|]. split; [vm_compute; reflexivity|].
  split; [exact Hcmd | exact Hkeep].
Defined.

(** The probe on a machine where only [convert] answers: nothing is
    recorded and the primary backend still runs [magick]. *)
Lemma legacy_probe_keeps_magick_witness :
  let host := simple_host None in
  let s := start convert_only_disk in
  res (GifCreator.checkDependencies host s) = Value (Some "imagemagick-convert")
  /\ imageMagickPath (final (GifCreator.checkDependencies host s)) = None
  /\ exec_commands
       (events (GifCreator.createGifWithImageMagick host "door" door_frames
                  (final (GifCreator.checkDependencies host s))))
     = [ gif_command "magick" (input_files door_frames)
           (path_join host GifCreator.outputDir "door.gif") ]
  /\ Forall names_magick_or_ffmpeg
       (exec_commands
          (events (GifCreator.createGifs_loop host [("door", door_frames)]
                     (final (GifCreator.checkDependencies host s))))).
Proof.
  intros host s.
  destruct (legacy_probe_keeps_magick host s eq_refl) as (Hgif & _ & Hlater).
  assert (Hres : res (GifCreator.checkDependencies host s)
                 = Value (Some "imagemagick-convert")) by (vm_compute; reflexivity).
  pose proof (Hgif Hres) as Hnone.
  destruct (Hlater (final (GifCreator.checkDependencies host s)) "door" door_frames
              [("door", door_frames)] Hnone) as (Hcmd & _ & Hall & _).
  split; [exact Hres|]. split; [exact Hnone|]. split; [exact Hcmd | exact Hall].
Defined.

(* ================================================================== *)
(** * Further properties of grouping                                   *)
(* ================================================================== *)

Section MoreGrouping.
Variable path_join : string -> string -> string.
Variable dir : string.

Lemma visit_file_by_pattern (g : Groups) (f : string) :
  visit_file path_join dir g f
  = match regex_match f with
    | Some (b, d) => push_frame g b (mkFrame f (parseInt d) (path_join dir f))
    | None => Ok g
    end.
Proof.
  unfold visit_file.
  destruct (regex_match f) as [[b d]|] eqn:Hm.
  - now rewrite (regex_match_extname f b d Hm).
  - now destruct (String.eqb (extname f) ".png").
Qed.

Lemma forEach_visit_matching (files : list string) (g : Groups) :
  forEach (visit_file path_join dir) files g
  = forEach (visit_file path_join dir) (filter matches_pattern files) g.
Proof.
  revert g. induction files as [|f files IH]; intros g; [reflexivity|].
  simpl. unfold matches_pattern at 1.
  destruct (regex_match f) as [[b d]|] eqn:Hm.
  - simpl. destruct (visit_file path_join dir g f); simpl; [apply IH | reflexivity].
  - rewrite visit_file_by_pattern, Hm. simpl. apply IH.
Qed.

End MoreGrouping.

(** X1.  Files whose names do not match [<base>_<digits>.png] play no
    part in grouping: a listing and its matching files give the same
    result, be it the groups or the exception. *)
Theorem grouping_ignores_other_files
  (path_join : string -> string -> string) (dir : string) (files : list string) :
  group_files path_join dir files
  = group_files path_join dir (filter matches_pattern files).
Proof.
  unfold group_files. now rewrite forEach_visit_matching.
Qed.

(** X2.  The test on [path.extname] never rejects a name that the
    pattern accepts: what the callback of [files.forEach] does with a
    file is decided by the pattern alone. *)
Theorem extension_test_is_implied
  (path_join : string -> string -> string) (dir : string) (g : Groups) (f : string) :
  (forall b d, regex_match f = Some (b, d) -> String.eqb (extname f) ".png" = true)
  /\ visit_file path_join dir g f
     = match regex_match f with
       | Some (b, d) => push_frame g b (mkFrame f (parseInt d) (path_join dir f))
       | None => Ok g
       end.
Proof.
  split.
  - intros b d Hm. apply String.eqb_eq. exact (regex_match_extname f b d Hm).
  - apply visit_file_by_pattern.
Qed.

Section MoreGrouping2.
Variable path_join : string -> string -> string.
Variable dir : string.

(** No own property of [groups] ever carries an inherited name. *)
Lemma push_frame_keeps_clean (g g' : Groups) (b : string) (fr : Frame) :
  (forall k, inherited k = true -> own k g = None) ->
  push_frame g b fr = Ok g' ->
  forall k, inherited k = true -> own k g' = None.
Proof.
  intros Hclean Hpush k Hk.
  rewrite (push_frame_own g g' b fr Hpush k).
  destruct (String.eqb k b) eqn:Hkb; [|now apply Hclean].
  apply String.eqb_eq in Hkb. subst k.
  unfold push_frame in Hpush. rewrite (Hclean b Hk), Hk in Hpush. discriminate.
Qed.

Lemma first_pass_throws (files : list string) (g : Groups) :
  (forall k, inherited k = true -> own k g = None) ->
  (exists f b d, In f files /\ regex_match f = Some (b, d) /\ inherited b = true) ->
  forEach (visit_file path_join dir) files g
  = Thrown "TypeError: groups[baseName].push is not a function".
Proof.
  revert g. induction files as [|f files IH]; intros g Hclean (f0 & b & d & Hin & Hm & Hb).
  - destruct Hin.
  - simpl. rewrite visit_file_by_pattern.
    destruct (regex_match f) as [[b1 d1]|] eqn:Hm1.
    + destruct (inherited b1) eqn:Hb1.
      * unfold push_frame. now rewrite (Hclean b1 Hb1), Hb1.
      * destruct (push_frame g b1 _) as [g'|e] eqn:Hpush.
        -- simpl. apply IH.
           ++ eapply push_frame_keeps_clean; eassumption.
           ++ destruct Hin as [->|Hin]; [congruence|].
              exists f0, b, d. now repeat split.
        -- unfold push_frame in Hpush.
           destruct (own b1 g); [discriminate|]. now rewrite Hb1 in Hpush.
    + simpl. apply IH; [assumption|].
      destruct Hin as [->|Hin]; [congruence|].
      exists f0, b, d. now repeat split.
Qed.

End MoreGrouping2.

(** X3.  Grouping fails exactly when some file of the listing matches
    the pattern with a base name that every object inherits from
    [Object.prototype] ([constructor], [toString], [valueOf], ...): it
    then throws the TypeError of the missing [push] and returns no
    group at all; on every other listing it returns its groups. *)
Theorem grouping_fails_exactly_on_inherited_names
  (path_join : string -> string -> string) (dir : string) (files : list string) :
  let clash := exists f b d, In f files /\ regex_match f = Some (b, d)
                             /\ inherited b = true in
  (clash <->
   group_files path_join dir files
   = Thrown "TypeError: groups[baseName].push is not a function")
  /\ (~ clash <-> exists groups, group_files path_join dir files = Ok groups).
Proof.
  cbv zeta.
  assert (Hthrown : forall e, group_files path_join dir files = Thrown e ->
            exists f b d, In f files /\ regex_match f = Some (b, d) /\ inherited b = true).
  { intros e He.
    destruct (group_files_thrown path_join dir files e He) as (f & b & fr & Hin & Hacc & Hb).
    rewrite accept_regex in Hacc.
    destruct (regex_match f) as [[b' d]|] eqn:Hm; [|discriminate].
    injection Hacc as <- _. now exists f, b', d. }
  assert (Hclash : (exists f b d, In f files /\ regex_match f = Some (b, d)
                                  /\ inherited b = true) ->
            group_files path_join dir files
            = Thrown "TypeError: groups[baseName].push is not a function").
  { intros H. unfold group_files.
    now rewrite (first_pass_throws path_join dir files [] (fun _ _ => eq_refl) H). }
  split; split.
  - exact Hclash.
  - apply Hthrown.
  - intros Hno. destruct (group_files path_join dir files) as [groups|e] eqn:Hg.
    + now exists groups.
    + exfalso. apply Hno. now apply (Hthrown e).
  - intros (groups & Hg) H. rewrite (Hclash H) in Hg. discriminate.
Qed.

(** X4.  The pattern read as a decoder of file names: it yields base
    name [b] and digits [d] exactly for the name [b_d.png] with [b]
    non-empty and free of line terminators and [d] a non-empty run of
    decimal digits; the split is unique, [b] being everything before the
    last underscore. *)
Theorem file_name_pattern_round_trip (f b d : string) :
  regex_match f = Some (b, d)
  <-> (f = b ++ "_" ++ d ++ ".png"
       /\ nonempty b = true /\ one_line b = true /\ is_digits d = true).
Proof.
  unfold regex_match. split.
  - intros H. destruct (match_groups_spec f b d H) as (Hf & Hd & Hb & Hl). now repeat split.
  - intros (-> & Hb & Hl & Hd). now apply match_groups_complete.
Qed.

Lemma digits_value_nonneg (d : string) (acc : Z) :
  all_chars is_digit d = true -> 0 <= acc -> 0 <= digits_value_from acc d.
Proof.
  revert acc. induction d as [|c d IH]; intros acc Hd Hacc;
    cbn [all_chars digits_value_from] in *; [assumption|].
  apply andb_prop in Hd. destruct Hd as [Hc Hd]. apply IH; [assumption|].
  unfold is_digit in Hc. cbv zeta in Hc. unfold digit_value.
  apply andb_prop in Hc. destruct Hc as [Hlo _]. apply Nat.leb_le in Hlo.
  assert (48 <= Z.of_nat (nat_of_ascii c)) by (change 48 with (Z.of_nat 48); lia). lia.
Qed.

Lemma digits_value_zeros (z d : string) (acc : Z) :
  is_zeros z = true ->
  digits_value_from acc (z ++ d)
  = digits_value_from (10 ^ Z.of_nat (String.length z) * acc) d.
Proof.
  revert acc. induction z as [|c z IH]; intros acc Hz;
    cbn [is_zeros all_chars digits_value_from String.append String.length] in *.
  - f_equal. change (Z.of_nat 0) with 0. lia.
  - apply andb_prop in Hz. destruct Hz as [Hc Hz].
    apply Ascii.eqb_eq in Hc. subst c. rewrite IH by assumption.
    f_equal. change (digit_value "0") with 0.
    rewrite Nat2Z.inj_succ, Z.pow_succ_r by lia. lia.
Qed.

Lemma is_zeros_digits (z : string) : is_zeros z = true -> all_chars is_digit z = true.
Proof.
  induction z as [|c z IH]; simpl; [reflexivity|]. intros H.
  apply andb_prop in H. destruct H as [Hc Hz]. apply Ascii.eqb_eq in Hc. subst c.
  now rewrite IH.
Qed.

Lemma to_number_exact (v : Z) : 0 <= v < 2 ^ 53 -> to_number v = Fin v.
Proof.
  intros [Hlo Hhi]. unfold to_number, round_pos.
  rewrite Z.abs_eq by assumption.
  destruct (v <? 2 ^ 53) eqn:Hv; [|apply Z.ltb_ge in Hv; lia].
  assert (Hbig : 2 ^ 53 < 2 ^ 1024) by (apply Z.pow_lt_mono_r; lia).
  destruct (2 ^ 1024 <=? v) eqn:Hb; [apply Z.leb_le in Hb; lia|].
  f_equal. destruct (Z.eq_dec v 0) as [->|Hnz]; [reflexivity|].
  rewrite Z.sgn_pos by lia. lia.
Qed.

(** X5.  Frame numbers are read as decimal numbers: zeros in front of
    the digits change nothing, a number below 2^53 is read exactly, and
    the comparator of the sort puts such frames in numeric order (frame
    10 after frame 9), whatever the lengths of their digit runs. *)
Theorem frame_numbers_are_decimal (z d1 d2 : string) (fr1 fr2 : Frame) :
  is_zeros z = true -> is_digits d1 = true -> is_digits d2 = true ->
  digits_value_from 0 d1 < 2 ^ 53 -> digits_value_from 0 d2 < 2 ^ 53 ->
  frame fr1 = parseInt d1 -> frame fr2 = parseInt d2 ->
  parseInt (z ++ d1) = parseInt d1
  /\ parseInt d1 = Fin (digits_value_from 0 d1)
  /\ num_neg (by_frame fr1 fr2) = (digits_value_from 0 d1 <? digits_value_from 0 d2).
Proof.
  intros Hz Hd1 Hd2 Hv1 Hv2 Hf1 Hf2.
  assert (Ha1 : all_chars is_digit d1 = true)
    by (unfold is_digits in Hd1; now apply andb_prop in Hd1).
  assert (Ha2 : all_chars is_digit d2 = true)
    by (unfold is_digits in Hd2; now apply andb_prop in Hd2).
  assert (He1 : parseInt d1 = Fin (digits_value_from 0 d1)).
  { rewrite parseInt_digits by assumption. apply to_number_exact.
    split; [apply digits_value_nonneg; [assumption|lia] | assumption]. }
  assert (He2 : parseInt d2 = Fin (digits_value_from 0 d2)).
  { rewrite parseInt_digits by assumption. apply to_number_exact.
    split; [apply digits_value_nonneg; [assumption|lia] | assumption]. }
  split; [|split; [exact He1|]].
  - assert (Hzd : is_digits (z ++ d1) = true).
    { unfold is_digits. rewrite all_chars_app, (is_zeros_digits z Hz), Ha1.
      pose proof Hd1 as Hne. unfold is_digits in Hne.
      apply andb_prop in Hne. destruct Hne as [Hne _].
      destruct z; [cbn [String.append]; now rewrite Hne | reflexivity]. }
    rewrite (parseInt_digits _ Hzd), (parseInt_digits _ Hd1).
    rewrite digits_value_zeros by assumption. now rewrite Z.mul_0_r.
  - unfold by_frame. rewrite Hf1, Hf2, He1, He2. simpl.
    rewrite num_neg_to_number.
    destruct (digits_value_from 0 d1 <? digits_value_from 0 d2) eqn:Hlt.
    + apply Z.ltb_lt in Hlt. apply Z.ltb_lt. lia.
    + apply Z.ltb_ge in Hlt. apply Z.ltb_ge. lia.
Qed.

Lemma frame_numbers_are_decimal_witness :
  parseInt "007" = parseInt "7"
  /\ parseInt "7" = Fin 7
  /\ num_neg (by_frame (mkFrame "a_9.png" (parseInt "9") "d/a_9.png")
                       (mkFrame "a_10.png" (parseInt "10") "d/a_10.png"))
     = true.
Proof.
  destruct (frame_numbers_are_decimal "00" "7" "7"
              (mkFrame "a_7.png" (parseInt "7") "d/a_7.png")
              (mkFrame "a_7.png" (parseInt "7") "d/a_7.png"))
    as (Hz & He & _); try reflexivity.
  destruct (frame_numbers_are_decimal "" "9" "10"
              (mkFrame "a_9.png" (parseInt "9") "d/a_9.png")
              (mkFrame "a_10.png" (parseInt "10") "d/a_10.png"))
    as (_ & _ & Hc); try reflexivity.
  split; [exact Hz|]. split; [exact He | exact Hc].
Defined.

Lemma sort_and_filter_NoDup (g g' : Groups) (k : string) :
  sort_and_filter g k = Ok g' -> NoDup (own_keys g) -> NoDup (own_keys g').
Proof.
  unfold sort_and_filter. intros H Hnd.
  destruct (own k g) as [arr|]; [|discriminate].
  destruct (List.length (js_sort by_frame arr) <? 2)%nat; injection H as <-.
  - now apply NoDup_delete, NoDup_set_own.
  - now apply NoDup_set_own.
Qed.

Lemma forEach_sort_and_filter_NoDup (ks : list string) (g g' : Groups) :
  forEach sort_and_filter ks g = Ok g' -> NoDup (own_keys g) -> NoDup (own_keys g').
Proof.
  revert g. induction ks as [|k ks IH]; intros g H Hnd; simpl in H.
  - now injection H as <-.
  - destruct (sort_and_filter g k) as [g1|e] eqn:H1; [|discriminate].
    simpl in H. eapply IH; [eassumption|]. eapply sort_and_filter_NoDup; eassumption.
Qed.

Lemma group_files_NoDup (path_join : string -> string -> string) (dir : string)
  (files : list string) (groups : Groups) :
  group_files path_join dir files = Ok groups -> NoDup (own_keys groups).
Proof.
  unfold group_files. intros H.
  destruct (forEach (visit_file path_join dir) files []) as [g|e] eqn:H1; [|discriminate].
  simpl in H. eapply forEach_sort_and_filter_NoDup; [eassumption|].
  now apply (first_pass path_join dir files [] g H1); constructor.
Qed.

(** X6.  What grouping hands to the driver: the names [Object.keys]
    lists are, each exactly once, the base names that have at least two
    matching files in the listing. *)
Theorem groups_are_the_animated_names
  (path_join : string -> string -> string) (dir : string)
  (files : list string) (groups : Groups) :
  group_files path_join dir files = Ok groups ->
  NoDup (Object_keys groups)
  /\ forall b, In b (Object_keys groups)
               <-> (2 <= List.length (members path_join dir b files))%nat.
Proof.
  intros H. split.
  - eapply Permutation_NoDup; [symmetry; apply Object_keys_perm|].
    eapply group_files_NoDup; eassumption.
  - intros b.
    pose proof (group_files_own path_join dir files groups H b) as Hown.
    split.
    + intros Hin. apply Object_keys_own in Hin.
      destruct (List.length (members path_join dir b files) <? 2)%nat eqn:Hlt.
      * now rewrite Hown in Hin.
      * apply Nat.ltb_ge in Hlt. exact Hlt.
    + intros Hlen.
      apply (Permutation_in b (Permutation_sym (Object_keys_perm groups))).
      destruct (in_dec string_dec b (own_keys groups)) as [Hin|Hnot]; [assumption|].
      apply own_None_iff in Hnot. rewrite Hown in Hnot.
      apply Nat.ltb_ge in Hlen. rewrite Hlen in Hnot. discriminate.
Qed.

Lemma groups_are_the_animated_names_witness :
  let files := ["door_1.png"; "lamp_0.png"; "readme.txt"; "door_0.png"] in
  NoDup ["door"]
  /\ forall b, In b ["door"]
               <-> (2 <= List.length (members (fun a b => a ++ "/" ++ b) "d" b files))%nat.
Proof.
  intros files.
  exact (groups_are_the_animated_names (fun a b => a ++ "/" ++ b) "d" files
           [("door", [ mkFrame "door_0.png" (Fin 0) "d/door_0.png";
                       mkFrame "door_1.png" (Fin 1) "d/door_1.png" ])]
           eq_refl).
Defined.

(* ------------------------------------------------------------------ *)
(** ** The sort is stable                                               *)
(* ------------------------------------------------------------------ *)

Lemma same_number_eq (a b : number) : same_number a b = true <-> a = b.
Proof.
  destruct a, b; simpl; split; intros H; try discriminate; try reflexivity.
  - apply Z.eqb_eq in H. now subst.
  - injection H as ->. apply Z.eqb_refl.
Qed.

Lemma with_frame_above (v : number) (y : Frame) (l : list Frame) :
  num_ltb v (frame y) = true ->
  Sorted frame_le (y :: l) ->
  with_frame v (y :: l) = [].
Proof.
  intros Hlt Hs.
  apply Sorted_StronglySorted in Hs;
    [|intros a b c; unfold frame_le; apply num_leb_trans].
  apply StronglySorted_inv in Hs. destruct Hs as [_ Hall].
  assert (Habove : Forall (fun fr => num_ltb v (frame fr) = true) (y :: l)).
  { constructor; [assumption|].
    eapply Forall_impl; [|exact Hall]. intros fr Hle. unfold frame_le in Hle.
    destruct v, (frame y), (frame fr); simpl in *; try discriminate; try reflexivity.
    apply Z.ltb_lt in Hlt. apply Z.leb_le in Hle. apply Z.ltb_lt. lia. }
  unfold with_frame.
  induction Habove as [|fr l' Hfr _ IH]; [reflexivity|].
  simpl. destruct (same_number (frame fr) v) eqn:Heq; [|exact IH].
  apply same_number_eq in Heq. rewrite Heq in Hfr.
  destruct v; simpl in Hfr; try discriminate. apply Z.ltb_lt in Hfr. lia.
Qed.

Lemma with_frame_cons (v : number) (x : Frame) (l : list Frame) :
  with_frame v (x :: l)
  = if same_number (frame x) v then x :: with_frame v l else with_frame v l.
Proof. reflexivity. Qed.

Lemma insert_keeps_ties_in_order (v : number) (x : Frame) (acc : list Frame) :
  frame_ok x -> Forall frame_ok acc -> Sorted frame_le acc ->
  with_frame v (insert_by (fun a b => num_neg (by_frame a b)) x acc)
  = (with_frame v acc ++ with_frame v [x])%list.
Proof.
  intros Hx Hacc Hs. induction acc as [|y l IH].
  - reflexivity.
  - inversion Hacc as [|? ? Hy Hl]; subst.
    cbn [insert_by]. unfold by_frame at 1. rewrite num_neg_sub by assumption.
    destruct (num_ltb (frame x) (frame y)) eqn:Hlt.
    + rewrite (with_frame_cons v x (y :: l)), (with_frame_cons v x []).
      destruct (same_number (frame x) v) eqn:Heq.
      * apply same_number_eq in Heq. rewrite <- Heq.
        now rewrite (with_frame_above (frame x) y l Hlt Hs).
      * now rewrite app_nil_r.
    + rewrite (with_frame_cons v y), (with_frame_cons v y l).
      rewrite IH; [|assumption|now inversion Hs].
      now destruct (same_number (frame y) v).
Qed.

Lemma fold_insert_keeps_ties (v : number) (l acc : list Frame) :
  Forall frame_ok l -> Forall frame_ok acc -> Sorted frame_le acc ->
  with_frame v (fold_left (fun a x => insert_by (fun a b => num_neg (by_frame a b)) x a)
                          l acc)
  = (with_frame v acc ++ with_frame v l)%list.
Proof.
  revert acc. induction l as [|x l IH]; intros acc Hl Hacc Hs; cbn [fold_left].
  - unfold with_frame at 3. simpl. now rewrite app_nil_r.
  - inversion Hl as [|? ? Hx Hl']; subst.
    assert (Hins : Sorted frame_le (insert_by (fun a b => num_neg (by_frame a b)) x acc)).
    { apply Sorted_weaken
        with (R := not_after (fun x y => num_neg (by_frame x y))) (P := frame_ok).
      - intros a b Ha Hb Hab. unfold frame_le. apply num_not_ltb_leb; try assumption.
        unfold not_after, by_frame in Hab. now rewrite num_neg_sub in Hab.
      - apply insert_by_Forall; assumption.
      - apply insert_by_sorted with (P := frame_ok); try assumption.
        + intros a b Ha Hb. unfold by_frame. rewrite !num_neg_sub by assumption.
          apply num_ltb_asym.
        + apply Sorted_weaken with (R := frame_le) (P := frame_ok); try assumption.
          intros a b Ha Hb Hab. unfold not_after, by_frame.
          rewrite num_neg_sub by assumption. unfold frame_le in Hab.
          destruct (frame a), (frame b); simpl in *; try discriminate; try reflexivity.
          apply Z.leb_le in Hab. apply Z.ltb_ge. lia. }
    rewrite IH; [|assumption|now apply insert_by_Forall|assumption].
    rewrite insert_keeps_ties_in_order by assumption.
    rewrite <- app_assoc. f_equal.
    rewrite (with_frame_cons v x l), (with_frame_cons v x []).
    now destruct (same_number (frame x) v).
Qed.

(** X7.  The sort is stable: in every group the frames that share a
    frame index (such as [a_1.png] and [a_01.png]) stand in the order
    in which the directory listing gave them. *)
Theorem equal_frames_keep_listing_order
  (path_join : string -> string -> string) (dir : string)
  (files : list string) (groups : Groups) (b : string) (frames : list Frame) :
  group_files path_join dir files = Ok groups ->
  own b groups = Some frames ->
  forall v, with_frame v frames = with_frame v (members path_join dir b files).
Proof.
  intros Hg Hown v.
  rewrite (group_files_own path_join dir files groups Hg b) in Hown.
  destruct (List.length (members path_join dir b files) <? 2)%nat; [discriminate|].
  injection Hown as <-.
  unfold js_sort, sort_by.
  rewrite fold_insert_keeps_ties;
    [reflexivity | apply members_frame_ok | constructor | constructor].
Qed.

Lemma equal_frames_keep_listing_order_witness :
  let files := ["a_01.png"; "a_0.png"; "a_1.png"] in
  let frames := [ mkFrame "a_0.png" (Fin 0) "d/a_0.png";
                  mkFrame "a_01.png" (Fin 1) "d/a_01.png";
                  mkFrame "a_1.png" (Fin 1) "d/a_1.png" ] in
  with_frame (Fin 1) frames
  = with_frame (Fin 1) (members (fun a b => a ++ "/" ++ b) "d" "a" files).
Proof.
  intros files frames.
  exact (equal_frames_keep_listing_order (fun a b => a ++ "/" ++ b) "d" files
           [("a", frames)] "a" frames eq_refl eq_refl (Fin 1)).
Defined.

(* ------------------------------------------------------------------ *)
(** ** The order of the groups                                          *)
(* ------------------------------------------------------------------ *)

Lemma first_seen_ext (s1 s2 l : list string) :
  (forall x, In x s1 <-> In x s2) -> first_seen s1 l = first_seen s2 l.
Proof.
  revert s1 s2. induction l as [|x l IH]; intros s1 s2 H; [reflexivity|].
  cbn [first_seen].
  assert (Hm : mem_string x s1 = mem_string x s2).
  { destruct (mem_string x s1) eqn:H1, (mem_string x s2) eqn:H2; try reflexivity.
    - apply mem_string_In, H, mem_string_In in H1. congruence.
    - apply mem_string_In, H, mem_string_In in H2. congruence. }
  rewrite Hm. destruct (mem_string x s2).
  - now apply IH.
  - f_equal. apply IH. intros y. simpl. now rewrite H.
Qed.

Lemma first_pass_keys (path_join : string -> string -> string) (dir : string)
  (files : list string) (g0 g : Groups) :
  forEach (visit_file path_join dir) files g0 = Ok g ->
  own_keys g = (own_keys g0 ++ first_seen (own_keys g0) (base_names files))%list.
Proof.
  revert g0. induction files as [|f files IH]; intros g0 H; simpl in H.
  - injection H as <-. simpl. now rewrite app_nil_r.
  - rewrite visit_file_by_pattern in H. unfold base_names. cbn [flat_map].
    fold (base_names files).
    destruct (regex_match f) as [[b d]|] eqn:Hm.
    + destruct (push_frame g0 b _) as [g1|e] eqn:Hpush; [|discriminate].
      simpl in H. rewrite (IH g1 H). cbn [app first_seen].
      unfold push_frame in Hpush.
      destruct (own b g0) as [arr|] eqn:Hown.
      * injection Hpush as <-. rewrite own_keys_set_own, Hown.
        apply own_Some_In, mem_string_In in Hown. now rewrite Hown.
      * destruct (inherited b); [discriminate|]. injection Hpush as <-.
        rewrite own_keys_set_own, Hown.
        assert (Hnot : mem_string b (own_keys g0) = false).
        { destruct (mem_string b (own_keys g0)) eqn:Hmem; [|reflexivity].
          apply mem_string_In in Hmem. now apply own_None_iff in Hown. }
        rewrite Hnot, <- app_assoc. cbn [app]. do 2 f_equal.
        apply first_seen_ext. intros x. rewrite in_app_iff. simpl. tauto.
    + simpl in H. cbn [app]. now apply IH.
Qed.

Lemma own_keys_delete (k : string) (g : Groups) :
  NoDup (own_keys g) ->
  own_keys (delete k g) = filter (fun k' => negb (String.eqb k' k)) (own_keys g).
Proof.
  induction g as [|[k' v] g IH]; intros Hnd; [reflexivity|].
  inversion Hnd as [|? ? Hnotin Hnd']; subst.
  cbn [delete own_keys map fst filter].
  destruct (String.eqb k k') eqn:Hk.
  - apply String.eqb_eq in Hk. subst k'. rewrite String.eqb_refl. cbn [negb].
    symmetry. fold (own_keys g).
    assert (Hall : forall x, In x (own_keys g) -> negb (String.eqb x k) = true).
    { intros x Hx. destruct (String.eqb x k) eqn:Hxk; [|reflexivity].
      apply String.eqb_eq in Hxk. subst x. contradiction. }
    clear -Hall. induction (own_keys g) as [|x l IHl]; [reflexivity|].
    cbn [filter]. rewrite (Hall x (or_introl eq_refl)). f_equal.
    apply IHl. intros y Hy. apply Hall. now right.
  - rewrite String.eqb_sym, Hk. cbn [negb own_keys map fst]. f_equal.
    now apply IH.
Qed.

Lemma filter_filter_and {A} (p q : A -> bool) (l : list A) :
  filter p (filter q l) = filter (fun x => q x && p x) l.
Proof.
  induction l as [|x l IH]; [reflexivity|]. cbn [filter].
  destruct (q x); cbn [filter andb]; [destruct (p x)|]; now rewrite IH.
Qed.

(** The second loop drops the names it visits whose array has fewer
    than two frames, and keeps the others where they are. *)
Lemma second_pass_keys (ks : list string) (g g' : Groups) :
  NoDup ks -> NoDup (own_keys g) ->
  forEach sort_and_filter ks g = Ok g' ->
  own_keys g'
  = filter (fun k => negb (mem_string k ks
                           && (List.length (frames_of g k) <? 2)%nat))
           (own_keys g).
Proof.
  revert g. induction ks as [|k0 ks IH]; intros g Hks Hnd H; simpl in H.
  - injection H as <-. symmetry. clear.
    induction (own_keys g) as [|x l IHl]; [reflexivity|].
    cbn [filter]. unfold mem_string at 1. cbn [existsb andb negb]. now f_equal.
  - destruct (sort_and_filter g k0) as [g1|e] eqn:H1; [|discriminate]. simpl in H.
    inversion Hks as [|? ? Hk0 Hks']; subst.
    pose proof (sort_and_filter_NoDup g g1 k0 H1 Hnd) as Hnd1.
    rewrite (IH g1 Hks' Hnd1 H).
    unfold sort_and_filter in H1.
    destruct (own k0 g) as [arr|] eqn:Hown; [|discriminate].
    assert (Hlen : List.length (js_sort by_frame arr) = List.length arr)
      by apply js_sort_length.
    assert (Hother : forall k, k <> k0 -> frames_of g1 k = frames_of g k).
    { intros k Hk. unfold frames_of.
      destruct (List.length (js_sort by_frame arr) <? 2)%nat; injection H1 as <-.
      - rewrite own_delete_other, own_set_own_other by assumption. reflexivity.
      - now rewrite own_set_own_other. }
    assert (Hk0' : mem_string k0 ks = false).
    { destruct (mem_string k0 ks) eqn:Hm; [|reflexivity].
      apply mem_string_In in Hm. contradiction. }
    assert (Hkeys : own_keys g1
                    = if (List.length arr <? 2)%nat
                      then filter (fun k' => negb (String.eqb k' k0)) (own_keys g)
                      else own_keys g).
    { rewrite Hlen in H1.
      destruct (List.length arr <? 2)%nat; injection H1 as <-.
      - rewrite own_keys_delete by now apply NoDup_set_own.
        now rewrite own_keys_set_own, Hown.
      - now rewrite own_keys_set_own, Hown. }
    rewrite Hkeys.
    assert (Hfr : frames_of g k0 = arr) by (unfold frames_of; now rewrite Hown).
    clear H1 Hkeys IH H Hnd1 Hnd.
    assert (Hpoint : forall x,
              (if (List.length arr <? 2)%nat then negb (String.eqb x k0) else true)
              && negb (mem_string x ks && (List.length (frames_of g1 x) <? 2)%nat)
              = negb (mem_string x (k0 :: ks)
                      && (List.length (frames_of g x) <? 2)%nat)).
    { intros x. unfold mem_string at 2. cbn [existsb]. fold (mem_string x ks).
      destruct (String.eqb x k0) eqn:Hx.
      - apply String.eqb_eq in Hx. subst x. rewrite Hfr, Hk0'.
        now destruct (List.length arr <? 2)%nat.
      - assert (Hne : x <> k0) by (intros ->; now rewrite String.eqb_refl in Hx).
        rewrite (Hother x Hne).
        now destruct (List.length arr <? 2)%nat. }
    rewrite <- (filter_ext _ _ Hpoint).
    destruct (List.length arr <? 2)%nat.
    + apply filter_filter_and.
    + reflexivity.
Qed.

(** X8.  The groups are created in the order in which their base names
    first occur in the directory listing, and those with fewer than
    two frames are taken out without disturbing the order of the rest.
    [Object.keys], and with it the driver, follows that order for the
    names that are not canonical array indices (such as [7] in
    [7_0.png]), hence for all names when none is. *)
Theorem groups_follow_listing_order
  (path_join : string -> string -> string) (dir : string)
  (files : list string) (groups : Groups) :
  group_files path_join dir files = Ok groups ->
  let animated :=
    filter (fun b => (2 <=? List.length (members path_join dir b files))%nat)
           (first_seen [] (base_names files)) in
  own_keys groups = animated
  /\ filter (fun k => negb (is_array_index k)) (Object_keys groups)
     = filter (fun k => negb (is_array_index k)) animated
  /\ (forallb (fun k => negb (is_array_index k)) animated = true ->
      Object_keys groups = animated).
Proof.
  intros H. cbv zeta.
  assert (Hkeys : own_keys groups
                  = filter (fun b => (2 <=? List.length (members path_join dir b files))%nat)
                           (first_seen [] (base_names files))).
  { unfold group_files in H.
    destruct (forEach (visit_file path_join dir) files []) as [g|e] eqn:H1; [|discriminate].
    simpl in H.
    destruct (first_pass path_join dir files [] g H1 (NoDup_nil _)) as [Hnd Hown].
    pose proof (first_pass_keys path_join dir files [] g H1) as Hk1. simpl in Hk1.
    assert (HndK : NoDup (Object_keys g))
      by (eapply Permutation_NoDup; [symmetry; apply Object_keys_perm | exact Hnd]).
    rewrite (second_pass_keys (Object_keys g) g groups HndK Hnd H), Hk1.
    rewrite <- Hk1. clear H.
    assert (Hall : forall k, In k (own_keys g) ->
              negb (mem_string k (Object_keys g)
                    && (List.length (frames_of g k) <? 2)%nat)
              = (2 <=? List.length (members path_join dir k files))%nat).
    { intros k Hk.
      assert (Hm : mem_string k (Object_keys g) = true).
      { apply mem_string_In.
        apply (Permutation_in k (Permutation_sym (Object_keys_perm g)) Hk). }
      rewrite Hm. cbn [andb]. unfold frames_of. rewrite (Hown k). cbn [own].
      destruct (members path_join dir k files) as [|m ms] eqn:Hmem.
      - exfalso. assert (Hnone : own k g = None) by (rewrite (Hown k); cbn [own]; now rewrite Hmem).
        now apply own_None_iff in Hnone.
      - destruct (List.length (m :: ms) <? 2)%nat eqn:Hl.
        + apply Nat.ltb_lt in Hl. symmetry. apply Nat.leb_gt. exact Hl.
        + apply Nat.ltb_ge in Hl. symmetry. apply Nat.leb_le. exact Hl. }
    clear -Hall. induction (own_keys g) as [|x l IHl]; [reflexivity|].
    cbn [filter]. rewrite (Hall x (or_introl eq_refl)).
    rewrite IHl by (intros k Hk; apply Hall; now right). reflexivity. }
  split; [exact Hkeys|]. unfold Object_keys. rewrite Hkeys.
  set (ks := filter _ (first_seen [] (base_names files))).
  split.
  - rewrite filter_app.
    assert (Hsorted : filter (fun k => negb (is_array_index k))
              (sort_by (fun a b => digits_value_from 0 a <? digits_value_from 0 b)
                       (filter is_array_index ks)) = []).
    { assert (Hin : forall k,
                In k (sort_by (fun a b => digits_value_from 0 a <? digits_value_from 0 b)
                              (filter is_array_index ks)) -> is_array_index k = true).
      { intros k Hk.
        apply (Permutation_in k (Permutation_sym (sort_by_perm _ _))) in Hk.
        now apply filter_In in Hk. }
      induction (sort_by _ (filter is_array_index ks)) as [|x l IHl]; [reflexivity|].
      cbn [filter]. rewrite (Hin x (or_introl eq_refl)). cbn [negb].
      apply IHl. intros k Hk. apply Hin. now right. }
    rewrite Hsorted. cbn [app]. rewrite filter_filter_and.
    apply filter_ext. intros x. now destruct (is_array_index x).
  - intros Hnone.
    assert (Hidx : filter is_array_index ks = []).
    { clear -Hnone. induction ks as [|x l IHl]; [reflexivity|].
      cbn [forallb] in Hnone. apply andb_prop in Hnone. destruct Hnone as [Hx Hl].
      cbn [filter]. destruct (is_array_index x); [discriminate|]. now apply IHl. }
    rewrite Hidx. cbn.
    clear -Hnone. induction ks as [|x l IHl]; [reflexivity|].
    cbn [forallb] in Hnone. apply andb_prop in Hnone. destruct Hnone as [Hx Hl].
    cbn [filter]. rewrite Hx. f_equal. now apply IHl.
Qed.

Lemma groups_follow_listing_order_witness :
  let files := ["lamp_1.png"; "door_0.png"; "sign_0.png"; "lamp_0.png"; "door_1.png"] in
  Object_keys
    [ ("lamp", [ mkFrame "lamp_0.png" (Fin 0) "d/lamp_0.png";
                 mkFrame "lamp_1.png" (Fin 1) "d/lamp_1.png" ]);
      ("door", [ mkFrame "door_0.png" (Fin 0) "d/door_0.png";
                 mkFrame "door_1.png" (Fin 1) "d/door_1.png" ]) ]
  = ["lamp"; "door"].
Proof.
  intros files.
  exact (proj2 (proj2
           (groups_follow_listing_order (fun a b => a ++ "/" ++ b) "d" files
              [ ("lamp", [ mkFrame "lamp_0.png" (Fin 0) "d/lamp_0.png";
                           mkFrame "lamp_1.png" (Fin 1) "d/lamp_1.png" ]);
                ("door", [ mkFrame "door_0.png" (Fin 0) "d/door_0.png";
                           mkFrame "door_1.png" (Fin 1) "d/door_1.png" ]) ]
              eq_refl)) eq_refl).
Defined.

Section Transparency.
Context {World : Type} (host : Host World).

Lemma TM_FFmpeg_run (inputFile outputFile : string) (s : Proc World) :
  let out := path_join host TransparencyMaker.outputDir outputFile in
  let command :=
    transparency_ffmpeg_command
      (path_join host TransparencyMaker.texturesDir inputFile) out in
  let s' := with_world s (snd (host_exec host command (world s))) in
  TransparencyMaker.makeTransparentWithFFmpeg host inputFile outputFile s
  = match fst (host_exec host command (world s)) with
    | None =>
        mkRun [ EvCall FFmpeg inputFile; EvExec command None;
                EvLog ("Processed: " ++ inputFile ++ " → " ++ outputFile);
                EvSettled FFmpeg inputFile true ] s' (Value out)
    | Some e =>
        mkRun [ EvCall FFmpeg inputFile; EvExec command (Some e);
                EvError ("Error processing " ++ inputFile ++ ": " ++ e);
                EvSettled FFmpeg inputFile false ] s' (Throw e)
    end.
Proof.
  cbv zeta.
  unfold TransparencyMaker.makeTransparentWithFFmpeg, transparency_ffmpeg_command.
  match goal with |- promise _ _ ?body s = _ => set (bd := body) end.
  match goal with |- context [host_exec host ?c (world s)] => set (cmd := c) end.
  assert (Hbd : bd s = prepend [EvExec cmd (fst (host_exec host cmd (world s)))]
            (match fst (host_exec host cmd (world s)) with
             | Some e => mkRun [EvError ("Error processing " ++ inputFile ++ ": " ++ e)]
                               (with_world s (snd (host_exec host cmd (world s)))) (Throw e)
             | None => mkRun [EvLog ("Processed: " ++ inputFile ++ " → " ++ outputFile)]
                             (with_world s (snd (host_exec host cmd (world s))))
                             (Value (path_join host TransparencyMaker.outputDir outputFile))
             end)).
  { unfold bd. fold cmd. rewrite bind_exec.
    destruct (fst (host_exec host cmd (world s))); run; reflexivity. }
  destruct (fst (host_exec host cmd (world s))) as [e|] eqn:He.
  - rewrite (promise_Throw _ _ _ _ e); rewrite Hbd; reflexivity.
  - rewrite (promise_Value _ _ _ _
               (path_join host TransparencyMaker.outputDir outputFile));
      rewrite Hbd; reflexivity.
Qed.

Lemma TM_ImageMagick_settles (f : string) (s : Proc World) :
  settles ImageMagick f s (TransparencyMaker.makeTransparentWithImageMagick host f f s).
Proof.
  pose proof (TM_ImageMagick_run host f f s) as H. cbv zeta in H. rewrite H.
  unfold settles.
  match goal with |- context [fst (host_exec host ?c ?w)] =>
    destruct (fst (host_exec host c w)) as [e|] end.
  - split; [exists false; split; [reflexivity | now exists e]|].
    split; [reflexivity|]. intros Hnone. rewrite Hnone.
    constructor; [left; reflexivity | constructor].
  - split; [exists true; split; [reflexivity | eexists; reflexivity]|].
    split; [reflexivity|]. intros Hnone. rewrite Hnone.
    constructor; [left; reflexivity | constructor].
Qed.

Lemma TM_FFmpeg_settles (f : string) (s : Proc World) :
  settles FFmpeg f s (TransparencyMaker.makeTransparentWithFFmpeg host f f s).
Proof.
  pose proof (TM_FFmpeg_run f f s) as H. cbv zeta in H. rewrite H.
  unfold settles.
  match goal with |- context [fst (host_exec host ?c ?w)] =>
    destruct (fst (host_exec host c w)) as [e|] end.
  - split; [exists false; split; [reflexivity | now exists e]|].
    split; [reflexivity|]. intros _.
    constructor; [right; reflexivity | constructor].
  - split; [exists true; split; [reflexivity | eexists; reflexivity]|].
    split; [reflexivity|]. intros _.
    constructor; [right; reflexivity | constructor].
Qed.

Lemma TM_body_handles (f : string) (t : Tally) (s : Proc World) :
  exists a, handles [f] [a] t s (TransparencyMaker.processImages_body host f t s).
Proof.
  unfold TransparencyMaker.processImages_body.
  apply (one_group_handles f t s _ _ [] _
           (TM_ImageMagick_settles f) (TM_FFmpeg_settles f)
           (Forall_nil _) (fun m => m)).
  intros m s0. now rewrite prepend_nil.
Qed.

(** Events of a kind that no part of a computation produces. *)
Lemma bind_without {A B} (p : Event -> bool) (m : M World A) (k : A -> M World B)
  (s : Proc World) :
  filter p (events (m s)) = [] ->
  (forall a s', filter p (events (k a s')) = []) ->
  filter p (events (bind m k s)) = [].
Proof.
  intros Hm Hk. unfold bind.
  destruct (res (m s)); cbn [events]; try assumption.
  now rewrite filter_app, Hm, Hk.
Qed.

Lemma try_catch_without {A} (p : Event -> bool) (m : M World A)
  (h : Error -> M World A) (s : Proc World) :
  filter p (events (m s)) = [] ->
  (forall e s', filter p (events (h e s')) = []) ->
  filter p (events (try_catch m h s)) = [].
Proof.
  intros Hm Hh. unfold try_catch.
  destruct (res (m s)); cbn [events]; try assumption.
  now rewrite filter_app, Hm, Hh.
Qed.

(** Neither backend of transparency-maker.js touches a file itself. *)
Lemma TM_body_changes_nothing (f : string) (t : Tally) (s : Proc World) :
  filter changes_files (events (TransparencyMaker.processImages_body host f t s)) = [].
Proof.
  unfold TransparencyMaker.processImages_body.
  apply try_catch_without.
  - apply bind_without; [|reflexivity].
    pose proof (TM_ImageMagick_run host f f s) as H. cbv zeta in H. rewrite H.
    match goal with |- context [fst (host_exec host ?c ?w)] =>
      now destruct (fst (host_exec host c w)) end.
  - intros e s'. apply try_catch_without; [|reflexivity].
    apply bind_without; [|reflexivity].
    pose proof (TM_FFmpeg_run f f s') as H. cbv zeta in H. rewrite H.
    match goal with |- context [fst (host_exec host ?c ?w)] =>
      now destruct (fst (host_exec host c w)) end.
Qed.

Lemma for_of_changes_nothing (body : string -> Tally -> M World Tally)
  (names : list string) :
  (forall b t s, filter changes_files (events (body b t s)) = []) ->
  forall t s, filter changes_files (events (for_of names body t s)) = [].
Proof.
  intros Hbody. induction names as [|b names IH]; intros t s; [reflexivity|].
  cbn [for_of]. unfold bind.
  destruct (res (body b t s)) as [t'|e|c] eqn:Hr; cbn [events]; try apply Hbody.
  now rewrite filter_app, Hbody, IH.
Qed.

Lemma tally_of_sum (atts : list Attempt) :
  (successCount (tally_of atts) + failCount (tally_of atts))%nat = List.length atts.
Proof.
  unfold tally_of. cbn [successCount failCount].
  induction atts as [|a atts IH]; [reflexivity|].
  cbn [filter]. destruct (is_failed a); cbn [negb List.length]; lia.
Qed.

Lemma handles_from_zero (names : list string) (atts : list Attempt) (s : Proc World)
  (r : Run World Tally) :
  handles names atts (mkTally 0 0) s r -> res r = Value (tally_of atts).
Proof.
  intros (Hres & _). rewrite Hres, fold_bump. now destruct (tally_of atts).
Qed.

End Transparency.

(* ================================================================== *)
(** * Further properties of the drivers                                *)
(* ================================================================== *)

(** X9.  [processImages] of transparency-maker.js treats every file of
    its list, in order, by the same policy as the GIF drivers: one call
    of the ImageMagick function; on its rejection exactly one call of
    the FFmpeg function; on that rejection one increment of
    [failCount].  The loop always runs to its end, leaves
    [global.imageMagickPath] alone, and neither writes, deletes nor
    creates a file itself. *)
Theorem processImages_attempts_every_file
  {World : Type} (host : Host World) (files : list string) (s : Proc World) :
  let loop := TransparencyMaker.processImages_loop host files s in
  exists atts,
    List.length atts = List.length files
    /\ res loop = Value (tally_of atts)
    /\ backend_events (events loop) = driver_events files atts
    /\ imageMagickPath (final loop) = imageMagickPath s
    /\ filter changes_files (events loop) = [].
Proof.
  cbv zeta. unfold TransparencyMaker.processImages_loop.
  destruct (for_of_handles (TransparencyMaker.processImages_body host) files
              (TM_body_handles host) (mkTally 0 0) s) as (atts & Hlen & Hh).
  exists atts. split; [exact Hlen|].
  split; [now apply (handles_from_zero files atts s)|].
  destruct Hh as (_ & Hev & Hg & _).
  split; [exact Hev|]. split; [exact Hg|].
  apply for_of_changes_nothing. apply TM_body_changes_nothing.
Qed.

(** X10.  The counters of a driver account for every item: when the
    loop of [createGifs], of [createTransparentGifs] or of
    [processImages] ends, [successCount + failCount] is the number of
    groups (of files), and [createGifs] prints these two counters in
    its closing line. *)
Theorem tally_accounts_for_every_item
  {World : Type} (host : Host World) (groups : Groups) (files : list string)
  (s : Proc World) :
  (exists t,
     res (GifCreator.createGifs_loop host groups s) = Value t
     /\ (successCount t + failCount t)%nat = List.length groups
     /\ In (EvLog (LF ++ " Done! Created " ++ show_nat (successCount t) ++ " GIFs"
                   ++ failed_suffix (failCount t)))
           (events (GifCreator.createGifs host groups s)))
  /\ (exists t,
        res (TransparentGifCreator.createTransparentGifs_loop host groups s) = Value t
        /\ (successCount t + failCount t)%nat = List.length groups)
  /\ (exists t,
        res (TransparencyMaker.processImages_loop host files s) = Value t
        /\ (successCount t + failCount t)%nat = List.length files).
Proof.
  assert (Hkeys : List.length (Object_keys groups) = List.length groups).
  { rewrite (Permutation_length (Object_keys_perm groups)). apply length_map. }
  split; [|split].
  - destruct (for_of_handles (GifCreator.createGifs_body host groups)
                (Object_keys groups) (GC_body_handles host groups) (mkTally 0 0) s)
      as (atts & Hlen & Hh).
    pose proof (handles_from_zero _ _ _ _ Hh) as Hres.
    exists (tally_of atts).
    split; [exact Hres|]. split; [rewrite tally_of_sum; congruence|].
    destruct (GC_createGifs_run host groups s) as (t & Ht & Hrun). cbv zeta in Hrun.
    unfold GifCreator.createGifs_loop in Ht. rewrite Hres in Ht. injection Ht as <-.
    rewrite Hrun. cbn [events]. right. apply in_or_app. right. left. reflexivity.
  - destruct (for_of_handles (TransparentGifCreator.createTransparentGifs_body host groups)
                (Object_keys groups) (TG_body_handles host groups) (mkTally 0 0) s)
      as (atts & Hlen & Hh).
    exists (tally_of atts).
    split; [exact (handles_from_zero _ _ _ _ Hh)|]. rewrite tally_of_sum. congruence.
  - destruct (for_of_handles (TransparencyMaker.processImages_body host) files
                (TM_body_handles host) (mkTally 0 0) s) as (atts & Hlen & Hh).
    exists (tally_of atts).
    split; [exact (handles_from_zero _ _ _ _ Hh)|]. rewrite tally_of_sum. congruence.
Qed.

Section TransparencyMain.
Context {World : Type} (host : Host World).

Lemma TM_processImages_run (s : Proc World) :
  let listing := fst (host_readdirSync host TransparencyMaker.texturesDir (world s)) in
  let s1 := with_world s
              (snd (host_readdirSync host TransparencyMaker.texturesDir (world s))) in
  match listing with
  | Thrown e =>
      TransparencyMaker.processImages host s
      = mkRun [EvReaddirSync TransparencyMaker.texturesDir listing] s1 (Throw e)
  | Ok files =>
      let loop := TransparencyMaker.processImages_loop host (png_files files) s1 in
      exists t,
        res loop = Value t
        /\ TransparencyMaker.processImages host s
           = mkRun (EvReaddirSync TransparencyMaker.texturesDir listing
                    :: TransparencyLines.processing (List.length (png_files files))
                    :: events loop ++ TransparencyLines.tally t)
                   (final loop) (Value tt)
  end.
Proof.
  cbv zeta. unfold TransparencyMaker.processImages, TransparencyMaker.getAllPngFiles.
  rewrite bind_assoc, bind_readdirSync.
  destruct (fst (host_readdirSync host TransparencyMaker.texturesDir (world s)))
    as [files|e]; [|reflexivity].
  fold (png_files files).
  set (s1 := with_world s _).
  destruct (for_of_handles (TransparencyMaker.processImages_body host) (png_files files)
              (TM_body_handles host) (mkTally 0 0) s1) as (atts & _ & Hh).
  pose proof (handles_from_zero _ _ _ _ Hh) as Hres.
  change (for_of (png_files files) (TransparencyMaker.processImages_body host) (mkTally 0 0) s1)
    with (TransparencyMaker.processImages_loop host (png_files files) s1) in Hres.
  exists (tally_of atts). split; [exact Hres|].
  rewrite bind_ret, bind_log. rewrite (bind_Value _ _ _ _ Hres).
  run. unfold prepend. cbn [events final res]. unfold TransparencyLines.processing,
    TransparencyLines.tally. cbn [app]. f_equal.
Qed.

Lemma TM_processImages_res (s : Proc World) :
  res (TransparencyMaker.processImages host s) = Value tt
  \/ exists e, res (TransparencyMaker.processImages host s) = Throw e.
Proof.
  pose proof (TM_processImages_run s) as H. cbv zeta in H.
  destruct (fst (host_readdirSync host TransparencyMaker.texturesDir (world s)))
    as [files|e].
  - destruct H as (t & _ & ->). now left.
  - rewrite H. right. now exists e.
Qed.

Lemma TM_main_run (s : Proc World) :
  let present := fst (host_existsSync host TransparencyMaker.texturesDir (world s)) in
  let s1 := with_world s
              (snd (host_existsSync host TransparencyMaker.texturesDir (world s))) in
  let probe := TransparencyMaker.checkDependencies host s1 in
  let listing :=
    fst (host_readdirSync host TransparencyMaker.texturesDir (world (final probe))) in
  let s2 := with_world (final probe)
              (snd (host_readdirSync host TransparencyMaker.texturesDir
                      (world (final probe)))) in
  exists tool,
    res probe = Value tool
    /\ TransparencyMaker.main host s
       = if negb present
         then mkRun (TransparencyLines.banner
                     ++ EvExistsSync TransparencyMaker.texturesDir false
                     :: TransparencyLines.missing_input)
                    s1 (Exit 1)
         else if negb (truthy tool)
         then mkRun (TransparencyLines.banner
                     ++ EvExistsSync TransparencyMaker.texturesDir true
                     :: events probe ++ TransparencyLines.no_tool)
                    (final probe) (Exit 1)
         else
           let pre : list Event :=
             (TransparencyLines.banner
              ++ EvExistsSync TransparencyMaker.texturesDir true
              :: events probe
              ++ [ TransparencyLines.scanning;
                   EvReaddirSync TransparencyMaker.texturesDir listing ])%list in
           match listing with
           | Thrown e => mkRun pre s2 (Throw e)
           | Ok files =>
               if (List.length (png_files files) =? 0)%nat
               then mkRun (pre ++ [TransparencyLines.nothing_to_do]) s2 (Value tt)
               else prepend
                      (pre ++ [TransparencyLines.found (List.length (png_files files))])
                      (TransparencyMaker.processImages host s2)
           end.
Proof.
  cbv zeta.
  destruct (TM_checkDependencies_resolves host
              (with_world s
                 (snd (host_existsSync host TransparencyMaker.texturesDir (world s)))))
    as (tool & Htool & _).
  exists tool. split; [exact Htool|].
  unfold TransparencyMaker.main. rewrite !bind_log, bind_existsSync.
  destruct (fst (host_existsSync host TransparencyMaker.texturesDir (world s))).
  - cbn [negb]. rewrite bind_ret. rewrite (bind_Value _ _ _ _ Htool).
    destruct (truthy tool); cbn [negb].
    + rewrite bind_ret, bind_log.
      unfold TransparencyMaker.getAllPngFiles. rewrite bind_assoc, bind_readdirSync.
      destruct (fst (host_readdirSync host TransparencyMaker.texturesDir _))
        as [files|e].
      * rewrite bind_ret. fold (png_files files).
        destruct (List.length (png_files files) =? 0)%nat.
        -- unfold console_log, emit, prepend. cbn [events final res].
           unfold TransparencyLines.banner, TransparencyLines.scanning,
             TransparencyLines.nothing_to_do.
           cbn [app]. f_equal. f_equal. f_equal. f_equal.
           rewrite <- !app_assoc. reflexivity.
        -- rewrite bind_log. rewrite !prepend_prepend.
           unfold TransparencyLines.banner, TransparencyLines.scanning,
             TransparencyLines.found.
           f_equal. cbn [app]. f_equal. f_equal. f_equal.
           rewrite <- !app_assoc. reflexivity.
      * unfold prepend. cbn [events final res].
        unfold TransparencyLines.banner, TransparencyLines.scanning.
        cbn [app]. f_equal.
    + run. reflexivity.
  - cbn [negb]. run. reflexivity.
Qed.

Lemma TM_script_run (s : Proc World) :
  TransparencyMaker.script host s
  = bind (ensure_output_dir host TransparencyMaker.outputDir)
         (fun _ => try_catch (TransparencyMaker.main host)
                             (fun e => console_error e)) s.
Proof. unfold TransparencyMaker.script, ensure_output_dir. now rewrite bind_assoc. Qed.

Lemma GC_script_run (s : Proc World) :
  GifCreator.script host s
  = bind (ensure_output_dir host GifCreator.outputDir)
         (fun _ => try_catch (GifCreator.main host)
                             (fun e => console_error e)) s.
Proof. unfold GifCreator.script, ensure_output_dir. now rewrite bind_assoc. Qed.

Lemma ensure_output_dir_no_exit (dir : string) (s : Proc World) (c : Z) :
  res (ensure_output_dir host dir s) <> Exit c.
Proof.
  pose proof (ensure_output_dir_run host dir s) as H. cbv zeta in H. rewrite H.
  destruct (fst (host_existsSync host _ _)); [discriminate|].
  destruct (fst (host_mkdirSync host _ _)); discriminate.
Qed.

(** The exit code of [try { main } catch { console.error }]. *)
Lemma exit_code_caught (m : M World unit) (s : Proc World) :
  exit_code (try_catch m (fun e => console_error e) s)
  = match res (m s) with
    | Exit c => c
    | _ => 0
    end.
Proof.
  unfold try_catch, exit_code. cbv zeta.
  destruct (res (m s)) eqn:H; try rewrite H; reflexivity.
Qed.

End TransparencyMain.

(* ================================================================== *)
(** * Further properties of the scripts                                *)
(* ================================================================== *)

(** X11.  [main] of transparency-maker.js checks the textures
    directory, then probes, then lists the directory, and ends cleanly
    when the listing holds no PNG file; otherwise it calls
    [processImages], which lists the directory once more and works on
    the PNG files of that second listing.  A listing that throws ends
    either function with that exception. *)
Theorem transparency_main_phases
  {World : Type} (host : Host World) (s : Proc World) :
  (let present := fst (host_existsSync host TransparencyMaker.texturesDir (world s)) in
   let s1 := with_world s
               (snd (host_existsSync host TransparencyMaker.texturesDir (world s))) in
   let probe := TransparencyMaker.checkDependencies host s1 in
   let listing :=
     fst (host_readdirSync host TransparencyMaker.texturesDir (world (final probe))) in
   let s2 := with_world (final probe)
               (snd (host_readdirSync host TransparencyMaker.texturesDir
                       (world (final probe)))) in
   exists tool,
     res probe = Value tool
     /\ TransparencyMaker.main host s
        = if negb present
          then mkRun (TransparencyLines.banner
                      ++ EvExistsSync TransparencyMaker.texturesDir false
                      :: TransparencyLines.missing_input)
                     s1 (Exit 1)
          else if negb (truthy tool)
          then mkRun (TransparencyLines.banner
                      ++ EvExistsSync TransparencyMaker.texturesDir true
                      :: events probe ++ TransparencyLines.no_tool)
                     (final probe) (Exit 1)
          else
            let pre : list Event :=
              (TransparencyLines.banner
               ++ EvExistsSync TransparencyMaker.texturesDir true
               :: events probe
               ++ [ TransparencyLines.scanning;
                    EvReaddirSync TransparencyMaker.texturesDir listing ])%list in
            match listing with
            | Thrown e => mkRun pre s2 (Throw e)
            | Ok files =>
                if (List.length (png_files files) =? 0)%nat
                then mkRun (pre ++ [TransparencyLines.nothing_to_do]) s2 (Value tt)
                else prepend
                       (pre ++ [TransparencyLines.found (List.length (png_files files))])
                       (TransparencyMaker.processImages host s2)
            end)
  /\ (let listing := fst (host_readdirSync host TransparencyMaker.texturesDir (world s)) in
      let s1 := with_world s
                  (snd (host_readdirSync host TransparencyMaker.texturesDir (world s))) in
      match listing with
      | Thrown e =>
          TransparencyMaker.processImages host s
          = mkRun [EvReaddirSync TransparencyMaker.texturesDir listing] s1 (Throw e)
      | Ok files =>
          let loop := TransparencyMaker.processImages_loop host (png_files files) s1 in
          exists t,
            res loop = Value t
            /\ TransparencyMaker.processImages host s
               = mkRun (EvReaddirSync TransparencyMaker.texturesDir listing
                        :: TransparencyLines.processing (List.length (png_files files))
                        :: events loop ++ TransparencyLines.tally t)
                       (final loop) (Value tt)
      end).
Proof.
  split.
  - exact (TM_main_run host s).
  - exact (TM_processImages_run host s).
Qed.

(** X12.  The exit code of transparency-maker.js.  The script first
    makes sure its output directory exists; if creating it throws, the
    process ends with code 1.  Otherwise the code is 1 when the textures
    directory is missing or the probe finds no tool, and 0 in every
    other case: nothing to do, all files processed, some files failed,
    or an exception of a directory listing, which the final [catch]
    prints. *)
Theorem transparency_script_exit_code
  {World : Type} (host : Host World) (w : World) :
  let load := ensure_output_dir host TransparencyMaker.outputDir (start w) in
  let r := TransparencyMaker.script host (start w) in
  match res load with
  | Exit _ => False
  | Throw _ => exit_code r = 1 /\ events r = events load
  | Value _ =>
      let s0 := final load in
      let present :=
        fst (host_existsSync host TransparencyMaker.texturesDir (world s0)) in
      let s1 :=
        with_world s0
          (snd (host_existsSync host TransparencyMaker.texturesDir (world s0))) in
      if negb present
      then exit_code r = 1
      else match res (TransparencyMaker.checkDependencies host s1) with
           | Value tool => exit_code r = if truthy tool then 0 else 1
           | _ => False
           end
  end.
Proof.
  cbv zeta. rewrite TM_script_run.
  destruct (res (ensure_output_dir host TransparencyMaker.outputDir (start w)))
    as [[]|e|c] eqn:Hload.
  - rewrite (bind_Value _ _ _ _ Hload), exit_code_prepend, exit_code_caught.
    set (s0 := final (ensure_output_dir host TransparencyMaker.outputDir (start w))).
    destruct (TM_main_run host s0) as (tool & Htool & Hmain). cbv zeta in Hmain.
    rewrite Htool, Hmain.
    destruct (fst (host_existsSync host TransparencyMaker.texturesDir (world s0)));
      cbn [negb]; [|reflexivity].
    destruct (truthy tool); cbn [negb]; [|reflexivity].
    destruct (fst (host_readdirSync host TransparencyMaker.texturesDir _))
      as [files|e]; [|reflexivity].
    destruct (List.length (png_files files) =? 0)%nat; [reflexivity|].
    rewrite res_prepend.
    match goal with |- context [TransparencyMaker.processImages host ?s2] =>
      destruct (TM_processImages_res host s2) as [-> | [e ->]] end; reflexivity.
  - rewrite (bind_Throw _ _ _ _ Hload). split; reflexivity.
  - now apply ensure_output_dir_no_exit in Hload.
Qed.

(** X13.  The exit code of gifcreator.js.  If creating the output
    directory throws, the process ends with code 1.  Otherwise the code
    is 1 when the textures directory is missing; 0 when listing or
    grouping throws (the final [catch] prints the exception) and when
    no group is found, without any probe; and, with groups, 1 when the
    probe finds no tool and 0 when it finds one, whatever becomes of
    the groups. *)
Theorem gifcreator_script_exit_code
  {World : Type} (host : Host World) (w : World) :
  let load := ensure_output_dir host GifCreator.outputDir (start w) in
  let r := GifCreator.script host (start w) in
  match res load with
  | Exit _ => False
  | Throw _ => exit_code r = 1 /\ events r = events load
  | Value _ =>
      let s0 := final load in
      let present := fst (host_existsSync host GifCreator.texturesDir (world s0)) in
      let s1 :=
        with_world s0 (snd (host_existsSync host GifCreator.texturesDir (world s0))) in
      let listing := fst (host_readdirSync host GifCreator.texturesDir (world s1)) in
      let s2 :=
        with_world s1 (snd (host_readdirSync host GifCreator.texturesDir (world s1))) in
      if negb present
      then exit_code r = 1
      else match listing with
           | Thrown _ => exit_code r = 0
           | Ok files =>
               match group_files (path_join host) GifCreator.texturesDir files with
               | Thrown _ => exit_code r = 0
               | Ok groups =>
                   match Object_keys groups with
                   | [] => exit_code r = 0 /\ exec_commands (events r) = []
                   | _ :: _ =>
                       match res (GifCreator.checkDependencies host s2) with
                       | Value tool => exit_code r = if truthy tool then 0 else 1
                       | _ => False
                       end
                   end
               end
           end
  end.
Proof.
  cbv zeta. rewrite GC_script_run.
  destruct (res (ensure_output_dir host GifCreator.outputDir (start w)))
    as [[]|e|c] eqn:Hload.
  - rewrite (bind_Value _ _ _ _ Hload), exit_code_prepend, exit_code_caught.
    set (s0 := final (ensure_output_dir host GifCreator.outputDir (start w))).
    destruct (GC_main_run host s0) as (tool & Htool & _ & Hmain). cbv zeta in Hmain.
    rewrite Htool, Hmain.
    destruct (fst (host_existsSync host GifCreator.texturesDir (world s0)));
      cbn [negb]; [|reflexivity].
    destruct (fst (host_readdirSync host GifCreator.texturesDir _))
      as [files|e]; [|reflexivity].
    destruct (group_files (path_join host) GifCreator.texturesDir files)
      as [groups|e]; [|reflexivity].
    destruct (Object_keys groups) as [|k ks] eqn:Hkeys.
    + split; [reflexivity|].
      rewrite events_prepend, exec_commands_app.
      pose proof (ensure_output_dir_run host GifCreator.outputDir (start w)) as Hl.
      cbv zeta in Hl. fold s0. unfold try_catch. rewrite Hmain.
      cbn [res events]. replace (events _) with (events (ensure_output_dir host GifCreator.outputDir (start w))) by reflexivity.
      rewrite Hl.
      destruct (fst (host_existsSync host GifCreator.outputDir _)); [reflexivity|].
      destruct (fst (host_mkdirSync host GifCreator.outputDir _)); reflexivity.
    + destruct (truthy tool); cbn [negb]; [|reflexivity].
      rewrite res_prepend.
      match goal with |- context [GifCreator.createGifs host groups ?s3] =>
        destruct (GC_createGifs_run host groups s3) as (t & _ & ->) end.
      reflexivity.
  - rewrite (bind_Throw _ _ _ _ Hload). split; reflexivity.
  - now apply ensure_output_dir_no_exit in Hload.
Qed.

Section ProbeAgain.
Context {World : Type} (host : Host World).

Lemma sbc_sym {A} (r r' : Run World A) : same_but_console r r' -> same_but_console r' r.
Proof. intros (H1 & H2 & H3). now repeat split. Qed.

Lemma sbc_trans {A} (r1 r2 r3 : Run World A) :
  same_but_console r1 r2 -> same_but_console r2 r3 -> same_but_console r1 r3.
Proof.
  intros (H1 & H2 & H3) (K1 & K2 & K3).
  repeat split; etransitivity; eassumption.
Qed.

Lemma exec_commands_silent (evs : list Event) :
  exec_commands (silent evs) = exec_commands evs.
Proof.
  induction evs as [|ev evs IH]; [reflexivity|].
  unfold silent, exec_commands in *. cbn [filter].
  destruct ev; cbn [is_console negb flat_map app]; rewrite ?IH; reflexivity.
Qed.

Lemma sbc_same_outcome {A} (r r' : Run World A) :
  same_but_console r r' -> same_outcome r r'.
Proof.
  intros (H1 & H2 & H3). repeat split; try assumption.
  now rewrite <- (exec_commands_silent (events r)), H1, exec_commands_silent.
Qed.

Lemma same_outcome_prepend {A} (evs evs' : list Event) (r r' : Run World A) :
  exec_commands evs = exec_commands evs' ->
  same_outcome r r' -> same_outcome (prepend evs r) (prepend evs' r').
Proof.
  intros He (H1 & H2 & H3). repeat split; try assumption.
  rewrite !events_prepend, !exec_commands_app. congruence.
Qed.

(** The end of gifcreator.js's probe: the well-known paths, then FFmpeg. *)
Lemma GC_search_refines (paths : list string) (s : Proc World) :
  same_but_console
    (bind (GifCreator.search_commonPaths host paths)
       (fun found =>
          match found with
          | Some tool => ret (Some tool)
          | None =>
              bind (console_log "Trying FFmpeg...")
                (fun _ =>
                   bind (exec host "ffmpeg -version")
                     (fun error =>
                        match error with
                        | None =>
                            bind (console_log "FFmpeg detected")
                              (fun _ => ret (Some "ffmpeg"))
                        | Some _ =>
                            bind (console_log "No image processing tools found")
                              (fun _ => ret None)
                        end))
          end) s)
    (first_success host
       (map PathCheck paths ++ [VersionQuery "ffmpeg -version" "ffmpeg"]) s).
Proof.
  revert s. induction paths as [|p paths IH]; intros s.
  - cbn [GifCreator.search_commonPaths map app first_success]. run.
    apply sbc_log_l, sbc_prepend.
    destruct (fst (host_exec host "ffmpeg -version" (world s))); run;
      apply sbc_log_l, sbc_refl.
  - cbn [GifCreator.search_commonPaths map app first_success]. run.
    apply sbc_log_l, sbc_prepend.
    destruct (fst (host_existsSync host p (world s))).
    + run. apply sbc_log_l, sbc_refl.
    + apply IH.
Qed.

Lemma GC_checkDependencies_refines (s : Proc World) :
  truthy (env_MAGICK_PATH host) = false ->
  same_but_console
    (GifCreator.checkDependencies host s)
    (first_success host (probe_steps (env_MAGICK_PATH host)) s).
Proof.
  intros Henv.
  unfold GifCreator.checkDependencies, probe_steps. rewrite Henv.
  cbn [app first_success]. run. apply sbc_prepend.
  destruct (fst (host_exec host "magick -version" (world s))) as [e1|];
    [|run; apply sbc_log_l, sbc_refl].
  run. apply sbc_prepend.
  match goal with |- context [fst (host_exec host "convert -version" ?w)] =>
    destruct (fst (host_exec host "convert -version" w)) as [e2|] end;
    [|run; apply sbc_log_l, sbc_refl].
  run. do 3 apply sbc_log_l. apply GC_search_refines.
Qed.

Lemma with_world_same (s : Proc World) : with_world s (world s) = s.
Proof. now destruct s. Qed.

Lemma GC_checkDependencies_agrees (s : Proc World) :
  (forall p w, snd (host_existsSync host p w) = w) ->
  same_outcome (GifCreator.checkDependencies host s)
               (TransparencyMaker.checkDependencies host s).
Proof.
  intros Hpure.
  destruct (truthy (env_MAGICK_PATH host)) eqn:Henv.
  2:{ apply sbc_same_outcome.
      eapply sbc_trans; [now apply GC_checkDependencies_refines|].
      apply sbc_sym, TM_checkDependencies_refines. }
  unfold GifCreator.checkDependencies, TransparencyMaker.checkDependencies.
  rewrite Henv. run.
  apply same_outcome_prepend; [reflexivity|].
  destruct (fst (host_exec host "magick -version" (world s))) as [e1|];
    [|run; apply same_outcome_prepend; [reflexivity | now repeat split]].
  run. apply same_outcome_prepend; [reflexivity|].
  match goal with |- context [fst (host_exec host "convert -version" ?w)] =>
    destruct (fst (host_exec host "convert -version" w)) as [e2|] end;
    [|run; apply same_outcome_prepend; [reflexivity | now repeat split]].
  match goal with |- context [snd (host_exec host "convert -version" ?w)] =>
    set (s2 := with_world (with_world s (snd (host_exec host "magick -version" (world s))))
                 (snd (host_exec host "convert -version" w))) end.
  run. rewrite ?prepend_prepend.
  unfold with_world. cbn [world imageMagickPath]. rewrite !Hpure.
  destruct (fst (host_existsSync host (show_opt (env_MAGICK_PATH host)) (world s2))).
  - run. rewrite ?prepend_prepend.
    apply same_outcome_prepend; [reflexivity|]. now repeat split.
  - run. rewrite ?prepend_prepend.
    apply same_outcome_prepend; [reflexivity|].
    apply sbc_same_outcome.
    eapply sbc_trans; [apply GC_search_refines|].
    apply sbc_sym, TM_search_refines.
Qed.

End ProbeAgain.

Section ProbeLooks.
Context {World : Type} (host : Host World).

#[local] Abbreviation stray :=
  (fun ev => negb (is_probe_event (env_MAGICK_PATH host) ev)).

Lemma exec_without (p : Event -> bool) (c : string) (s : Proc World) :
  (forall err, p (EvExec c err) = false) ->
  filter p (events (exec host c s)) = [].
Proof.
  intros H. unfold exec. destruct (host_exec host c (world s)) as [err w].
  cbn [events filter]. now rewrite H.
Qed.

Lemma existsSync_without (p : Event -> bool) (f : string) (s : Proc World) :
  (forall b, p (EvExistsSync f b) = false) ->
  filter p (events (existsSync host f s)) = [].
Proof.
  intros H. unfold existsSync. destruct (host_existsSync host f (world s)) as [b w].
  cbn [events filter]. now rewrite H.
Qed.

Lemma TM_search_looks (paths : list string) (s : Proc World) :
  Forall (fun p => mem_string p commonPaths = true) paths ->
  filter stray (events (TransparencyMaker.search_commonPaths host paths s)) = [].
Proof.
  revert s. induction paths as [|p paths IH]; intros s Hall; [reflexivity|].
  inversion Hall as [|? ? Hp Hps]; subst.
  cbn [TransparencyMaker.search_commonPaths].
  apply bind_without.
  - apply existsSync_without. intros b. cbn [is_probe_event]. now rewrite Hp.
  - intros [|] s'; [reflexivity | now apply IH].
Qed.

Lemma GC_search_looks (paths : list string) (s : Proc World) :
  Forall (fun p => mem_string p commonPaths = true) paths ->
  filter stray (events (GifCreator.search_commonPaths host paths s)) = [].
Proof.
  revert s. induction paths as [|p paths IH]; intros s Hall; [reflexivity|].
  inversion Hall as [|? ? Hp Hps]; subst.
  cbn [GifCreator.search_commonPaths].
  apply bind_without; [reflexivity|]. intros _ s0.
  apply bind_without.
  - apply existsSync_without. intros b. cbn [is_probe_event]. now rewrite Hp.
  - intros [|] s'; [reflexivity | now apply IH].
Qed.

Lemma commonPaths_known :
  Forall (fun p => mem_string p commonPaths = true) commonPaths.
Proof. repeat constructor. Qed.

Lemma env_path_looks (s : Proc World) :
  filter stray (events (existsSync host (show_opt (env_MAGICK_PATH host)) s)) = [].
Proof.
  apply existsSync_without. intros b. cbn [is_probe_event].
  now rewrite String.eqb_refl, orb_true_r.
Qed.

Lemma TM_checkDependencies_looks (s : Proc World) :
  filter stray (events (TransparencyMaker.checkDependencies host s)) = [].
Proof.
  unfold TransparencyMaker.checkDependencies.
  apply bind_without; [now apply exec_without|].
  intros [e1|] s1; [|reflexivity].
  apply bind_without; [now apply exec_without|].
  intros [e2|] s2; [|reflexivity].
  apply bind_without.
  - destruct (truthy (env_MAGICK_PATH host)); [|reflexivity].
    apply bind_without; [apply env_path_looks|].
    intros [|] s3; reflexivity.
  - intros [tool|] s3; [reflexivity|].
    apply bind_without; [apply TM_search_looks, commonPaths_known|].
    intros [tool|] s4; [reflexivity|].
    apply bind_without; [now apply exec_without|].
    intros [e3|] s5; reflexivity.
Qed.

Lemma GC_checkDependencies_looks (s : Proc World) :
  filter stray (events (GifCreator.checkDependencies host s)) = [].
Proof.
  unfold GifCreator.checkDependencies.
  apply bind_without; [now apply exec_without|].
  intros [e1|] s1; [|reflexivity].
  apply bind_without; [now apply exec_without|].
  intros [e2|] s2; [|reflexivity].
  apply bind_without; [reflexivity|]. intros _ s2'.
  apply bind_without.
  - destruct (truthy (env_MAGICK_PATH host)); [|reflexivity].
    apply bind_without; [apply env_path_looks|]. intros shown s3.
    apply bind_without; [reflexivity|]. intros _ s3'.
    apply bind_without; [apply env_path_looks|].
    intros [|] s4; reflexivity.
  - intros [tool|] s3; [reflexivity|].
    apply bind_without; [reflexivity|]. intros _ s3'.
    apply bind_without; [apply GC_search_looks, commonPaths_known|].
    intros [tool|] s4; [reflexivity|].
    apply bind_without; [reflexivity|]. intros _ s4'.
    apply bind_without; [now apply exec_without|].
    intros [e3|] s5; reflexivity.
Qed.

Lemma filter_none_forallb {A} (p : A -> bool) (l : list A) :
  filter (fun x => negb (p x)) l = [] -> forallb p l = true.
Proof.
  induction l as [|x l IH]; [reflexivity|]. cbn [filter forallb].
  destruct (p x); cbn [negb andb]; [exact IH | discriminate].
Qed.

End ProbeLooks.

(* ================================================================== *)
(** * Further properties of the probe                                  *)
(* ================================================================== *)

(** X14.  The probe of gifcreator.js, which prints more and asks twice
    whether the path of [MAGICK_PATH] exists, comes to the same end as
    the probe of the other two scripts.  When [MAGICK_PATH] is not set
    it makes exactly the same calls, console output aside; on a machine
    where asking for a path's existence changes nothing it resolves
    with the same tool, leaves the same state and runs the same
    commands. *)
Theorem gifcreator_probe_agrees
  {World : Type} (host : Host World) (s : Proc World) :
  (truthy (env_MAGICK_PATH host) = false ->
   same_but_console (GifCreator.checkDependencies host s)
                    (TransparencyMaker.checkDependencies host s))
  /\ ((forall p w, snd (host_existsSync host p w) = w) ->
      same_outcome (GifCreator.checkDependencies host s)
                   (TransparencyMaker.checkDependencies host s)).
Proof.
  split.
  - intros Henv.
    eapply sbc_trans; [now apply GC_checkDependencies_refines|].
    apply sbc_sym, TM_checkDependencies_refines.
  - apply GC_checkDependencies_agrees.
Qed.

Lemma gifcreator_probe_agrees_witness :
  let unset := simple_host None in
  let set := simple_host (Some installed_path) in
  let s := start path_only_disk in
  same_but_console (GifCreator.checkDependencies unset s)
                   (TransparencyMaker.checkDependencies unset s)
  /\ same_outcome (GifCreator.checkDependencies set s)
                  (TransparencyMaker.checkDependencies set s).
Proof.
  intros unset set s. split.
  - exact (proj1 (gifcreator_probe_agrees unset s) eq_refl).
  - exact (proj2 (gifcreator_probe_agrees set s) (fun _ _ => eq_refl)).
Defined.

(** X15.  A probe only looks: whatever the machine answers, each of
    the three [checkDependencies] does nothing but run the version
    queries of [magick], [convert] and [ffmpeg], ask whether the path
    of [MAGICK_PATH] or a well-known path exists, and write to the
    console.  It never lists a directory, writes, deletes or creates a
    file, and never ends the process. *)
Theorem probe_only_looks
  {World : Type} (host : Host World) (s : Proc World) :
  forallb (is_probe_event (env_MAGICK_PATH host))
          (events (TransparencyMaker.checkDependencies host s)) = true
  /\ forallb (is_probe_event (env_MAGICK_PATH host))
             (events (TransparentGifCreator.checkDependencies host s)) = true
  /\ forallb (is_probe_event (env_MAGICK_PATH host))
             (events (GifCreator.checkDependencies host s)) = true.
Proof.
  split; [|split].
  - apply filter_none_forallb, TM_checkDependencies_looks.
  - apply filter_none_forallb, TM_checkDependencies_looks.
  - apply filter_none_forallb, GC_checkDependencies_looks.
Qed.

Section PrimaryWorks.
Context {World : Type} (host : Host World).

Hypothesis magick_works :
  forall c w, starts_with "magick " c = true -> fst (host_exec host c w) = None.

Lemma for_of_all_primary (body : string -> Tally -> M World Tally)
  (cmd : string -> string) (names : list string) :
  (forall b t s, imageMagickPath s = None ->
     res (body b t s) = Value (mkTally (S (successCount t)) (failCount t))
     /\ imageMagickPath (final (body b t s)) = None
     /\ exec_commands (events (body b t s)) = [cmd b]
     /\ filter changes_files (events (body b t s)) = []) ->
  forall t s, imageMagickPath s = None ->
    res (for_of names body t s)
    = Value (mkTally (List.length names + successCount t) (failCount t))
    /\ exec_commands (events (for_of names body t s)) = map cmd names
    /\ filter changes_files (events (for_of names body t s)) = [].
Proof.
  intros Hbody. induction names as [|b names IH]; intros t s Hs.
  - cbn. now destruct t.
  - destruct (Hbody b t s Hs) as (Hres & Hg & Hcmd & Hq).
    cbn [for_of]. rewrite (bind_Value _ _ _ _ Hres).
    destruct (IH (mkTally (S (successCount t)) (failCount t)) _ Hg) as (Ir & Ic & Iq).
    rewrite res_prepend, events_prepend, exec_commands_app, filter_app.
    rewrite Ir, Ic, Iq, Hcmd, Hq. cbn [successCount failCount List.length map app].
    repeat split. f_equal. f_equal. lia.
Qed.

Lemma primary_body (b : string) (t : Tally) (s : Proc World)
  (primary fallback : M World string) (failed : string) (c note out : string) :
  primary s
  = mkRun [EvCall ImageMagick b; EvExec c None; EvLog note; EvSettled ImageMagick b true]
          (with_world s (snd (host_exec host c (world s)))) (Value out) ->
  let r := try_catch
             (bind primary (fun _ => ret (mkTally (S (successCount t)) (failCount t))))
             (fun _ =>
                try_catch
                  (bind fallback
                     (fun _ => ret (mkTally (S (successCount t)) (failCount t))))
                  (fun _ =>
                     bind (console_error failed)
                       (fun _ => ret (mkTally (successCount t) (S (failCount t))))))
             s in
  res r = Value (mkTally (S (successCount t)) (failCount t))
  /\ imageMagickPath (final r) = imageMagickPath s
  /\ exec_commands (events r) = [c]
  /\ filter changes_files (events r) = [].
Proof.
  intros Hrun. cbv zeta.
  assert (Hb : res (bind primary
                      (fun _ => ret (mkTally (S (successCount t)) (failCount t))) s)
               = Value (mkTally (S (successCount t)) (failCount t))).
  { rewrite (bind_Value _ _ _ out) by now rewrite Hrun. reflexivity. }
  rewrite (try_catch_Value _ _ _ _ Hb).
  rewrite (bind_Value _ _ _ out) by now rewrite Hrun.
  rewrite Hrun. repeat split.
Qed.

Lemma GC_body_primary (groups : Groups) (b : string) (t : Tally) (s : Proc World) :
  imageMagickPath s = None ->
  let r := GifCreator.createGifs_body host groups b t s in
  res r = Value (mkTally (S (successCount t)) (failCount t))
  /\ imageMagickPath (final r) = None
  /\ exec_commands (events r)
     = [gif_command "magick" (input_files (frames_of groups b))
          (path_join host GifCreator.outputDir (b ++ ".gif"))]
  /\ filter changes_files (events r) = [].
Proof.
  intros Hs. cbv zeta.
  pose proof (GC_ImageMagick_run host b (frames_of groups b) s) as H. cbv zeta in H.
  rewrite Hs in H.
  match type of H with context [fst (host_exec host ?c ?w)] =>
    rewrite (magick_works c w eq_refl) in H end.
  destruct (primary_body b t s _
              (GifCreator.createGifWithFFmpeg host b (frames_of groups b))
              ("✗ Failed to create GIF for " ++ b) _ _ _ H) as (H1 & H2 & H3 & H4).
  unfold GifCreator.createGifs_body.
  repeat split; try assumption. now rewrite H2.
Qed.

Lemma TG_body_primary (groups : Groups) (b : string) (t : Tally) (s : Proc World) :
  imageMagickPath s = None ->
  let r := TransparentGifCreator.createTransparentGifs_body host groups b t s in
  res r = Value (mkTally (S (successCount t)) (failCount t))
  /\ imageMagickPath (final r) = None
  /\ exec_commands (events r)
     = [transparent_gif_command "magick" (input_files (frames_of groups b))
          (path_join host TransparentGifCreator.outputDir (b ++ ".gif"))]
  /\ filter changes_files (events r) = [].
Proof.
  intros Hs. cbv zeta.
  pose proof (TG_ImageMagick_run host b (frames_of groups b) s) as H. cbv zeta in H.
  rewrite Hs in H.
  match type of H with context [fst (host_exec host ?c ?w)] =>
    rewrite (magick_works c w eq_refl) in H end.
  unfold TransparentGifCreator.createTransparentGifs_body.
  match goal with |- context [try_catch _ ?h s] => set (handler := h) end.
  assert (Hb : res (bind (TransparentGifCreator.createTransparentGifWithImageMagick host b
                            (frames_of groups b))
                      (fun _ => ret (mkTally (S (successCount t)) (failCount t))) s)
               = Value (mkTally (S (successCount t)) (failCount t))).
  { erewrite bind_Value by (rewrite H; reflexivity). reflexivity. }
  rewrite (try_catch_Value _ _ _ _ Hb).
  erewrite bind_Value by (rewrite H; reflexivity).
  rewrite H. repeat split. exact Hs.
Qed.

Lemma TM_body_primary (f : string) (t : Tally) (s : Proc World) :
  imageMagickPath s = None ->
  let r := TransparencyMaker.processImages_body host f t s in
  res r = Value (mkTally (S (successCount t)) (failCount t))
  /\ imageMagickPath (final r) = None
  /\ exec_commands (events r)
     = [transparency_primary_command None
          (path_join host TransparencyMaker.texturesDir f)
          (path_join host TransparencyMaker.outputDir f)]
  /\ filter changes_files (events r) = [].
Proof.
  intros Hs. cbv zeta.
  pose proof (TM_ImageMagick_run host f f s) as H. cbv zeta in H.
  rewrite Hs in H.
  match type of H with context [fst (host_exec host ?c ?w)] =>
    rewrite (magick_works c w eq_refl) in H end.
  destruct (primary_body f t s _
              (TransparencyMaker.makeTransparentWithFFmpeg host f f)
              ("✗ Failed to process " ++ f) _ _ _ H) as (H1 & H2 & H3 & H4).
  unfold TransparencyMaker.processImages_body.
  repeat split; try assumption. now rewrite H2.
Qed.

End PrimaryWorks.

(* ================================================================== *)
(** * Further properties of the backends                               *)
(* ================================================================== *)

(** X16.  On a machine where every [magick] command succeeds, and with
    no path recorded by the probe, a driver works through its items
    with the primary backend alone: every item counts as a success,
    the commands run are exactly the [magick] commands of the items in
    iteration order, no FFmpeg command is started, and no manifest or
    other file is written or deleted. *)
Theorem working_magick_needs_no_fallback
  {World : Type} (host : Host World) (groups : Groups) (files : list string)
  (s : Proc World) :
  (forall c w, starts_with "magick " c = true -> fst (host_exec host c w) = None) ->
  imageMagickPath s = None ->
  let gifs := GifCreator.createGifs_loop host groups s in
  let transparent := TransparentGifCreator.createTransparentGifs_loop host groups s in
  let images := TransparencyMaker.processImages_loop host files s in
  (res gifs = Value (mkTally (List.length groups) 0)
   /\ exec_commands (events gifs)
      = map (fun b => gif_command "magick" (input_files (frames_of groups b))
                        (path_join host GifCreator.outputDir (b ++ ".gif")))
            (Object_keys groups)
   /\ filter changes_files (events gifs) = [])
  /\ (res transparent = Value (mkTally (List.length groups) 0)
      /\ exec_commands (events transparent)
         = map (fun b => transparent_gif_command "magick"
                           (input_files (frames_of groups b))
                           (path_join host TransparentGifCreator.outputDir (b ++ ".gif")))
               (Object_keys groups)
      /\ filter changes_files (events transparent) = [])
  /\ (res images = Value (mkTally (List.length files) 0)
      /\ exec_commands (events images)
         = map (fun f => "magick "
                         ++ quoted (path_join host TransparencyMaker.texturesDir f)
                         ++ " -fuzz 5% -transparent black "
                         ++ quoted (path_join host TransparencyMaker.outputDir f))
               files
      /\ filter changes_files (events images) = []).
Proof.
  intros Hmagick Hs. cbv zeta.
  assert (Hkeys : List.length (Object_keys groups) = List.length groups).
  { rewrite (Permutation_length (Object_keys_perm groups)). apply length_map. }
  split; [|split].
  - destruct (for_of_all_primary (GifCreator.createGifs_body host groups) _
                (Object_keys groups)
                (fun b t s0 H0 => GC_body_primary host Hmagick groups b t s0 H0)
                (mkTally 0 0) s Hs) as (Hr & Hc & Hq).
    unfold GifCreator.createGifs_loop. rewrite Hr, Hc, Hq.
    cbn [successCount failCount]. rewrite Nat.add_0_r, Hkeys. now repeat split.
  - destruct (for_of_all_primary
                (TransparentGifCreator.createTransparentGifs_body host groups) _
                (Object_keys groups)
                (fun b t s0 H0 => TG_body_primary host Hmagick groups b t s0 H0)
                (mkTally 0 0) s Hs) as (Hr & Hc & Hq).
    unfold TransparentGifCreator.createTransparentGifs_loop. rewrite Hr, Hc, Hq.
    cbn [successCount failCount]. rewrite Nat.add_0_r, Hkeys. now repeat split.
  - destruct (for_of_all_primary (TransparencyMaker.processImages_body host) _
                files
                (fun f t s0 H0 => TM_body_primary host Hmagick f t s0 H0)
                (mkTally 0 0) s Hs) as (Hr & Hc & Hq).
    unfold TransparencyMaker.processImages_loop. rewrite Hr, Hc, Hq.
    cbn [successCount failCount]. rewrite Nat.add_0_r. now repeat split.
Qed.

Lemma working_magick_needs_no_fallback_witness :
  let host := fixed_host [] (starts_with "magick ") true true in
  let groups := [("door", door_frames)] in
  res (GifCreator.createGifs_loop host groups (start tt)) = Value (mkTally 1 0)
  /\ exec_commands (events (GifCreator.createGifs_loop host groups (start tt)))
     = [gif_command "magick" (input_files door_frames) "./converted/gifs/door.gif"]
  /\ filter changes_files (events (GifCreator.createGifs_loop host groups (start tt))) = [].
Proof.
  intros host groups.
  destruct (working_magick_needs_no_fallback host groups ["door_0.png"] (start tt))
    as (Hgifs & _).
  - intros c w H. simpl. now rewrite H.
  - reflexivity.
  - exact Hgifs.
Defined.

(** X17.  A manifest that cannot be written makes the fallback backend
    reject with the error of [writeFileSync], thrown inside the
    executor of the promise: no FFmpeg command is started, nothing is
    deleted, and nothing is printed by the function. *)
Theorem unwritable_manifest_rejects
  {World : Type} (host : Host World) (b : string) (frames : list Frame)
  (s : Proc World) (e : Error) :
  (let listFile := path_join host GifCreator.outputDir (b ++ "_list.txt") in
   fst (host_writeFileSync host listFile (list_content host frames) (world s)) = Some e ->
   GifCreator.createGifWithFFmpeg host b frames s
   = mkRun [ EvCall FFmpeg b;
             EvWriteFileSync listFile (list_content host frames) (Some e);
             EvSettled FFmpeg b false ]
           (with_world s
              (snd (host_writeFileSync host listFile (list_content host frames)
                      (world s))))
           (Throw e))
  /\ (let listFile := path_join host TransparentGifCreator.outputDir (b ++ "_list.txt") in
      fst (host_writeFileSync host listFile (list_content host frames) (world s)) = Some e ->
      TransparentGifCreator.createTransparentGifWithFFmpeg host b frames s
      = mkRun [ EvCall FFmpeg b;
                EvWriteFileSync listFile (list_content host frames) (Some e);
                EvSettled FFmpeg b false ]
              (with_world s
                 (snd (host_writeFileSync host listFile (list_content host frames)
                         (world s))))
              (Throw e)).
Proof.
  split; cbv zeta; intros Hw.
  - pose proof (GC_FFmpeg_run host b frames s) as H. cbv zeta in H.
    now rewrite Hw in H.
  - pose proof (TG_FFmpeg_run host b frames s) as H. cbv zeta in H.
    now rewrite Hw in H.
Qed.

Lemma unwritable_manifest_rejects_witness :
  let host := fixed_host [] (fun _ => true) false true in
  exec_commands
    (events (GifCreator.createGifWithFFmpeg host "door" door_frames (start tt))) = []
  /\ res (TransparentGifCreator.createTransparentGifWithFFmpeg host "door" door_frames
            (start tt))
     = Throw "EACCES: permission denied, open './converted/transparent-gifs/door_list.txt'".
Proof.
  intros host.
  destruct (unwritable_manifest_rejects host "door" door_frames (start tt)
              "EACCES: permission denied, open './converted/gifs/door_list.txt'")
    as [Hgif _].
  destruct (unwritable_manifest_rejects host "door" door_frames (start tt)
              "EACCES: permission denied, open './converted/transparent-gifs/door_list.txt'")
    as [_ Htransparent].
  cbv zeta in Hgif, Htransparent.
  rewrite (Hgif eq_refl), (Htransparent eq_refl). split; reflexivity.
Defined.

(** X18.  The two temporary files are deleted inside one [try]: when
    deleting the manifest fails, the deletion of the palette is not
    attempted.  The promise still settles as the FFmpeg command
    decided. *)
Theorem cleanup_stops_at_first_failure
  {World : Type} (host : Host World) (b : string) (frames : list Frame)
  (s : Proc World) (e : Error) :
  let listFile := path_join host TransparentGifCreator.outputDir (b ++ "_list.txt") in
  let out := path_join host TransparentGifCreator.outputDir (b ++ ".gif") in
  let s1 := with_world s
              (snd (host_writeFileSync host listFile (list_content host frames)
                      (world s))) in
  let r := TransparentGifCreator.createTransparentGifWithFFmpeg host b frames s in
  fst (host_writeFileSync host listFile (list_content host frames) (world s)) = None ->
  (forall w, fst (host_unlinkSync host listFile w) = Some e) ->
  filter is_unlink (events r) = [EvUnlinkSync listFile (Some e)]
  /\ res r = match fst (host_exec host (transparent_ffmpeg_command listFile out)
                          (world s1)) with
             | None => Value out
             | Some e' => Throw e'
             end.
Proof.
  cbv zeta. intros Hw Hu.
  pose proof (TG_FFmpeg_run host b frames s) as H. cbv zeta in H.
  rewrite Hw in H. rewrite H.
  match goal with |- context [cleanup host ?a ?b' ?s3] =>
    pose proof (cleanup_run host a b' s3) as Hc end.
  cbv zeta in Hc. rewrite Hu in Hc.
  destruct (fst (host_exec host _ _)) as [e'|]; cbn [events res];
    rewrite Hc; split; reflexivity.
Qed.

Lemma cleanup_stops_at_first_failure_witness :
  let host := fixed_host [] (fun _ => true) true false in
  let r := TransparentGifCreator.createTransparentGifWithFFmpeg host "door" door_frames
             (start tt) in
  filter is_unlink (events r)
  = [ EvUnlinkSync "./converted/transparent-gifs/door_list.txt"
        (Some "EPERM: operation not permitted, unlink './converted/transparent-gifs/door_list.txt'") ]
  /\ res r = Value "./converted/transparent-gifs/door.gif".
Proof.
  intros host r.
  exact (cleanup_stops_at_first_failure host "door" door_frames (start tt)
           "EPERM: operation not permitted, unlink './converted/transparent-gifs/door_list.txt'"
           eq_refl (fun _ => eq_refl)).
Defined.

(** X19.  transparency-maker.js selects its files by extension alone,
    and every file name that the frame pattern accepts has the
    extension [.png]: the selection keeps every frame, so grouping the
    selected files gives the same result as grouping the whole
    listing. *)
Theorem png_selection_keeps_every_frame
  (path_join : string -> string -> string) (dir : string) (files : list string) :
  filter matches_pattern (png_files files) = filter matches_pattern files
  /\ group_files path_join dir (png_files files) = group_files path_join dir files.
Proof.
  assert (H : filter matches_pattern (png_files files) = filter matches_pattern files).
  { unfold png_files. rewrite filter_filter_and. apply filter_ext.
    intros f. unfold matches_pattern.
    destruct (regex_match f) as [[b d]|] eqn:Hm; [|apply andb_false_r].
    now rewrite (regex_match_extname f b d Hm). }
  split; [exact H|].
  unfold group_files.
  rewrite (forEach_visit_matching path_join dir (png_files files)),
          (forEach_visit_matching path_join dir files).
  now rewrite H.
Qed.

(* ================================================================== *)
(** * From the listing to the command line                             *)
(* ================================================================== *)

Lemma members_In (path_join : string -> string -> string) (dir b : string)
  (files : list string) (fr : Frame) :
  In fr (members path_join dir b files) <->
  exists d, In (file fr) files
            /\ regex_match (file fr) = Some (b, d)
            /\ fr = mkFrame (file fr) (parseInt d) (path_join dir (file fr)).
Proof.
  unfold members. rewrite in_flat_map. split.
  - intros (f & Hf & Hin). rewrite accept_regex in Hin.
    destruct (regex_match f) as [[b' d]|] eqn:Hm; [|destruct Hin].
    destruct (String.eqb b' b) eqn:Hb; [|destruct Hin].
    apply String.eqb_eq in Hb. subst b'.
    destruct Hin as [<-|[]]. cbn [file]. exists d. now repeat split.
  - intros (d & Hf & Hm & Hfr). exists (file fr). split; [assumption|].
    rewrite accept_regex, Hm, String.eqb_refl. left. now symmetry.
Qed.

(** X20.  A group holds frames of its own base name only, and each as
    the listing gave it: every frame of the group [b] stands for a file
    of the listing that the pattern splits into [b] and a digit run,
    with the number of that run as frame index and
    [path.join(dir, file)] as path; and every such file has its frame
    in the group. *)
Theorem group_members_belong
  (path_join : string -> string -> string) (dir : string)
  (files : list string) (groups : Groups) (b : string) (frames : list Frame) :
  group_files path_join dir files = Ok groups ->
  own b groups = Some frames ->
  forall fr,
    In fr frames <->
    exists d, In (file fr) files
              /\ regex_match (file fr) = Some (b, d)
              /\ fr = mkFrame (file fr) (parseInt d) (path_join dir (file fr)).
Proof.
  intros Hg Hown fr.
  rewrite (group_files_own path_join dir files groups Hg b) in Hown.
  destruct (List.length (members path_join dir b files) <? 2)%nat; [discriminate|].
  injection Hown as <-.
  rewrite <- members_In. split; intros H.
  - eapply Permutation_in; [symmetry; apply js_sort_perm | exact H].
  - eapply Permutation_in; [apply js_sort_perm | exact H].
Qed.

Lemma group_members_belong_witness :
  let files := ["door_1.png"; "lamp_0.png"; "door_0.png"] in
  let frames := [ mkFrame "door_0.png" (Fin 0) "d/door_0.png";
                  mkFrame "door_1.png" (Fin 1) "d/door_1.png" ] in
  In (mkFrame "door_1.png" (Fin 1) "d/door_1.png") frames <->
  exists d, In "door_1.png" files
            /\ regex_match "door_1.png" = Some ("door", d)
            /\ mkFrame "door_1.png" (Fin 1) "d/door_1.png"
               = mkFrame "door_1.png" (parseInt d) "d/door_1.png".
Proof.
  intros files frames.
  exact (group_members_belong (fun a b => a ++ "/" ++ b) "d" files
           [("door", frames)] "door" frames eq_refl eq_refl
           (mkFrame "door_1.png" (Fin 1) "d/door_1.png")).
Defined.

(** X21.  From the directory to the command line.  On a machine where
    every [magick] command succeeds, with no recorded path, a listing
    that grouping accepts makes [createTransparentGifs] run one
    [magick] command per group, in the order of [Object.keys], and each
    command names the frames of its group in ascending order of frame
    index; the function then ends normally. *)
Theorem frames_reach_magick_in_order
  {World : Type} (host : Host World) (s : Proc World)
  (files : list string) (groups : Groups) :
  (forall c w, starts_with "magick " c = true -> fst (host_exec host c w) = None) ->
  imageMagickPath s = None ->
  fst (host_readdirSync host TransparentGifCreator.transparentDir (world s)) = Ok files ->
  group_files (path_join host) TransparentGifCreator.transparentDir files = Ok groups ->
  let r := TransparentGifCreator.createTransparentGifs host s in
  let sorted b :=
    js_sort by_frame
      (members (path_join host) TransparentGifCreator.transparentDir b files) in
  res r = Value tt
  /\ exec_commands (events r)
     = map (fun b => transparent_gif_command "magick" (input_files (sorted b))
                       (path_join host TransparentGifCreator.outputDir (b ++ ".gif")))
           (Object_keys groups)
  /\ (forall b, In b (Object_keys groups) -> Sorted frame_le (sorted b)).
Proof.
  intros Hmagick Hs Hlist Hgroups. cbv zeta.
  pose proof (TG_createTransparentGifs_run host s) as Hrun. cbv zeta in Hrun.
  rewrite Hlist, Hgroups in Hrun.
  set (s1 := with_world s
               (snd (host_readdirSync host TransparentGifCreator.transparentDir (world s))))
    in *.
  destruct (TG_from_run host groups s1) as (t & Ht & Hfrom). cbv zeta in Hfrom.
  assert (Hs1 : imageMagickPath s1 = None) by exact Hs.
  destruct (for_of_all_primary
              (TransparentGifCreator.createTransparentGifs_body host groups) _
              (Object_keys groups)
              (fun b t0 s0 H0 => TG_body_primary host Hmagick groups b t0 s0 H0)
              (mkTally 0 0) s1 Hs1) as (Hr & Hc & _).
  fold (TransparentGifCreator.createTransparentGifs_loop host groups s1) in Hr, Hc.
  assert (Hframes : forall b, In b (Object_keys groups) ->
            frames_of groups b
            = js_sort by_frame
                (members (path_join host) TransparentGifCreator.transparentDir b files)).
  { intros b Hb. apply Object_keys_own in Hb. unfold frames_of.
    rewrite (group_files_own _ _ files groups Hgroups b) in *.
    destruct (List.length (members _ _ b files) <? 2)%nat; [congruence|reflexivity]. }
  rewrite Hrun, Hfrom. split; [|split].
  - rewrite res_prepend. now destruct (Object_keys groups).
  - rewrite events_prepend, exec_commands_app. cbn [exec_commands flat_map app].
    rewrite (map_ext_in _ _ _ (fun b Hb => f_equal
               (fun frs => transparent_gif_command "magick" (input_files frs)
                             (path_join host TransparentGifCreator.outputDir (b ++ ".gif")))
               (eq_sym (Hframes b Hb)))).
    rewrite <- Hc.
    destruct (Object_keys groups) as [|k ks] eqn:Hk.
    + rewrite Hc. reflexivity.
    + cbn [events]. rewrite !exec_commands_app.
      assert (Hfound : exec_commands (TransparentLines.found groups) = []).
      { unfold TransparentLines.found. cbn [exec_commands flat_map app].
        rewrite exec_commands_app.
        assert (Hmap : forall (l : list string) (g : string -> string),
                  exec_commands (map (fun n => EvLog (g n)) l) = []).
        { intros l g. induction l; [reflexivity | exact IHl]. }
        rewrite Hmap. reflexivity. }
      rewrite Hfound. unfold TransparentLines.scanning, TransparentLines.tally.
      cbn [exec_commands flat_map app]. now rewrite app_nil_r.
  - intros b _. apply js_sort_by_frame_sorted, members_frame_ok.
Qed.

Lemma frames_reach_magick_in_order_witness :
  let host := fixed_host ["door_1.png"; "lamp_0.png"; "door_0.png"]
                (starts_with "magick ") true true in
  let r := TransparentGifCreator.createTransparentGifs host (start tt) in
  res r = Value tt
  /\ exec_commands (events r)
     = [ transparent_gif_command "magick"
           (input_files
              [ mkFrame "door_0.png" (Fin 0) "./converted/transparent/door_0.png";
                mkFrame "door_1.png" (Fin 1) "./converted/transparent/door_1.png" ])
           "./converted/transparent-gifs/door.gif" ].
Proof.
  intros host r.
  destruct (frames_reach_magick_in_order host (start tt)
              ["door_1.png"; "lamp_0.png"; "door_0.png"]
              [("door", [ mkFrame "door_0.png" (Fin 0) "./converted/transparent/door_0.png";
                          mkFrame "door_1.png" (Fin 1) "./converted/transparent/door_1.png" ])])
    as (Hres & Hcmd & _).
  - intros c w H. simpl. now rewrite H.
  - reflexivity.
  - reflexivity.
  - reflexivity.
  - split; [exact Hres | exact Hcmd].
Defined.

(** X23.  The two scripts meet: the path at which transparency-maker.js
    writes the transparent copy of a file is the path that
    transparent-gif-creator.js records for the frame of that file.
    Whenever a backend of transparency-maker.js resolves for the file
    of a frame of a group, it resolves with the path of that frame. *)
Theorem transparent_frames_are_transparency_outputs
  {World : Type} (host : Host World) (files : list string) (groups : Groups)
  (b : string) (frames : list Frame) (fr : Frame) :
  group_files (path_join host) TransparentGifCreator.transparentDir files = Ok groups ->
  own b groups = Some frames ->
  In fr frames ->
  forall (s : Proc World) (p : string),
    (res (TransparencyMaker.makeTransparentWithImageMagick host (file fr) (file fr) s)
     = Value p -> p = path fr)
    /\ (res (TransparencyMaker.makeTransparentWithFFmpeg host (file fr) (file fr) s)
        = Value p -> p = path fr).
Proof.
  intros Hg Hown Hin s p.
  assert (Hmem : In fr (members (path_join host) TransparentGifCreator.transparentDir
                         b files)).
  { rewrite (group_files_own _ _ files groups Hg b) in Hown.
    destruct (List.length (members _ _ b files) <? 2)%nat; [discriminate|].
    injection Hown as <-.
    eapply Permutation_in; [symmetry; apply js_sort_perm | exact Hin]. }
  apply members_In in Hmem. destruct Hmem as (d & _ & _ & Hfr).
  assert (Hpath : path fr
                  = path_join host TransparencyMaker.outputDir (file fr))
    by (rewrite Hfr at 1; reflexivity).
  split; intros Hres.
  - pose proof (TM_ImageMagick_run host (file fr) (file fr) s) as H. cbv zeta in H.
    rewrite H in Hres.
    destruct (fst (host_exec host _ _)); [discriminate|].
    injection Hres as <-. now rewrite Hpath.
  - pose proof (TM_FFmpeg_run host (file fr) (file fr) s) as H. cbv zeta in H.
    rewrite H in Hres.
    destruct (fst (host_exec host _ _)); [discriminate|].
    injection Hres as <-. now rewrite Hpath.
Qed.

Lemma transparent_frames_are_transparency_outputs_witness :
  let host := fixed_host ["door_1.png"; "door_0.png"] (fun _ => true) true true in
  let fr := mkFrame "door_1.png" (Fin 1) "./converted/transparent/door_1.png" in
  res (TransparencyMaker.makeTransparentWithFFmpeg host "door_1.png" "door_1.png" (start tt))
  = Value "./converted/transparent/door_1.png"
  /\ "./converted/transparent/door_1.png" = path fr.
Proof.
  intros host fr. split; [reflexivity|].
  apply (transparent_frames_are_transparency_outputs host
           ["door_1.png"; "door_0.png"]
           [("door", [ mkFrame "door_0.png" (Fin 0) "./converted/transparent/door_0.png"; fr ])]
           "door"
           [ mkFrame "door_0.png" (Fin 0) "./converted/transparent/door_0.png"; fr ]
           fr eq_refl eq_refl (or_intror (or_introl eq_refl)) (start tt)
           "./converted/transparent/door_1.png").
  reflexivity.
Defined.

(* ================================================================== *)
(** * The files that transparency-maker.js selects                     *)
(* ================================================================== *)

Lemma extname_scan_endPos_kept (rs : list ascii) (st : ExtState) (e : nat) :
  endPos st = Some e -> endPos (extname_scan rs st) = Some e.
Proof.
  revert st. induction rs as [|c rs IH]; intros st He; cbn [extname_scan]; [assumption|].
  destruct (Ascii.eqb c "/").
  - destruct (negb (matchedSlash st)); [exact He | now apply IH].
  - rewrite He. apply IH.
    destruct (Ascii.eqb c "."); destruct (startDot st);
      try destruct (negb (preDotState st =? 1)); exact He.
Qed.

Lemma extname_scan_endPos_first (c : ascii) (rs : list ascii) :
  c <> "/"%char ->
  endPos (extname_scan (c :: rs) ext_init) = Some (S (List.length rs)).
Proof.
  intros Hc. cbn [extname_scan].
  rewrite (proj2 (Ascii.eqb_neq c "/") Hc). cbn [endPos ext_init].
  apply extname_scan_endPos_kept.
  replace (List.length rs + 1)%nat with (S (List.length rs)) by lia.
  now destruct (Ascii.eqb c ".").
Qed.

Lemma extname_is_slice (f : string) :
  extname f <> "" ->
  exists sd e,
    endPos (extname_scan (rev (list_ascii_of_string f)) ext_init) = Some e
    /\ extname f = slice (list_ascii_of_string f) sd e.
Proof.
  unfold extname. intros H.
  destruct (startDot _) as [sd|]; [|contradiction].
  destruct (endPos _) as [e|]; [|contradiction].
  exists sd, e. split; [reflexivity|].
  now destruct (_ || _).
Qed.

Lemma string_of_list_ascii_app (l1 l2 : list ascii) :
  string_of_list_ascii (l1 ++ l2)
  = string_of_list_ascii l1 ++ string_of_list_ascii l2.
Proof. induction l1 as [|c l1 IH]; simpl; [reflexivity | now rewrite IH]. Qed.

Lemma no_slash_last (l : list ascii) (c : ascii) :
  no_slash (string_of_list_ascii (l ++ [c])) = true -> c <> "/"%char.
Proof.
  unfold no_slash. rewrite string_of_list_ascii_app, all_chars_app. intros H.
  apply andb_prop in H. destruct H as [_ H]. simpl in H. rewrite andb_true_r in H.
  intros ->. discriminate H.
Qed.

(** A name with the extension [.png] ends in [.png], after a stem. *)
Lemma extname_png_shape (f : string) :
  no_slash f = true -> extname f = ".png" ->
  exists x, nonempty x = true /\ f = x ++ ".png".
Proof.
  intros Hns Hext.
  destruct (extname_is_slice f) as (sd & e & He & Hsl); [rewrite Hext; discriminate|].
  rewrite Hext in Hsl.
  set (cs := list_ascii_of_string f) in *.
  assert (Hf : f = string_of_list_ascii cs)
    by (unfold cs; now rewrite string_of_list_ascii_of_string).
  destruct (rev cs) as [|c rs] eqn:Hrev.
  { apply (f_equal (@rev ascii)) in Hrev. rewrite rev_involutive in Hrev.
    simpl in Hrev. rewrite Hrev in Hsl. unfold slice in Hsl.
    rewrite skipn_nil, firstn_nil in Hsl. discriminate. }
  assert (Hcs : cs = (rev rs ++ [c])%list).
  { apply (f_equal (@rev ascii)) in Hrev. now rewrite rev_involutive in Hrev. }
  assert (Hc : c <> "/"%char).
  { apply (no_slash_last (rev rs)). now rewrite <- Hcs, <- Hf. }
  rewrite (extname_scan_endPos_first c rs Hc) in He. injection He as <-.
  assert (Hn : List.length cs = S (List.length rs)).
  { rewrite Hcs, length_app, length_rev. simpl. lia. }
  unfold slice in Hsl. rewrite <- Hn in Hsl.
  assert (Hlen : List.length (firstn (List.length cs - sd) (skipn sd cs)) = 4%nat).
  { apply (f_equal list_ascii_of_string) in Hsl.
    rewrite list_ascii_of_string_of_list_ascii in Hsl. now rewrite <- Hsl. }
  rewrite length_firstn, length_skipn, Nat.min_id in Hlen.
  rewrite firstn_all2 in Hsl by (rewrite length_skipn; lia).
  exists (string_of_list_ascii (firstn sd cs)). split.
  - destruct sd as [|sd'].
    + exfalso. rewrite skipn_O in Hsl. rewrite <- Hf in Hsl.
      rewrite <- Hsl in Hext. discriminate Hext.
    + destruct cs as [|c0 cs']; [simpl in Hlen; lia | reflexivity].
  - rewrite Hsl, <- string_of_list_ascii_app, firstn_skipn. exact Hf.
Qed.

(** A name that ends in [.png] after a stem has the extension [.png]. *)
Lemma extname_of_png_name (pre : string) (c : ascii) :
  c <> "/"%char -> extname (pre ++ String c ".png") = ".png".
Proof.
  intros Hslash.
  destruct (ascii_dec c ".") as [->|Hdot]; [|now apply extname_png].
  unfold extname.
  rewrite list_ascii_of_string_app.
  change (list_ascii_of_string (String "." ".png")) with ["."; "."; "p"; "n"; "g"]%char.
  set (l := list_ascii_of_string pre).
  rewrite rev_app_distr.
  change (rev ["."; "."; "p"; "n"; "g"]%char) with ["g"; "n"; "p"; "."; "."]%char.
  change ((["g"; "n"; "p"; "."; "."]%char ++ rev l)%list)
    with ("g" :: "n" :: "p" :: "." :: "." :: rev l)%char.
  rewrite extname_scan_png.
  cbn [extname_scan Ascii.eqb Bool.eqb andb endPos startDot startPart matchedSlash
         preDotState negb Z.eqb].
  set (a := List.length ("."%char :: rev l)).
  set (e := (S (S (S a)) + 1)%nat).
  destruct (extname_scan_settled (rev l)
              (mkExtState (Some a) 0 (Some e) false 1) a e)
    as (Hs & He & Hp); try reflexivity; [discriminate|].
  cbv zeta in Hs, He, Hp. rewrite Hs, He.
  destruct (preDotState _ =? 0) eqn:H0; [apply Z.eqb_eq in H0; contradiction|].
  assert (Hlen : a = S (List.length l)) by (unfold a; simpl; now rewrite length_rev).
  assert (Hend : e = (S (List.length l) + 4)%nat) by (unfold e; lia).
  replace (a =? e - 1)%nat with false by (symmetry; apply Nat.eqb_neq; lia).
  rewrite andb_false_r. cbn [orb].
  unfold slice. replace (e - a)%nat with 4%nat by lia.
  change (l ++ ["."; "."; "p"; "n"; "g"]%char)%list
    with (l ++ ["."%char] ++ ["."; "p"; "n"; "g"]%char)%list.
  rewrite app_assoc, Hlen.
  replace (S (List.length l)) with (List.length (l ++ ["."%char])%list + 0)%nat
    by (rewrite length_app; simpl; lia).
  rewrite skipn_app, skipn_all2 by lia.
  replace (List.length (l ++ ["."%char]) + 0 - List.length (l ++ ["."%char]))%nat
    with 0%nat by lia.
  reflexivity.
Qed.

Lemma no_slash_stem_last (d' : string) (c : ascii) (t : string) :
  no_slash ((d' ++ String c "") ++ t) = true -> c <> "/"%char.
Proof.
  unfold no_slash. rewrite !all_chars_app. intros H.
  apply andb_prop in H. destruct H as [H _].
  apply andb_prop in H. destruct H as [_ H]. simpl in H. rewrite andb_true_r in H.
  intros ->. discriminate H.
Qed.

(** X22.  The files that [getAllPngFiles] selects from a directory
    listing, whose entries never hold a slash, are exactly the entries
    of the form [x.png] with a non-empty stem [x]: the test is on the
    lower-case extension alone, so a frame number is not needed, and an
    entry named [.png] is left out. *)
Theorem png_files_are_the_png_names (files : list string) (f : string) :
  no_slash f = true ->
  (In f (png_files files)
   <-> In f files /\ exists x, nonempty x = true /\ f = x ++ ".png").
Proof.
  intros Hns. unfold png_files. rewrite filter_In, String.eqb_eq. split.
  - intros [Hin Hext]. split; [assumption|]. now apply extname_png_shape.
  - intros [Hin (x & Hx & ->)]. split; [assumption|].
    destruct (nonempty_last x Hx) as (x' & c & ->).
    pose proof (no_slash_stem_last x' c ".png" Hns) as Hc.
    rewrite append_assoc. now apply extname_of_png_name.
Qed.

Lemma png_files_are_the_png_names_witness :
  let files := ["door_0.png"; "logo.png"; ".png"; "DOOR_1.PNG"; "notes.txt"] in
  In "logo.png" (png_files files)
  <-> In "logo.png" files /\ exists x, nonempty x = true /\ "logo.png" = x ++ ".png".
Proof.
  intros files.
  exact (png_files_are_the_png_names files "logo.png" eq_refl).
Defined.

(* ================================================================== *)
(** * Temporary files of gifcreator.js                                 *)
(* ================================================================== *)

(** X24.  When the manifest of [createGifWithFFmpeg] has been written,
    what becomes of it is decided by the palette command alone.  If
    that command fails, the promise rejects with its error at once: the
    second command is not run, nothing is printed, and no deletion is
    attempted, so the manifest stays.  If it succeeds, the second
    command is run and the deletion of the manifest is attempted,
    whatever the second command answers. *)
Theorem manifest_stays_iff_palette_fails
  {World : Type} (host : Host World) (b : string) (frames : list Frame)
  (s : Proc World) :
  let listFile := path_join host GifCreator.outputDir (b ++ "_list.txt") in
  let paletteFile := path_join host GifCreator.outputDir (b ++ "_palette.png") in
  let out := path_join host GifCreator.outputDir (b ++ ".gif") in
  let command1 := gif_palette_command listFile paletteFile in
  let command2 := gif_encode_command listFile paletteFile out in
  let s1 := with_world s
              (snd (host_writeFileSync host listFile (list_content host frames)
                      (world s))) in
  let r := GifCreator.createGifWithFFmpeg host b frames s in
  fst (host_writeFileSync host listFile (list_content host frames) (world s)) = None ->
  match fst (host_exec host command1 (world s1)) with
  | Some e1 =>
      res r = Throw e1
      /\ exec_commands (events r) = [command1]
      /\ filter is_unlink (events r) = []
      /\ filter is_console (events r) = []
  | None =>
      exec_commands (events r) = [command1; command2]
      /\ exists u rest,
           filter is_unlink (events r) = EvUnlinkSync listFile u :: rest
  end.
Proof.
  cbv zeta. intros Hw.
  pose proof (GC_FFmpeg_run host b frames s) as H. cbv zeta in H.
  rewrite Hw in H. rewrite H. clear H.
  destruct (fst (host_exec host (gif_palette_command _ _) _)) as [e1|].
  - repeat split.
  - match goal with |- context [cleanup host ?a ?b' ?s3] =>
      destruct (cleanup_events host a b' s3) as (u & rest & Hev & Hall);
      destruct (cleanup_quiet host a b' s3) as [_ Hq]
    end.
    assert (Hrest : filter is_unlink rest = rest).
    { clear -Hall. induction Hall as [|ev l Hev _ IH]; [reflexivity|].
      cbn [filter]. now rewrite Hev, IH. }
    destruct (fst (host_exec host (gif_encode_command _ _ _) _)) as [e2|];
      cbn [events]; rewrite !exec_commands_app, !filter_app, Hq, Hev;
      (split; [reflexivity|]); exists u, rest; cbn [filter is_unlink app];
      now rewrite Hrest, app_nil_r.
Qed.

Lemma manifest_stays_iff_palette_fails_witness :
  let host := fixed_host [] (fun _ => false) true true in
  let r := GifCreator.createGifWithFFmpeg host "door" door_frames (start tt) in
  res r = Throw ("Command failed: "
                 ++ gif_palette_command "./converted/gifs/door_list.txt"
                      "./converted/gifs/door_palette.png")
  /\ exec_commands (events r)
     = [gif_palette_command "./converted/gifs/door_list.txt"
          "./converted/gifs/door_palette.png"]
  /\ filter is_unlink (events r) = []
  /\ filter is_console (events r) = [].
Proof.
  intros host r.
  exact (manifest_stays_iff_palette_fails host "door" door_frames (start tt) eq_refl).
Defined.

(** X25.  With no path recorded by the probe, in particular after a
    probe that found only [convert] or only FFmpeg, every command that
    [processImages] starts is a [magick] or an [ffmpeg] command, and
    the loop records no path itself. *)
Theorem processImages_names_magick_or_ffmpeg
  {World : Type} (host : Host World) (files : list string) (s : Proc World) :
  imageMagickPath s = None ->
  let loop := TransparencyMaker.processImages_loop host files s in
  Forall names_magick_or_ffmpeg (exec_commands (events loop))
  /\ imageMagickPath (final loop) = None.
Proof.
  intros Hs. cbv zeta. unfold TransparencyMaker.processImages_loop.
  destruct (for_of_handles (TransparencyMaker.processImages_body host) files
              (TM_body_handles host) (mkTally 0 0) s) as (atts & _ & _ & _ & Hg & Hcmd).
  split; [now apply Hcmd | now rewrite Hg].
Qed.

Lemma processImages_names_magick_or_ffmpeg_witness :
  let host := fixed_host [] (fun _ => false) true true in
  let loop := TransparencyMaker.processImages_loop host ["door_0.png"] (start tt) in
  Forall names_magick_or_ffmpeg (exec_commands (events loop))
  /\ imageMagickPath (final loop) = None.
Proof.
  intros host loop.
  exact (processImages_names_magick_or_ffmpeg host ["door_0.png"] (start tt) eq_refl).
Defined.
